(** * MindZapp battle engine: answer grading and lobby state machine

    A shallow embedding of [src/services/battleHub.ts] (the [BattleHub]
    class and its [gradeAnswer] helper) and of the payload helpers of
    [src/routes/battles.ts], together with the part of the ECMAScript
    runtime these functions rely on (property access on JSON values,
    [Boolean], [Number], [Math.round], [Array.prototype.sort], [Set]). *)

From Stdlib Require Import ZArith QArith Qround Qabs Ascii.
From stdpp Require Import gmap strings list fin_maps pretty sorting.

Local Open Scope Z_scope.

(** ** ECMAScript values and coercions *)

Module JS.

(** Number values.  A finite double is represented by the rational it
    denotes; [+0] and [-0] are identified, which is sound here because
    every operation the engine applies to numbers ([===],
    SameValueZero inside [Set], [Boolean], arithmetic on integers)
    identifies them too. *)
Inductive number : Type :=
| NaN
| Infinity (negative : bool)
| Finite (q : Q).

(** Values that JSON bodies and stored cards can carry, plus
    [undefined] for absent properties.  An object is the list of its own
    properties; the first binding of a key is the property. *)
#[local] Unset Elimination Schemes.
Inductive value : Type :=
| VUndefined
| VNull
| VBool (b : bool)
| VNum (n : number)
| VStr (s : string)
| VArr (elems : list value)
| VObj (props : list (string * value)).
#[local] Set Elimination Schemes.

(** What a call can throw: the [Error] messages of [BattleHub] and the
    runtime's [TypeError]. *)
Inductive error : Type :=
| LOBBY_NOT_FOUND
| LOBBY_FINISHED
| ALREADY_STARTED
| NOT_STARTED
| NO_ACTIVE_QUESTION
| PLAYER_NOT_IN_LOBBY
| TypeError.

Inductive completion (A : Type) : Type :=
| Return (a : A)
| Throw (e : error).
Arguments Return {A} a.
Arguments Throw {A} e.

Definition num_of_Z (z : Z) : number := Finite (inject_Z z).

(** [x === y] on numbers. *)
Definition num_strict_eq (x y : number) : bool :=
  match x, y with
  | Finite p, Finite q => Qeq_bool p q
  | Infinity a, Infinity b => Bool.eqb a b
  | _, _ => false
  end.

(** SameValueZero on numbers, the equality of [Set] and [Map] keys. *)
Definition same_value_zero (x y : number) : bool :=
  match x, y with
  | NaN, NaN => true
  | _, _ => num_strict_eq x y
  end.

Fixpoint own_property (props : list (string * value)) (k : string) : option value :=
  match props with
  | [] => None
  | (k', v) :: rest => if String.eqb k' k then Some v else own_property rest k
  end.

(** [v?.k] for a property name [k] that no built-in prototype defines
    ([answer], [index], [indices], [correct], [options]): nullish
    receivers short-circuit to [undefined], primitives and arrays have
    no such property, objects answer with their own property. *)
Definition opt_get (v : value) (k : string) : value :=
  match v with
  | VObj props => default VUndefined (own_property props k)
  | _ => VUndefined
  end.

(** [v ?? d] *)
Definition nullish_or (v d : value) : value :=
  match v with
  | VUndefined | VNull => d
  | _ => v
  end.

(** [Boolean(v)] (ToBoolean). *)
Definition Boolean (v : value) : bool :=
  match v with
  | VUndefined | VNull => false
  | VBool b => b
  | VNum NaN => false
  | VNum (Infinity _) => true
  | VNum (Finite q) => negb (Qeq_bool q 0)
  | VStr s => negb (String.eqb s "")
  | VArr _ | VObj _ => true
  end.

(** [v === true] *)
Definition is_true (v : value) : bool :=
  match v with
  | VBool true => true
  | _ => false
  end.

(** [Array.isArray(v) ? v : []] *)
Definition array_or_empty (v : value) : list value :=
  match v with
  | VArr elems => elems
  | _ => []
  end.

Definition isArray (v : value) : bool :=
  match v with
  | VArr _ => true
  | _ => false
  end.

(** [arr.findIndex(p)], [-1] when no element satisfies [p]. *)
Fixpoint findIndex_from {A : Type} (p : A → bool) (i : Z) (l : list A) : Z :=
  match l with
  | [] => -1
  | x :: rest => if p x then i else findIndex_from p (i + 1) rest
  end.

Definition findIndex {A : Type} (p : A → bool) (l : list A) : Z :=
  findIndex_from p 0 l.

(** [arr.map((x, i) => f(x, i))] *)
Fixpoint mapi_from {A B : Type} (f : A → Z → B) (i : Z) (l : list A) : list B :=
  match l with
  | [] => []
  | x :: rest => f x i :: mapi_from f (i + 1) rest
  end.

Definition mapi {A B : Type} (f : A → Z → B) (l : list A) : list B :=
  mapi_from f 0 l.

(** *** Rounding to binary64 *)

Definition pow2 (e : Z) : Q :=
  if 0 <=? e then inject_Z (2 ^ e) else 1 # Z.to_pos (2 ^ (- e)).

Definition pow10 (e : Z) : Q :=
  if 0 <=? e then inject_Z (10 ^ e) else 1 # Z.to_pos (10 ^ (- e)).

(** For [q > 0], the exponent [e] with [2^e <= q < 2^(e+1)]. *)
Definition floor_log2 (q : Q) : Z :=
  let e0 := Z.log2 (Qnum q) - Z.log2 (Z.pos (Qden q)) in
  if Qle_bool (pow2 e0) q then e0 else e0 - 1.

(** Round a non-negative rational to the nearest multiple of [2^u],
    ties to the even multiple. *)
Definition round_to_ulp (a : Q) (u : Z) : Q :=
  let s := (a / pow2 u)%Q in
  let m := Qfloor s in
  let r := (s - inject_Z m)%Q in
  let up := orb (negb (Qle_bool r (1 # 2))) (andb (Qeq_bool r (1 # 2)) (Z.odd m)) in
  Qred (inject_Z (if up then m + 1 else m) * pow2 u)%Q.

(** Magnitude of the binary64 nearest to [a >= 0] (round to nearest,
    ties to even; 53-bit significand, least exponent [-1022]). *)
Definition round64_abs (a : Q) : Q :=
  if Qeq_bool a 0 then 0%Q
  else round_to_ulp a (Z.max (floor_log2 a) (-1022) - 52).

(** The Number value of a real: roundings at or above [2^1024] are
    infinite. *)
Definition fl (q : Q) : number :=
  let v := round64_abs (Qabs q) in
  let negative := negb (Qle_bool 0 q) in
  if Qle_bool (pow2 1024) v then Infinity negative
  else Finite (if negative then Qred (- v)%Q else v).

(** The same rounding where the result is known to be finite (operands
    far below [2^1024]). *)
Definition fl_finite (q : Q) : Q :=
  let v := round64_abs (Qabs q) in
  if Qle_bool 0 q then v else Qred (- v)%Q.

(** [Math.round(x)] for finite [x]: the closest integer, ties towards
    [+Infinity]. *)
Definition Math_round (x : Q) : Z := Qfloor (x + (1 # 2))%Q.

(** *** [Number(v)] on strings: StringToNumber

    Strings are the UTF-8 bytes of the text.  The string is trimmed of
    StrWhiteSpaceChar on both sides and must then be empty or match
    StrNumericLiteral in full; anything else is [NaN]. *)

Definition bytes (l : list nat) : list ascii := map ascii_of_nat l.

(** WhiteSpace and LineTerminator code points, UTF-8 encoded: TAB, LF,
    VT, FF, CR, SP, U+00A0, U+1680, U+2000..U+200A, U+2028, U+2029,
    U+202F, U+205F, U+3000, U+FEFF. *)
Definition white_space : list (list ascii) :=
  map bytes
    [ [9]; [10]; [11]; [12]; [13]; [32]; [194; 160]; [225; 154; 128];
      [226; 128; 128]; [226; 128; 129]; [226; 128; 130]; [226; 128; 131];
      [226; 128; 132]; [226; 128; 133]; [226; 128; 134]; [226; 128; 135];
      [226; 128; 136]; [226; 128; 137]; [226; 128; 138];
      [226; 128; 168]; [226; 128; 169]; [226; 128; 175];
      [226; 129; 159]; [227; 128; 128]; [239; 187; 191] ]%nat.

Fixpoint strip_prefix (p s : list ascii) : option (list ascii) :=
  match p, s with
  | [], _ => Some s
  | a :: p', b :: s' => if Ascii.eqb a b then strip_prefix p' s' else None
  | _ :: _, [] => None
  end.

Fixpoint strip_any (ps : list (list ascii)) (s : list ascii) : option (list ascii) :=
  match ps with
  | [] => None
  | p :: rest =>
      match strip_prefix p s with
      | Some s' => Some s'
      | None => strip_any rest s
      end
  end.

Fixpoint trim_start_fuel (fuel : nat) (ws : list (list ascii)) (s : list ascii) : list ascii :=
  match fuel with
  | O => s
  | S n =>
      match strip_any ws s with
      | Some s' => trim_start_fuel n ws s'
      | None => s
      end
  end.

Definition trim_start (ws : list (list ascii)) (s : list ascii) : list ascii :=
  trim_start_fuel (length s) ws s.

Definition trim (s : list ascii) : list ascii :=
  rev (trim_start (map (@rev ascii) white_space) (rev (trim_start white_space s))).

(** Value of a digit in the given radix. *)
Definition digit_value (radix : Z) (c : ascii) : option Z :=
  let n := Z.of_nat (nat_of_ascii c) in
  let d :=
    if (48 <=? n) && (n <=? 57) then Some (n - 48)
    else if (97 <=? n) && (n <=? 102) then Some (n - 87)
    else if (65 <=? n) && (n <=? 70) then Some (n - 55)
    else None in
  match d with
  | Some k => if k <? radix then Some k else None
  | None => None
  end.

(** The longest prefix of digits: its value so far, how many digits
    were read, and the rest. *)
Fixpoint span_digits (radix : Z) (acc : Z) (count : Z) (s : list ascii) : Z * Z * list ascii :=
  match s with
  | c :: rest =>
      match digit_value radix c with
      | Some d => span_digits radix (acc * radix + d) (count + 1) rest
      | None => (acc, count, s)
      end
  | [] => (acc, count, s)
  end.

(** NonDecimalIntegerLiteral after its two-character prefix. *)
Definition parse_radix (radix : Z) (s : list ascii) : number :=
  match span_digits radix 0 0 s with
  | (v, count, []) => if 0 <? count then fl (inject_Z v) else NaN
  | _ => NaN
  end.

(** ExponentPart_opt: nothing, or [e]/[E], an optional sign and at least
    one digit, up to the end of the string. *)
Definition parse_exponent (s : list ascii) : option Z :=
  match s with
  | [] => Some 0
  | c :: rest =>
      if Ascii.eqb c "e" || Ascii.eqb c "E" then
        let '(negative, digits) :=
          match rest with
          | s' :: rest' =>
              if Ascii.eqb s' "-" then (true, rest')
              else if Ascii.eqb s' "+" then (false, rest')
              else (false, rest)
          | [] => (false, rest)
          end in
        match span_digits 10 0 0 digits with
        | (v, count, []) =>
            if 0 <? count then Some (if negative : bool then - v else v) else None
        | _ => None
        end
      else None
  end.

(** StrUnsignedDecimalLiteral other than [Infinity]. *)
Definition parse_unsigned_decimal (s : list ascii) : option Q :=
  let '(ip, icount, r1) := span_digits 10 0 0 s in
  let '(fp, fcount, r2) :=
    match r1 with
    | c :: r => if Ascii.eqb c "." then span_digits 10 0 0 r else (0, 0, r1)
    | [] => (0, 0, r1)
    end in
  if (icount =? 0) && (fcount =? 0) then None
  else
    match parse_exponent r2 with
    | Some e => Some ((inject_Z ip + inject_Z fp * pow10 (- fcount)) * pow10 e)%Q
    | None => None
    end.

Definition parse_signed_decimal (negative : bool) (s : list ascii) : number :=
  if bool_decide (s = String.list_ascii_of_string "Infinity") then Infinity negative
  else
    match parse_unsigned_decimal s with
    | Some q => fl (if negative then - q else q)%Q
    | None => NaN
    end.

Definition StringToNumber (str : string) : number :=
  match trim (String.list_ascii_of_string str) with
  | [] => Finite 0
  | c :: rest =>
      let s := c :: rest in
      if Ascii.eqb c "-" then parse_signed_decimal true rest
      else if Ascii.eqb c "+" then parse_signed_decimal false rest
      else
        match rest with
        | x :: digits =>
            if Ascii.eqb c "0" && (Ascii.eqb x "x" || Ascii.eqb x "X") then parse_radix 16 digits
            else if Ascii.eqb c "0" && (Ascii.eqb x "o" || Ascii.eqb x "O") then parse_radix 8 digits
            else if Ascii.eqb c "0" && (Ascii.eqb x "b" || Ascii.eqb x "B") then parse_radix 2 digits
            else parse_signed_decimal false s
        | [] => parse_signed_decimal false s
        end
  end.

(** *** [Number(v)] (ToNumber)

    Objects are converted through ToPrimitive.  A parsed JSON object
    inherits [Object.prototype.valueOf] (which returns the object, not
    a primitive) and [Object.prototype.toString] (["[object Object]"],
    not a numeric literal, hence [NaN]); an own [toString] property is
    data, not callable, and leaves no method that returns a primitive:
    TypeError.  An array is converted through [join(",")], which turns
    [undefined] and [null] elements into the empty string and every
    other element into its string; the text of two or more elements
    contains a comma and is no numeric literal, and a single number
    element reads back as itself. *)

Definition has_own (props : list (string * value)) (k : string) : bool :=
  bool_decide (is_Some (own_property props k)).

(** ToString of an array element throws. *)
Fixpoint join_throws (v : value) : bool :=
  match v with
  | VObj props => has_own props "toString"
  | VArr elems => existsb join_throws elems
  | _ => false
  end.

Fixpoint ToNumber_noexn (v : value) : number :=
  match v with
  | VUndefined => NaN
  | VNull => Finite 0
  | VBool b => Finite (if b then 1 else 0)
  | VNum n => n
  | VStr s => StringToNumber s
  | VObj _ => NaN
  | VArr [] => Finite 0
  | VArr [e] =>
      match e with
      | VUndefined | VNull => Finite 0
      | VBool _ => NaN
      | _ => ToNumber_noexn e
      end
  | VArr (_ :: _ :: _) => NaN
  end.

Definition Number (v : value) : completion number :=
  if join_throws v then Throw TypeError else Return (ToNumber_noexn v).

End JS.

Import JS.

(** ** Data model ([battleHub.ts]) *)

Inductive AccessMode : Type := PUBLIC | PRIVATE.

(** The [type] of a snapshot: [createLobby] keeps only cards whose type
    is in [ELIGIBLE_TYPES]. *)
Inductive QuestionType : Type := TRUE_FALSE | MCQ_SINGLE | MCQ_MULTI.

Record QuestionSnapshot : Type := {
  snap_id : string;
  snap_type : QuestionType;
  prompt_md : string;
  data_json : value;
  time_limit_sec : option number;
  hint : option string;
}.

(** The objects used as maps, [Lobby.players] and
    [PlayerState.answers], are finite maps on strings.  Their keys are
    user identifiers ([nanoid(12)] strings) and [`${q.id}:${qIndex}`]
    strings, none of which names a property inherited from
    [Object.prototype]. *)

(** One entry of [PlayerState.answers]. *)
Record AnswerRecord : Type := {
  ans_correct : bool;
  ans_ms : Z;
}.

Record PlayerState : Type := {
  userId : string;
  username : string;
  score : Z;
  answers : gmap string AnswerRecord;
}.

(** [nowISO()]: the ISO-8601 rendering of an instant, kept as the
    instant's epoch milliseconds.  Such a string is never empty, so the
    truthiness tests [if (lobby.startedAt)] and [if (lobby.finishedAt)]
    are tests for presence. *)
Inductive ISODate : Type := ISO (ms : Z).

Record Lobby : Type := {
  lobby_id : string;
  hostId : string;
  deckId : string;
  deckTitle : string;
  access : AccessMode;
  pin : option string;
  createdAt : ISODate;
  startedAt : option ISODate;
  finishedAt : option ISODate;
  players : gmap string PlayerState;
  order : list string;
  snapshots : list QuestionSnapshot;
  qIndex : Z;
  qShownAt : option Z;
}.

(** ** Server-side grading *)

(** [new Set<number>(xs)]: the distinct elements in insertion order. *)
Definition Set_has (s : list number) (x : number) : bool :=
  existsb (same_value_zero x) s.

Definition Set_add (s : list number) (x : number) : list number :=
  if Set_has s x then s else s ++ [x].

Definition Set_of (xs : list number) : list number :=
  fold_left Set_add xs [].

(** [xs.map(n => Number(n))]; the first conversion that throws aborts
    the map. *)
Fixpoint map_Number (xs : list value) : completion (list number) :=
  match xs with
  | [] => Return []
  | x :: rest =>
      match Number x with
      | Throw e => Throw e
      | Return n =>
          match map_Number rest with
          | Throw e => Throw e
          | Return ns => Return (n :: ns)
          end
      end
  end.

Definition gradeAnswer (snapshot : QuestionSnapshot) (payload : value) : completion bool :=
  let t := snap_type snapshot in
  let data := nullish_or (data_json snapshot) (VObj []) in
  match t with
  | TRUE_FALSE =>
      Return (Bool.eqb (Boolean (opt_get payload "answer")) (Boolean (opt_get data "correct")))
  | MCQ_SINGLE =>
      let options := array_or_empty (opt_get data "options") in
      let correctIndex := findIndex (λ o, is_true (opt_get o "correct")) options in
      match Number (opt_get payload "index") with
      | Throw e => Throw e
      | Return n => Return (num_strict_eq n (num_of_Z correctIndex))
      end
  | MCQ_MULTI =>
      let options := array_or_empty (opt_get data "options") in
      let correct :=
        Set_of (map num_of_Z
                  (filter (λ i, 0 ≤ i)
                     (mapi (λ o i, if Boolean (opt_get o "correct") then i else -1) options))) in
      match
        (if isArray (opt_get payload "indices")
         then map_Number (array_or_empty (opt_get payload "indices"))
         else Return [])
      with
      | Throw e => Throw e
      | Return indices =>
          let ans := Set_of indices in
          if negb (length ans =? length correct)%nat then Return false
          else Return (forallb (Set_has correct) ans)
      end
  end.

(** ** Outbound payloads *)

(** A row of the scoreboard, of the ranking and of the public roster. *)
Record ScoreRow : Type := {
  row_userId : string;
  row_username : string;
  row_score : Z;
}.

(** The object literal of [publicLobby]. *)
Record PublicLobby : Type := {
  pub_id : string;
  pub_deckId : string;
  pub_deckTitle : string;
  pub_access : AccessMode;
  pub_createdAt : ISODate;
  pub_startedAt : option ISODate;
  pub_players : list ScoreRow;
  pub_qIndex : Z;
  pub_total : Z;
}.

(** The [question] object of a [lobby:question] message. *)
Record QuestionView : Type := {
  view_id : string;
  view_type : QuestionType;
  view_prompt_md : string;
  view_data_json : value;
  view_time_limit_sec : option number;
  view_hint : option string;
}.

Record QuestionPayload : Type := {
  qp_lobbyId : string;
  qp_qIndex : Z;
  qp_total : Z;
  qp_shownAt : option Z;
  qp_question : QuestionView;
}.

(** What leaves the hub: socket messages to a room, and the awards of
    the prize loop of [finish] (the store posts an award as an [EARN]
    transaction with reason [battle_prize] when the user's file
    loads). *)
Inductive event : Type :=
| lobby_update (room : string) (body : PublicLobby)
| lobby_question (room : string) (body : QuestionPayload)
| lobby_scores (room : string) (lobbyId : string) (scores : list ScoreRow)
| lobby_finished (room : string) (lobbyId : string) (ranking : list ScoreRow)
| battle_prize (user : string) (zapps : Z) (ref : string).

(** ** The hub and its effects *)

(** The private fields of [BattleHub]; [io] tells whether a socket
    server was attached. *)
Record Hub : Type := {
  io : bool;
  lobbies : gmap string Lobby;
  pinIndex : gmap string string;
}.

(** A method call runs on the hub, may mutate it, may emit, and returns
    or throws.  A throw keeps the mutations and messages made before
    it. *)
Definition M (A : Type) : Type := Hub → completion A * Hub * list event.

#[export] Instance M_ret : MRet M := λ A a h, (Return a, h, []).

#[export] Instance M_bind : MBind M := λ A B f m h,
  match m h with
  | (Return a, h1, out1) =>
      match f a h1 with
      | (r, h2, out2) => (r, h2, out1 ++ out2)
      end
  | (Throw e, h1, out1) => (Throw e, h1, out1)
  end.

Definition throw {A : Type} (e : error) : M A := λ h, (Throw e, h, []).

Definition lift {A : Type} (c : completion A) : M A := λ h, (c, h, []).

Definition get_hub : M Hub := λ h, (Return h, h, []).

Definition post (evs : list event) : M unit := λ h, (Return tt, h, evs).

(** [this.io?.to(room).emit(...)]: without a socket server the whole
    chain is skipped, arguments included. *)
Definition emit (mk : completion event) : M unit := λ h,
  if io h then
    match mk with
    | Return ev => (Return tt, h, [ev])
    | Throw e => (Throw e, h, [])
    end
  else (Return tt, h, []).

(** A mutation of the lobby object held by [lobbies]. *)
Definition store_lobby (key : string) (l : Lobby) : M unit := λ h,
  (Return tt,
   {| io := io h; lobbies := <[key := l]> (lobbies h); pinIndex := pinIndex h |},
   []).

(** A call that is not awaited: what it throws is lost to the caller. *)
Definition detached {A : Type} (m : M A) : M unit := λ h,
  match m h with
  | (_, h1, out1) => (Return tt, h1, out1)
  end.

(** ** Field updates *)

Definition with_started (l : Lobby) (at_ : ISODate) (shown : Z) : Lobby :=
  {| lobby_id := lobby_id l; hostId := hostId l; deckId := deckId l;
     deckTitle := deckTitle l; access := access l; pin := pin l;
     createdAt := createdAt l; startedAt := Some at_; finishedAt := finishedAt l;
     players := players l; order := order l; snapshots := snapshots l;
     qIndex := 0; qShownAt := Some shown |}.

Definition with_qIndex (l : Lobby) (i : Z) : Lobby :=
  {| lobby_id := lobby_id l; hostId := hostId l; deckId := deckId l;
     deckTitle := deckTitle l; access := access l; pin := pin l;
     createdAt := createdAt l; startedAt := startedAt l; finishedAt := finishedAt l;
     players := players l; order := order l; snapshots := snapshots l;
     qIndex := i; qShownAt := qShownAt l |}.

Definition with_qShownAt (l : Lobby) (shown : Z) : Lobby :=
  {| lobby_id := lobby_id l; hostId := hostId l; deckId := deckId l;
     deckTitle := deckTitle l; access := access l; pin := pin l;
     createdAt := createdAt l; startedAt := startedAt l; finishedAt := finishedAt l;
     players := players l; order := order l; snapshots := snapshots l;
     qIndex := qIndex l; qShownAt := Some shown |}.

Definition with_finishedAt (l : Lobby) (at_ : ISODate) : Lobby :=
  {| lobby_id := lobby_id l; hostId := hostId l; deckId := deckId l;
     deckTitle := deckTitle l; access := access l; pin := pin l;
     createdAt := createdAt l; startedAt := startedAt l; finishedAt := Some at_;
     players := players l; order := order l; snapshots := snapshots l;
     qIndex := qIndex l; qShownAt := qShownAt l |}.

Definition with_players (l : Lobby) (ps : gmap string PlayerState) (ord : list string) : Lobby :=
  {| lobby_id := lobby_id l; hostId := hostId l; deckId := deckId l;
     deckTitle := deckTitle l; access := access l; pin := pin l;
     createdAt := createdAt l; startedAt := startedAt l; finishedAt := finishedAt l;
     players := ps; order := ord; snapshots := snapshots l;
     qIndex := qIndex l; qShownAt := qShownAt l |}.

(** [player.answers[key] = rec; player.score += delta] *)
Definition record_answer (p : PlayerState) (key : string) (rec : AnswerRecord) (delta : Z)
  : PlayerState :=
  {| userId := userId p; username := username p; score := score p + delta;
     answers := <[key := rec]> (answers p) |}.

(** ** Helpers of the hub *)

(** [lobby.snapshots[i]], [undefined] outside the array. *)
Definition snapshot_at (l : Lobby) (i : Z) : option QuestionSnapshot :=
  if 0 <=? i then snapshots l !! Z.to_nat i else None.

Definition total (l : Lobby) : Z := Z.of_nat (length (snapshots l)).

(** [{ userId: uid, username: lobby.players[uid].username,
       score: lobby.players[uid].score }]: reading a field of a missing
    player is a TypeError. *)
Definition score_row (l : Lobby) (uid : string) : completion ScoreRow :=
  match players l !! uid with
  | Some p => Return {| row_userId := uid; row_username := username p; row_score := score p |}
  | None => Throw TypeError
  end.

(** [lobby.order.map(uid => ...)] *)
Fixpoint score_rows_of (l : Lobby) (uids : list string) : completion (list ScoreRow) :=
  match uids with
  | [] => Return []
  | uid :: rest =>
      match score_row l uid with
      | Throw e => Throw e
      | Return r =>
          match score_rows_of l rest with
          | Throw e => Throw e
          | Return rs => Return (r :: rs)
          end
      end
  end.

Definition score_rows (l : Lobby) : completion (list ScoreRow) :=
  score_rows_of l (order l).

Definition publicLobby (l : Lobby) : completion PublicLobby :=
  match score_rows l with
  | Throw e => Throw e
  | Return rows =>
      Return {| pub_id := lobby_id l; pub_deckId := deckId l; pub_deckTitle := deckTitle l;
                pub_access := access l; pub_createdAt := createdAt l;
                pub_startedAt := startedAt l; pub_players := rows;
                pub_qIndex := qIndex l; pub_total := total l |}
  end.

(** The [question] literal shared by [emitQuestion] and
    [questionPayload]: the snapshot, field by field. *)
Definition question_view (q : QuestionSnapshot) : QuestionView :=
  {| view_id := snap_id q; view_type := snap_type q; view_prompt_md := prompt_md q;
     view_data_json := data_json q; view_time_limit_sec := time_limit_sec q;
     view_hint := hint q |}.

Definition question_message (l : Lobby) (q : QuestionSnapshot) : QuestionPayload :=
  {| qp_lobbyId := lobby_id l; qp_qIndex := qIndex l; qp_total := total l;
     qp_shownAt := qShownAt l; qp_question := question_view q |}.

(** [questionPayload] of [routes/battles.ts]. *)
Definition questionPayload (l : Lobby) : option QuestionPayload :=
  if (qIndex l <? 0) || (total l <=? qIndex l) then None
  else
    match snapshot_at l (qIndex l) with
    | Some q => Some (question_message l q)
    | None => None
    end.

(** ** Scoring *)

(** [Math.max(0, 5000 - elapsed)] *)
Definition speedBonus (elapsed : Z) : Z := Z.max 0 (5000 - elapsed).

(** [100 + Math.round(50 * (speedBonus / 5000))], in binary64
    arithmetic, for a correct answer; [0] otherwise. *)
Definition score_delta (correct : bool) (elapsed : Z) : Z :=
  if correct then
    100 + Math_round (fl_finite (50 * fl_finite (inject_Z (speedBonus elapsed) / 5000)))
  else 0.

(** The template string [`${q.id}:${lobby.qIndex}`]. *)
Definition answer_key (q : QuestionSnapshot) (i : Z) : string :=
  snap_id q +:+ ":" +:+ pretty i.

(** ** Ranking *)

(** [Array.prototype.sort(cmp)] is stable (ECMAScript 2019): with a
    consistent comparator its result is the one of this insertion
    sort, which puts an element in front of the first sorted element it
    does not have to follow. *)
Fixpoint sort_insert {A : Type} (cmp : A → A → Z) (x : A) (l : list A) : list A :=
  match l with
  | [] => [x]
  | y :: rest => if cmp x y <=? 0 then x :: y :: rest else y :: sort_insert cmp x rest
  end.

Fixpoint sort {A : Type} (cmp : A → A → Z) (l : list A) : list A :=
  match l with
  | [] => []
  | x :: rest => sort_insert cmp x (sort cmp rest)
  end.

(** [(a, b) => b.score - a.score] *)
Definition by_score_desc (a b : ScoreRow) : Z := row_score b - row_score a.

Definition prizes : list Z := [30; 20; 10].

(** [ranking.slice(0, 3).map((r, i) => ({ ...r, zapps: prizes[i] }))] *)
Definition awards (ranking : list ScoreRow) : list (ScoreRow * Z) :=
  zip (take 3 ranking) prizes.

(** ** The user store ([lib/store.ts]) *)

Module Store.

Inductive Visibility : Type := PUBLIC | PRIVATE.

(** [v === "PUBLIC"] *)
Definition is_public (v : Visibility) : bool :=
  match v with
  | PUBLIC => true
  | PRIVATE => false
  end.

Inductive CardType : Type :=
| MCQ_SINGLE | MCQ_MULTI | TRUE_FALSE | MATCH_LINES | MATCH_BUCKETS | TEXT.

Record Card : Type := {
  card_id : string;
  card_type : CardType;
  card_prompt_md : string;
  card_data_json : value;
  card_time_limit_sec : option number;
  card_hint : option string;
}.

Record TopicPath : Type := {
  theme : string;
  subtheme : option string;
  subsubtheme : option string;
}.

Record Deck : Type := {
  deck_id : string;
  title : string;
  topic : TopicPath;
  visibility : Visibility;
  tags : option (list string);
  deck_createdAt : ISODate;
  deck_updatedAt : ISODate;
  cards : list Card;
}.

Inductive TransactionType : Type := EARN | SPEND.

(** [amount] is a whole number of ZAPPs. *)
Record Transaction : Type := {
  trx_id : string;
  ts : ISODate;
  trx_type : TransactionType;
  amount : Z;
  reason : option string;
  ref : option string;
}.

Record Wallet : Type := {
  balance : Z;
  transactions : list Transaction;
}.

(** [others] holds [profile], [prefs], [progress], [friends], [stats]
    and [auth], which the functions below only carry from a read to a
    write. *)
Record UserFile : Type := {
  user_id : string;
  user_username : string;
  user_createdAt : ISODate;
  updatedAt : ISODate;
  wallet : Wallet;
  decks : list Deck;
  others : value;
}.

(** The directory [data/users]: its files [<name>.json], in the order
    in which [readdir] lists them, each with the object its text parses
    to, or [None] when [JSON.parse] fails.  A user object is written as
    it was read, up to the fields set in between, so that parsing what
    [JSON.stringify] wrote gives the object back. *)
Definition UsersDir : Type := list (string * option UserFile).

Fixpoint readFile (d : UsersDir) (name : string) : option (option UserFile) :=
  match d with
  | [] => None
  | (name', content) :: rest =>
      if String.eqb name' name then Some content else readFile rest name
  end.

(** [writeJSONAtomic(userFilePath(name), u)]: the file is replaced, or
    created. *)
Fixpoint writeFile (d : UsersDir) (name : string) (u : UserFile) : UsersDir :=
  match d with
  | [] => [(name, Some u)]
  | (name', content) :: rest =>
      if String.eqb name' name then (name', Some u) :: rest
      else (name', content) :: writeFile rest name u
  end.

(** [null] when the file is missing or does not parse. *)
Definition loadUser (d : UsersDir) (userId : string) : option UserFile :=
  match readFile d userId with
  | Some (Some u) => Some u
  | _ => None
  end.

Definition with_updatedAt (u : UserFile) (now : ISODate) : UserFile :=
  {| user_id := user_id u; user_username := user_username u;
     user_createdAt := user_createdAt u; updatedAt := now;
     wallet := wallet u; decks := decks u; others := others u |}.

(** [user.updatedAt = nowISO(); await writeJSONAtomic(userFilePath(user.id), user)] *)
Definition saveUser (now : ISODate) (user : UserFile) (d : UsersDir) : UsersDir :=
  writeFile d (user_id user) (with_updatedAt user now).

Definition listUserIds (d : UsersDir) : list string := d.*1.

(** [trx.type === "EARN" ? trx.amount : -trx.amount] *)
Definition signed_amount (trx : Transaction) : Z :=
  match trx_type trx with
  | EARN => amount trx
  | SPEND => - amount trx
  end.

Definition with_transaction (u : UserFile) (trx : Transaction) (now : ISODate) : UserFile :=
  {| user_id := user_id u; user_username := user_username u;
     user_createdAt := user_createdAt u; updatedAt := now;
     wallet := {| balance := balance (wallet u) + signed_amount trx;
                  transactions := transactions (wallet u) ++ [trx] |};
     decks := decks u; others := others u |}.

(** [None] stands for the throw of USER_NOT_FOUND.  [now] is the clock
    read by [appendTransaction] itself and [now'] the one read by its
    [saveUser]. *)
Definition appendTransaction (now now' : ISODate) (userId : string) (trx : Transaction)
    (d : UsersDir) : option UsersDir :=
  match loadUser d userId with
  | None => None
  | Some user => Some (saveUser now' (with_transaction user trx now) d)
  end.

(** Every readable file is named after the user it holds, as
    [saveUser] names the files it writes. *)
Definition consistent (d : UsersDir) : Prop :=
  ∀ name u, loadUser d name = Some u → user_id u = name.

End Store.

(** ** Drawing the questions *)

(** [[a[i], a[j]] = [a[j], a[i]]] for two indices of the array. *)
Definition swap {A : Type} (a : list A) (i j : nat) : list A :=
  match a !! i, a !! j with
  | Some x, Some y => <[j := x]> (<[i := y]> a)
  | _, _ => a
  end.

(** The loop of [pick], from index [i] down to 1; [draw i] is the value
    of [(Math.random() * (i + 1)) | 0] in the round of index [i], an
    index between [0] and [i]. *)
Fixpoint shuffle_from {A : Type} (draw : nat → nat) (i : nat) (a : list A) : list A :=
  match i with
  | O => a
  | S i' => shuffle_from draw i' (swap a i (draw i))
  end.

(** [a.slice(0, n)] for an integer [n]: a negative [n] counts from the
    end. *)
Definition slice_to {A : Type} (a : list A) (n : Z) : list A :=
  if n <? 0 then take (Z.to_nat (Z.max (Z.of_nat (length a) + n) 0)) a
  else take (Z.to_nat n) a.

Definition pick {A : Type} (draw : nat → nat) (arr : list A) (n : Z) : list A :=
  slice_to (shuffle_from draw (length arr - 1) arr) n.

(** The loop of [findDeckAnywhere] over the identifiers still to
    visit. *)
Fixpoint find_deck_among (d : Store.UsersDir) (userIds : list string) (deckId : string)
  : option (Store.Deck * Store.UserFile) :=
  match userIds with
  | [] => None
  | uid :: rest =>
      match Store.loadUser d uid with
      | None => find_deck_among d rest deckId
      | Some u =>
          match List.find (λ x, String.eqb (Store.deck_id x) deckId) (Store.decks u) with
          | Some dk => Some (dk, u)
          | None => find_deck_among d rest deckId
          end
      end
  end.

Definition findDeckAnywhere (d : Store.UsersDir) (deckId : string)
  : option (Store.Deck * Store.UserFile) :=
  find_deck_among d (Store.listUserIds d) deckId.

Definition ELIGIBLE_TYPES_has (t : Store.CardType) : bool :=
  match t with
  | Store.TRUE_FALSE | Store.MCQ_SINGLE | Store.MCQ_MULTI => true
  | _ => false
  end.

(** [c.type as QuestionSnapshot["type"]], on the types [createLobby]
    lets through. *)
Definition as_question_type (t : Store.CardType) : option QuestionType :=
  match t with
  | Store.TRUE_FALSE => Some TRUE_FALSE
  | Store.MCQ_SINGLE => Some MCQ_SINGLE
  | Store.MCQ_MULTI => Some MCQ_MULTI
  | _ => None
  end.

(** The snapshot [createLobby] takes of a card. *)
Definition snapshot_of (c : Store.Card) : option QuestionSnapshot :=
  match as_question_type (Store.card_type c) with
  | Some t =>
      Some {| snap_id := Store.card_id c; snap_type := t;
              prompt_md := Store.card_prompt_md c; data_json := Store.card_data_json c;
              time_limit_sec := Store.card_time_limit_sec c; hint := Store.card_hint c |}
  | None => None
  end.

(** ** The prize loop of [finish] on the store *)

(** What one round of the loop reads from [nanoid] and from the clock:
    the transaction's [id] and [ts], the two clock readings of
    [appendTransaction] and the one of the [saveUser] that follows. *)
Record Stamps : Type := {
  stamp_id : string;
  stamp_ts : ISODate;
  stamp_append : ISODate;
  stamp_append_save : ISODate;
  stamp_save : ISODate;
}.

(** One round of the loop for the award [a]; [false] when
    [appendTransaction] throws, which ends [finish] there. *)
Definition pay_award (lobbyId : string) (a : ScoreRow * Z) (st : Stamps) (d : Store.UsersDir)
  : bool * Store.UsersDir :=
  match Store.loadUser d (row_userId a.1) with
  | None => (true, d)
  | Some u =>
      let trx := {| Store.trx_id := stamp_id st; Store.ts := stamp_ts st;
                    Store.trx_type := Store.EARN; Store.amount := a.2;
                    Store.reason := Some "battle_prize"; Store.ref := Some lobbyId |} in
      match Store.appendTransaction (stamp_append st) (stamp_append_save st)
              (Store.user_id u) trx d with
      | None => (false, d)
      | Some d1 => (true, Store.saveUser (stamp_save st) u d1)
      end
  end.

Fixpoint pay_awards (lobbyId : string) (awards : list (ScoreRow * Z)) (stamps : nat → Stamps)
    (k : nat) (d : Store.UsersDir) : bool * Store.UsersDir :=
  match awards with
  | [] => (true, d)
  | a :: rest =>
      match pay_award lobbyId a (stamps k) d with
      | (true, d1) => pay_awards lobbyId rest stamps (S k) d1
      | (false, d1) => (false, d1)
      end
  end.

(** ** Solo grading ([routes/solo.ts]) *)

Module Solo.

(** The grading of the solo mode, on the card of the deck that has the
    identifier [cardId]. *)
Definition gradeAnswer (deck : Store.Deck) (cardId : string) (payload : value)
  : completion bool :=
  match List.find (λ c, String.eqb (Store.card_id c) cardId) (Store.cards deck) with
  | None => Return false
  | Some card =>
      let t := Store.card_type card in
      let data := nullish_or (Store.card_data_json card) (VObj []) in
      match t with
      | Store.TRUE_FALSE =>
          Return (Bool.eqb (Boolean (opt_get payload "answer"))
                    (Boolean (opt_get data "correct")))
      | Store.MCQ_SINGLE =>
          let options := array_or_empty (opt_get data "options") in
          let correctIndex := findIndex (λ o, is_true (opt_get o "correct")) options in
          match Number (opt_get payload "index") with
          | Throw e => Throw e
          | Return n => Return (num_strict_eq n (num_of_Z correctIndex))
          end
      | Store.MCQ_MULTI =>
          let options := array_or_empty (opt_get data "options") in
          let correct :=
            Set_of (map num_of_Z
                      (filter (λ i, 0 ≤ i)
                         (mapi (λ o i, if Boolean (opt_get o "correct") then i else -1)
                            options))) in
          match
            (if isArray (opt_get payload "indices")
             then map_Number (array_or_empty (opt_get payload "indices"))
             else Return [])
          with
          | Throw e => Throw e
          | Return indices =>
              let ans := Set_of indices in
              if negb (length ans =? length correct)%nat then Return false
              else Return (forallb (Set_has correct) ans)
          end
      | _ => Return false
      end
  end.

End Solo.

(** ** The [BattleHub] methods *)

Module BattleHub.

Definition requireLobby (lobbyId : string) : M Lobby :=
  h ← get_hub;
  match lobbies h !! lobbyId with
  | Some l => mret l
  | None => throw LOBBY_NOT_FOUND
  end.

Definition getLobby (h : Hub) (lobbyId : string) : option Lobby :=
  lobbies h !! lobbyId.

(** [attachIO(io) { this.io = io; }] *)
Definition attachIO (h : Hub) : Hub :=
  {| io := true; lobbies := lobbies h; pinIndex := pinIndex h |}.

(** The lobby literal at the end of [createLobby], for the deck that
    was found, the snapshots that were drawn and the identifier and
    PIN that were generated. *)
Definition new_lobby (lobbyId host deck title : string) (mode : AccessMode)
    (pin_ : option string) (created : ISODate) (shots : list QuestionSnapshot) : Lobby :=
  {| lobby_id := lobbyId; hostId := host; deckId := deck; deckTitle := title;
     access := mode; pin := pin_; createdAt := created;
     startedAt := None; finishedAt := None;
     players := ∅; order := []; snapshots := shots;
     qIndex := -1; qShownAt := None |}.

(** [this.lobbies.set(lobbyId, lobby); if (pin) this.pinIndex.set(pin, lobbyId)] *)
Definition register (l : Lobby) (h : Hub) : Hub :=
  {| io := io h;
     lobbies := <[lobby_id l := l]> (lobbies h);
     pinIndex :=
       match pin l with
       | Some p => if String.eqb p "" then pinIndex h else <[p := lobby_id l]> (pinIndex h)
       | None => pinIndex h
       end |}.

(** Truthiness of an optional string. *)
Definition given (o : option string) : bool :=
  match o with
  | Some s => negb (String.eqb s "")
  | None => false
  end.

(** The errors of [createLobby]. *)
Inductive create_error : Type := DECK_NOT_FOUND | DECK_PRIVATE | NO_ELIGIBLE_CARDS.

(** [createLobby] reads the store [d] and takes from its environment
    the draws of [pick], the identifier [lobbyId] that [nanoid(8)]
    returns, the number [pinNumber] that
    [Math.floor(100000 + Math.random() * 900000)] evaluates to and the
    clock reading [created]; [count] is an integer.  It throws before
    it touches the hub. *)
Definition createLobby (d : Store.UsersDir) (host deck : string) (count : Z)
    (mode : AccessMode) (draw : nat → nat) (lobbyId : string) (pinNumber : Z)
    (created : ISODate) (h : Hub) : create_error + Lobby * Hub :=
  match findDeckAnywhere d deck with
  | None => inl DECK_NOT_FOUND
  | Some (dk, owner) =>
      if negb (Store.is_public (Store.visibility dk))
         && negb (String.eqb (Store.user_id owner) host)
      then inl DECK_PRIVATE
      else
        let eligibles := List.filter (λ c, ELIGIBLE_TYPES_has (Store.card_type c))
                           (Store.cards dk) in
        if (length eligibles =? 0)%nat then inl NO_ELIGIBLE_CARDS
        else
          let shots :=
            omap snapshot_of
              (pick draw eligibles (Z.min count (Z.of_nat (length eligibles)))) in
          let pin_ := match mode with
                      | PRIVATE => Some (pretty pinNumber)
                      | PUBLIC => None
                      end in
          let lobby := new_lobby lobbyId host (Store.deck_id dk) (Store.title dk)
                         mode pin_ created shots in
          inr (lobby, register lobby h)
  end.

Definition join (lobbyId pin_ : option string) (user name : string) : M Lobby :=
  h ← get_hub;
  let id := if negb (given lobbyId) && given pin_
            then pinIndex h !! default "" pin_
            else lobbyId in
  if negb (given id) then throw LOBBY_NOT_FOUND
  else
    let key := default "" id in
    match lobbies h !! key with
    | None => throw LOBBY_NOT_FOUND
    | Some lobby =>
        if bool_decide (is_Some (finishedAt lobby)) then throw LOBBY_FINISHED
        else
          let lobby' :=
            match players lobby !! user with
            | Some _ => lobby
            | None =>
                with_players lobby
                  (<[user := {| userId := user; username := name; score := 0; answers := ∅ |}]>
                     (players lobby))
                  (order lobby ++ [user])
            end in
          store_lobby key lobby';;
          emit (match publicLobby lobby' with
                | Return body => Return (lobby_update (lobby_id lobby') body)
                | Throw e => Throw e
                end);;
          mret lobby'
    end.

Definition emitQuestion (lobby : Lobby) : M unit :=
  let q := snapshot_at lobby (qIndex lobby) in
  emit (match q with
        | Some q => Return (lobby_question (lobby_id lobby) (question_message lobby q))
        | None => Throw TypeError
        end).

Definition start (lobbyId : string) (nowISO : ISODate) (nowMs : Z) : M unit :=
  lobby ← requireLobby lobbyId;
  if bool_decide (is_Some (startedAt lobby)) then throw ALREADY_STARTED
  else
    let lobby' := with_started lobby nowISO nowMs in
    store_lobby lobbyId lobby';;
    emitQuestion lobby'.

(** [finish] is asynchronous; its body runs synchronously down to the
    first [await] inside the prize loop, by which point [finishedAt]
    is set and the ranking and the awards are computed.  The loop and
    the final message are run here in one step. *)
Definition finish (lobbyId : string) (nowISO : ISODate) : M unit :=
  lobby ← requireLobby lobbyId;
  if bool_decide (is_Some (finishedAt lobby)) then mret tt
  else
    let lobby' := with_finishedAt lobby nowISO in
    store_lobby lobbyId lobby';;
    rows ← lift (score_rows lobby');
    let ranking := sort by_score_desc rows in
    post (map (λ a, battle_prize (row_userId a.1) a.2 (lobby_id lobby')) (awards ranking));;
    emit (Return (lobby_finished (lobby_id lobby') (lobby_id lobby') ranking)).

Definition next (lobbyId : string) (nowMs : Z) (nowISO : ISODate) : M unit :=
  lobby ← requireLobby lobbyId;
  if negb (bool_decide (is_Some (startedAt lobby))) then throw NOT_STARTED
  else
    let lobby1 := with_qIndex lobby (qIndex lobby + 1) in
    store_lobby lobbyId lobby1;;
    if total lobby1 <=? qIndex lobby1 then detached (finish lobbyId nowISO)
    else
      let lobby2 := with_qShownAt lobby1 nowMs in
      store_lobby lobbyId lobby2;;
      emitQuestion lobby2.

(** The object [{ correct, delta, elapsed }] returned by
    [submitAnswer]. *)
Record Submission : Type := {
  correct : bool;
  delta : Z;
  elapsed : Z;
}.

(** [nowMs] is the clock read first; [nowMs'] is the second reading,
    taken only when [qShownAt] is undefined. *)
Definition submitAnswer (lobbyId user : string) (payload : value) (nowMs nowMs' : Z)
  : M Submission :=
  lobby ← requireLobby lobbyId;
  if (qIndex lobby <? 0) || (total lobby <=? qIndex lobby) then throw NO_ACTIVE_QUESTION
  else
    match snapshot_at lobby (qIndex lobby) with
    | None => throw TypeError
    | Some q =>
        let elapsed_ := Z.max 0 (nowMs - default nowMs' (qShownAt lobby)) in
        correct_ ← lift (gradeAnswer q payload);
        let delta_ := score_delta correct_ elapsed_ in
        match players lobby !! user with
        | None => throw PLAYER_NOT_IN_LOBBY
        | Some player =>
            let key := answer_key q (qIndex lobby) in
            let lobby' :=
              match answers player !! key with
              | Some _ => lobby
              | None =>
                  with_players lobby
                    (<[user := record_answer player key
                                 {| ans_correct := correct_; ans_ms := elapsed_ |} delta_]>
                       (players lobby))
                    (order lobby)
              end in
            store_lobby lobbyId lobby';;
            emit (match score_rows lobby' with
                  | Return rows => Return (lobby_scores (lobby_id lobby') (lobby_id lobby') rows)
                  | Throw e => Throw e
                  end);;
            mret {| correct := correct_; delta := delta_; elapsed := elapsed_ |}
        end
    end.

(** [lobbies.map(l => this.publicLobby(l))] *)
Fixpoint publicLobbies (ls : list Lobby) : completion (list PublicLobby) :=
  match ls with
  | [] => Return []
  | l :: rest =>
      match publicLobby l with
      | Throw e => Throw e
      | Return p =>
          match publicLobbies rest with
          | Throw e => Throw e
          | Return ps => Return (p :: ps)
          end
      end
  end.

(** [Array.from(this.lobbies.values())] lists the lobbies in the order
    in which they were created, which the finite map does not keep:
    the list below has the right elements, in the order of the map's
    own enumeration. *)
Definition listPublic (h : Hub) : completion (list PublicLobby) :=
  publicLobbies
    (List.filter (λ l, match access l with PUBLIC => true | PRIVATE => false end
                       && negb (bool_decide (is_Some (finishedAt l))))
       (map_to_list (lobbies h)).*2).

End BattleHub.

(** ** The HTTP routes ([routes/battles.ts]) *)

Module Routes.

(** The object literal of [pub]: the one of [publicLobby], with
    [finishedAt]. *)
Record PubLobby : Type := {
  r_id : string;
  r_deckId : string;
  r_deckTitle : string;
  r_access : AccessMode;
  r_createdAt : ISODate;
  r_startedAt : option ISODate;
  r_players : list ScoreRow;
  r_qIndex : Z;
  r_total : Z;
  r_finishedAt : option ISODate;
}.

Definition pub (l : Lobby) : completion PubLobby :=
  match score_rows l with
  | Throw e => Throw e
  | Return rows =>
      Return {| r_id := lobby_id l; r_deckId := deckId l; r_deckTitle := deckTitle l;
                r_access := access l; r_createdAt := createdAt l;
                r_startedAt := startedAt l; r_players := rows;
                r_qIndex := qIndex l; r_total := total l;
                r_finishedAt := finishedAt l |}
  end.

(** The [error] of a failure reply; [Message e] is
    [String(e?.message || e)] for what the hub threw, which for
    LOBBY_NOT_FOUND is also the text the handlers send themselves. *)
Inductive failure : Type :=
| INVALID_BODY
| ONLY_HOST_CAN_START
| ONLY_HOST_CAN_NEXT
| ONLY_HOST_CAN_FINISH
| NOT_IN_LOBBY
| Message (e : error).

(** What a handler sends: [res.status(status).json({ error })], or with
    status 200 one of [{ lobby }], [{ lobby, current }],
    [{ lobby, finished: true }] and
    [{ correct, delta, elapsed, score }]. *)
Inductive reply : Type :=
| Failed (status : Z) (error : failure)
| Joined (lobby : PubLobby)
| Current (lobby : PubLobby) (current : option QuestionPayload)
| Finished (lobby : PubLobby)
| Graded (correct : bool) (delta elapsed score : Z).

Definition handler : Type := Hub → reply * Hub * list event.

(** The [map[msg] ?? 500] of each handler. *)
Definition join_status (e : error) : Z :=
  match e with
  | LOBBY_NOT_FOUND => 404
  | LOBBY_FINISHED => 409
  | _ => 500
  end.

Definition start_status (e : error) : Z :=
  match e with
  | ALREADY_STARTED => 409
  | LOBBY_NOT_FOUND => 404
  | _ => 500
  end.

Definition next_status (e : error) : Z :=
  match e with
  | NOT_STARTED => 409
  | LOBBY_NOT_FOUND => 404
  | _ => 500
  end.

Definition answer_status (e : error) : Z :=
  match e with
  | LOBBY_NOT_FOUND => 404
  | NO_ACTIVE_QUESTION => 409
  | PLAYER_NOT_IN_LOBBY => 403
  | _ => 500
  end.

Definition finish_status (e : error) : Z :=
  match e with
  | LOBBY_NOT_FOUND => 404
  | _ => 500
  end.

(** [try { ... } catch (e) { return res.status(map[msg] ?? 500).json({ error: msg }) }] *)
Definition catching (status : error → Z) (m : M reply) : handler := λ h,
  match m h with
  | (Return r, h', out) => (r, h', out)
  | (Throw e, h', out) => (Failed (status e) (Message e), h', out)
  end.

Definition invalid_body : handler := λ h, (Failed 400 INVALID_BODY, h, []).

(** [after = battleHub.getLobby(lobbyId)!]: reading a field of [null]
    is a TypeError. *)
Definition lobby_after (lobbyId : string) : M Lobby :=
  h ← get_hub;
  match BattleHub.getLobby h lobbyId with
  | Some after => mret after
  | None => throw TypeError
  end.

(** The handlers take the authenticated user ([caller], and [name] for
    its username) and the fields of a body that has the types its
    schema asks for; the schemas of [lobbyId] other than the one of
    [/join] refuse the empty string. *)

(** POST /battles/join *)
Definition post_join (caller name : string) (lobbyId pin_ : option string) : handler :=
  catching join_status
    (lobby ← BattleHub.join lobbyId pin_ caller (if String.eqb name "" then "user" else name);
     body ← lift (pub lobby);
     mret (Joined body)).

(** POST /battles/start *)
Definition post_start (caller lobbyId : string) (nowISO : ISODate) (nowMs : Z) : handler :=
  if String.eqb lobbyId "" then invalid_body
  else
    catching start_status
      (h ← get_hub;
       match BattleHub.getLobby h lobbyId with
       | None => mret (Failed 404 (Message LOBBY_NOT_FOUND))
       | Some lob =>
           if negb (String.eqb (hostId lob) caller) then mret (Failed 403 ONLY_HOST_CAN_START)
           else
             BattleHub.start lobbyId nowISO nowMs;;
             after ← lobby_after lobbyId;
             body ← lift (pub after);
             mret (Current body (questionPayload after))
       end).

(** POST /battles/next *)
Definition post_next (caller lobbyId : string) (nowMs : Z) (nowISO : ISODate) : handler :=
  if String.eqb lobbyId "" then invalid_body
  else
    catching next_status
      (h ← get_hub;
       match BattleHub.getLobby h lobbyId with
       | None => mret (Failed 404 (Message LOBBY_NOT_FOUND))
       | Some lob =>
           if negb (String.eqb (hostId lob) caller) then mret (Failed 403 ONLY_HOST_CAN_NEXT)
           else
             BattleHub.next lobbyId nowMs nowISO;;
             after ← lobby_after lobbyId;
             body ← lift (pub after);
             if bool_decide (is_Some (finishedAt after)) then mret (Finished body)
             else mret (Current body (questionPayload after))
       end).

(** POST /battles/answer; [lob.players[uid]] is read again after
    [submitAnswer], from the lobby object the hub holds. *)
Definition post_answer (caller lobbyId : string) (payload : value) (nowMs nowMs' : Z)
  : handler :=
  if String.eqb lobbyId "" then invalid_body
  else
    catching answer_status
      (h ← get_hub;
       match BattleHub.getLobby h lobbyId with
       | None => mret (Failed 404 (Message LOBBY_NOT_FOUND))
       | Some lob =>
           match players lob !! caller with
           | None => mret (Failed 403 NOT_IN_LOBBY)
           | Some _ =>
               r ← BattleHub.submitAnswer lobbyId caller payload nowMs nowMs';
               after ← lobby_after lobbyId;
               match players after !! caller with
               | Some player =>
                   mret (Graded (BattleHub.correct r) (BattleHub.delta r)
                           (BattleHub.elapsed r) (score player))
               | None => throw TypeError
               end
           end
       end).

(** POST /battles/finish *)
Definition post_finish (caller lobbyId : string) (nowISO : ISODate) : handler :=
  if String.eqb lobbyId "" then invalid_body
  else
    catching finish_status
      (h ← get_hub;
       match BattleHub.getLobby h lobbyId with
       | None => mret (Failed 404 (Message LOBBY_NOT_FOUND))
       | Some lob =>
           if negb (String.eqb (hostId lob) caller) then mret (Failed 403 ONLY_HOST_CAN_FINISH)
           else
             BattleHub.finish lobbyId nowISO;;
             after ← lobby_after lobbyId;
             body ← lift (pub after);
             mret (Finished body)
       end).

Inductive request : Type :=
| PostJoin (caller name : string) (lobbyId pin_ : option string)
| PostStart (caller lobbyId : string) (nowISO : ISODate) (nowMs : Z)
| PostNext (caller lobbyId : string) (nowMs : Z) (nowISO : ISODate)
| PostAnswer (caller lobbyId : string) (payload : value) (nowMs nowMs' : Z)
| PostFinish (caller lobbyId : string) (nowISO : ISODate).

Definition serve (r : request) : handler :=
  match r with
  | PostJoin caller name lobbyId pin_ => post_join caller name lobbyId pin_
  | PostStart caller lobbyId nowISO nowMs => post_start caller lobbyId nowISO nowMs
  | PostNext caller lobbyId nowMs nowISO => post_next caller lobbyId nowMs nowISO
  | PostAnswer caller lobbyId payload nowMs nowMs' =>
      post_answer caller lobbyId payload nowMs nowMs'
  | PostFinish caller lobbyId nowISO => post_finish caller lobbyId nowISO
  end.

End Routes.


(** ** Vocabulary of the statements *)

(** The option list [gradeAnswer] reads from a snapshot. *)
Definition options_of (snapshot : QuestionSnapshot) : list value :=
  array_or_empty (opt_get (nullish_or (data_json snapshot) (VObj [])) "options").

(** The answer key of a true/false snapshot. *)
Definition key_of (snapshot : QuestionSnapshot) : value :=
  opt_get (nullish_or (data_json snapshot) (VObj [])) "correct".

(** An option is flagged for single choice when [correct === true], and
    for multiple choice when [correct] is truthy. *)
Definition flagged (o : value) : bool := is_true (opt_get o "correct").

Definition flagged_multi (o : value) : bool := Boolean (opt_get o "correct").

(** [Number(v) === k] for an integer [k]. *)
Definition coerces_to (v : value) (k : Z) : Prop :=
  ∃ n, Number v = Return n ∧ num_strict_eq n (num_of_Z k) = true.

(** No conversion of the payload's [index], or of an element of its
    [indices], meets an object with an own [toString] property. *)
Definition convertible (payload : value) : bool :=
  negb (join_throws (opt_get payload "index"))
  && forallb (λ v, negb (join_throws v)) (array_or_empty (opt_get payload "indices")).

(** ** Sessions over time *)

(** The calls that reach a hub from outside. *)
Inductive call : Type :=
| AttachIO
| CreateLobby (lobbyId host deck title : string) (mode : AccessMode) (pin_ : option string)
    (created : ISODate) (shots : list QuestionSnapshot)
| Join (lobbyId pin_ : option string) (user name : string)
| Start (lobbyId : string) (nowISO : ISODate) (nowMs : Z)
| Next (lobbyId : string) (nowMs : Z) (nowISO : ISODate)
| SubmitAnswer (lobbyId user : string) (payload : value) (nowMs nowMs' : Z)
| Finish (lobbyId : string) (nowISO : ISODate).

(** The hub after a call, whether the call returned or threw. *)
Definition run (c : call) (h : Hub) : Hub :=
  match c with
  | AttachIO => BattleHub.attachIO h
  | CreateLobby lobbyId host deck title mode pin_ created shots =>
      BattleHub.register (BattleHub.new_lobby lobbyId host deck title mode pin_ created shots) h
  | Join lobbyId pin_ user name => (BattleHub.join lobbyId pin_ user name h).1.2
  | Start lobbyId nowISO nowMs => (BattleHub.start lobbyId nowISO nowMs h).1.2
  | Next lobbyId nowMs nowISO => (BattleHub.next lobbyId nowMs nowISO h).1.2
  | SubmitAnswer lobbyId user payload nowMs nowMs' =>
      (BattleHub.submitAnswer lobbyId user payload nowMs nowMs' h).1.2
  | Finish lobbyId nowISO => (BattleHub.finish lobbyId nowISO h).1.2
  end.

Definition run_all (cs : list call) (h : Hub) : Hub := fold_left (λ h c, run c h) cs h.

(** [export const battleHub = new BattleHub()] *)
Definition battleHub : Hub := {| io := false; lobbies := ∅; pinIndex := ∅ |}.

Definition reachable (h : Hub) : Prop := ∃ cs, h = run_all cs battleHub.

(** A call that leaves the lobby stored under its identifier in
    place. *)
Definition keeps_lobby (c : call) : bool :=
  match c with
  | CreateLobby _ _ _ _ _ _ _ _ => false
  | _ => true
  end.

(** What every lobby of a reachable hub satisfies. *)
Record lobby_wf (l : Lobby) : Prop := {
  wf_nodup : NoDup (order l);
  wf_roster : ∀ uid, uid ∈ order l ↔ is_Some (players l !! uid);
  wf_index : match startedAt l with Some _ => 0 ≤ qIndex l | None => qIndex l = -1 end;
}.

Definition hub_wf (h : Hub) : Prop :=
  ∀ lobbyId l, lobbies h !! lobbyId = Some l → lobby_wf l.

(** [x] comes before [y] in [l]. *)
Definition precedes {A : Type} (x y : A) (l : list A) : Prop :=
  ∃ l1 l2 l3, l = l1 ++ x :: l2 ++ y :: l3.

(** The points awarded on top of the base for a given [speedBonus]. *)
Definition bonus_points (sb : Z) : Z :=
  Math_round (fl_finite (50 * fl_finite (inject_Z sb / 5000))).

(** [f i <= f (i+1) <= ... <= f (i+n)], given [prev = f i]. *)
Fixpoint nondecreasing_run (f : Z → Z) (n : nat) (i : Z) (prev : Z) : bool :=
  match n with
  | O => true
  | S k => let v := f (i + 1) in (prev <=? v) && nondecreasing_run f k (i + 1) v
  end.

(** Replaying submissions of one player. *)
Fixpoint resubmit (lobbyId user : string) (again : list (value * Z * Z)) (h : Hub) : Hub :=
  match again with
  | [] => h
  | (payload, nowMs, nowMs') :: rest =>
      resubmit lobbyId user rest
        (BattleHub.submitAnswer lobbyId user payload nowMs nowMs' h).1.2
  end.

(** The lobby [submitAnswer] leaves behind: unchanged when the player
    already has an entry under the key, otherwise with the entry added
    and the delta credited. *)
Definition answered (l : Lobby) (user : string) (p : PlayerState) (q : QuestionSnapshot)
    (s : BattleHub.Submission) : Lobby :=
  match answers p !! answer_key q (qIndex l) with
  | Some _ => l
  | None =>
      with_players l
        (<[user := record_answer p (answer_key q (qIndex l))
                     {| ans_correct := BattleHub.correct s; ans_ms := BattleHub.elapsed s |}
                     (BattleHub.delta s)]> (players l))
        (order l)
  end.

(** The hub with the lobby object under [key] replaced. *)
Definition put (key : string) (l : Lobby) (h : Hub) : Hub :=
  {| io := io h; lobbies := <[key := l]> (lobbies h); pinIndex := pinIndex h |}.

(** The mutations the methods apply to a lobby object. *)
Inductive lobby_step : Lobby → Lobby → Prop :=
| step_join l user name :
    players l !! user = None →
    lobby_step l
      (with_players l
         (<[user := {| userId := user; username := name; score := 0; answers := ∅ |}]>
            (players l))
         (order l ++ [user]))
| step_start l nowISO nowMs :
    startedAt l = None → lobby_step l (with_started l nowISO nowMs)
| step_advance l :
    is_Some (startedAt l) → lobby_step l (with_qIndex l (qIndex l + 1))
| step_reveal l nowMs :
    lobby_step l (with_qShownAt l nowMs)
| step_finish l nowISO :
    finishedAt l = None → lobby_step l (with_finishedAt l nowISO)
| step_answer l user p key rec delta :
    players l !! user = Some p → answers p !! key = None →
    lobby_step l
      (with_players l (<[user := record_answer p key rec delta]> (players l)) (order l)).

(** The player has an entry under [key] in his or her [answers]. *)
Definition has_answer (l : Lobby) (user key : string) : Prop :=
  ∃ p rec, players l !! user = Some p ∧ answers p !! key = Some rec.

(** The scoreboard row of a user of the lobby. *)
Definition row_of (l : Lobby) (uid : string) : ScoreRow :=
  {| row_userId := uid;
     row_username := default "" (username <$> players l !! uid);
     row_score := default 0 (score <$> players l !! uid) |}.

(** Scores do not increase along the list. *)
Definition descending : list ScoreRow → Prop :=
  StronglySorted (λ a b, row_score b ≤ row_score a).

(** ** Sample data *)

Module Sample.

Definition num (z : Z) : value := VNum (num_of_Z z).

Definition choice (text : string) (flag : value) : value :=
  VObj [("text", VStr text); ("correct", flag)].

Definition true_false (id : string) (key : bool) : QuestionSnapshot :=
  {| snap_id := id; snap_type := TRUE_FALSE; prompt_md := "The sky is blue.";
     data_json := VObj [("correct", VBool key)];
     time_limit_sec := Some (num_of_Z 20); hint := None |}.

Definition single (id : string) (flags : list value) : QuestionSnapshot :=
  {| snap_id := id; snap_type := MCQ_SINGLE; prompt_md := "Pick one.";
     data_json := VObj [("options", VArr (map (choice "option") flags))];
     time_limit_sec := None; hint := Some "think" |}.

Definition multi (id : string) (flags : list value) : QuestionSnapshot :=
  {| snap_id := id; snap_type := MCQ_MULTI; prompt_md := "Pick all.";
     data_json := VObj [("options", VArr (map (choice "option") flags))];
     time_limit_sec := None; hint := None |}.

(** A hub with a socket server and one public lobby. *)
Definition hub_with (shots : list QuestionSnapshot) : Hub :=
  BattleHub.register
    (BattleHub.new_lobby "L1" "ana" "deck1" "Capitals" PUBLIC None (ISO 1000) shots)
    {| io := true; lobbies := ∅; pinIndex := ∅ |}.

(** The hub a call leaves behind. *)
Definition after {A : Type} (m : M A) (h : Hub) : Hub := (m h).1.2.

Definition result {A : Type} (m : M A) (h : Hub) : completion A := (m h).1.1.

Definition emitted {A : Type} (m : M A) (h : Hub) : list event := (m h).2.

(** Ana and Rui join a two-question lobby and Ana starts it at
    [t = 5000]. *)
Definition two_questions : list QuestionSnapshot :=
  [true_false "c1" true; single "c2" [VBool false; VBool true]].

Definition started : Hub :=
  after (BattleHub.start "L1" (ISO 5000) 5000)
    (after (BattleHub.join (Some "L1") None "rui" "Rui")
       (after (BattleHub.join (Some "L1") None "ana" "Ana") (hub_with two_questions))).

(** The calls that build [started]. *)
Definition opening : list call :=
  [AttachIO;
   CreateLobby "L1" "ana" "deck1" "Capitals" PUBLIC None (ISO 1000) two_questions;
   Join (Some "L1") None "ana" "Ana";
   Join (Some "L1") None "rui" "Rui";
   Start "L1" (ISO 5000) 5000].

(** Eva joins late and is the only one to answer the first question. *)
Definition eva_leads : list call :=
  opening ++
  [Join (Some "L1") None "eva" "Eva";
   SubmitAnswer "L1" "eva" (VObj [("answer", VBool true)]) 6200 0].

(** Rui answers the first question wrongly, one second after it was
    shown. *)
Definition rui_wrong : list call :=
  opening ++ [SubmitAnswer "L1" "rui" (VObj [("answer", VBool false)]) 6000 0].

Definition score_in (h : Hub) (lobbyId user : string) : option Z :=
  l ← lobbies h !! lobbyId; p ← players l !! user; Some (score p).

Definition answer_in (h : Hub) (lobbyId user key : string) : option AnswerRecord :=
  l ← lobbies h !! lobbyId; p ← players l !! user; answers p !! key.

Definition qIndex_in (h : Hub) (lobbyId : string) : option Z :=
  l ← lobbies h !! lobbyId; Some (qIndex l).

Definition finished_in (h : Hub) (lobbyId : string) : option ISODate :=
  l ← lobbies h !! lobbyId; finishedAt l.

End Sample.

(** A store with an unreadable file and two users; Ana owns a public
    deck of four cards, one of them of a type the battle does not
    grade, and a private deck. *)
Module SampleStore.

Definition card (id : string) (t : Store.CardType) (data : value) : Store.Card :=
  {| Store.card_id := id; Store.card_type := t; Store.card_prompt_md := "Which one?";
     Store.card_data_json := data; Store.card_time_limit_sec := None;
     Store.card_hint := None |}.

Definition deck (id name : string) (v : Store.Visibility) (cs : list Store.Card)
  : Store.Deck :=
  {| Store.deck_id := id; Store.title := name;
     Store.topic := {| Store.theme := "geography"; Store.subtheme := None;
                       Store.subsubtheme := None |};
     Store.visibility := v; Store.tags := None;
     Store.deck_createdAt := ISO 100; Store.deck_updatedAt := ISO 100;
     Store.cards := cs |}.

Definition user (id name : string) (zapps : Z) (ds : list Store.Deck) : Store.UserFile :=
  {| Store.user_id := id; Store.user_username := name; Store.user_createdAt := ISO 100;
     Store.updatedAt := ISO 100;
     Store.wallet := {| Store.balance := zapps; Store.transactions := [] |};
     Store.decks := ds; Store.others := VObj [] |}.

Definition capitals : Store.Deck :=
  deck "d1" "Capitals" Store.PUBLIC
    [card "k1" Store.TRUE_FALSE (VObj [("correct", VBool true)]);
     card "k2" Store.TEXT (VObj [("answer", VStr "Lisboa")]);
     card "k3" Store.MCQ_SINGLE
       (VObj [("options", VArr [Sample.choice "Lisboa" (VBool true);
                                Sample.choice "Porto" (VBool false)])]);
     card "k4" Store.MCQ_MULTI
       (VObj [("options", VArr [Sample.choice "Faro" (VBool true);
                                Sample.choice "Vigo" (VBool false);
                                Sample.choice "Braga" (VBool true)])])].

Definition rivers : Store.Deck :=
  deck "d2" "Rivers" Store.PRIVATE
    [card "k5" Store.TRUE_FALSE (VObj [("correct", VBool false)])].

Definition ana : Store.UserFile := user "ana" "Ana" 5 [rivers; capitals].

Definition rui : Store.UserFile := user "rui" "Rui" 0 [].

Definition dir : Store.UsersDir := [("broken", None); ("ana", Some ana); ("rui", Some rui)].

Definition stamps (k : nat) : Stamps :=
  {| stamp_id := "trx" +:+ pretty k; stamp_ts := ISO 9000; stamp_append := ISO 9001;
     stamp_append_save := ISO 9002; stamp_save := ISO 9003 |}.

(** The draws [j = i / 2] for [pick]. *)
Definition halves (i : nat) : nat := (i / 2)%nat.


End SampleStore.

(** Unfolding the effects of a call. *)
Ltac unfold_M :=
  unfold mbind, M_bind, mret, M_ret, throw, lift, get_hub, store_lobby, emit, post, detached
    in *.

(** ** Calls with their outcome *)



(** The string has no colon. *)
Fixpoint colon_free (s : string) : bool :=
  match s with
  | EmptyString => true
  | String c rest => negb (Ascii.eqb c ":") && colon_free rest
  end.

(** * Properties *)

(** ** Grading *)

Section Grading.

Implicit Types (snapshot : QuestionSnapshot) (payload v o : value).

Lemma Number_returns v : join_throws v = false → Number v = Return (ToNumber_noexn v).
Proof. unfold Number. by intros ->. Qed.

Lemma Number_throws v : join_throws v = true → Number v = Throw TypeError.
Proof. unfold Number. by intros ->. Qed.

Lemma map_Number_returns (xs : list value) :
  forallb (λ v, negb (join_throws v)) xs = true →
  map_Number xs = Return (map ToNumber_noexn xs).
Proof.
  induction xs as [|x xs IH]; simpl; [done|].
  intros [Hx Hxs]%andb_prop.
  apply negb_true_iff in Hx.
  by rewrite (Number_returns _ Hx), (IH Hxs).
Qed.

Lemma findIndex_from_none (p : value → bool) (i : Z) (l : list value) :
  (∀ o, o ∈ l → p o = false) → findIndex_from p i l = -1.
Proof.
  revert i. induction l as [|x l IH]; intros i Hl; simpl; [done|].
  rewrite (Hl x) by set_solver.
  apply IH. intros o Ho. apply Hl. set_solver.
Qed.

Lemma findIndex_from_first (p : value → bool) (i : Z) (before after : list value) o :
  (∀ x, x ∈ before → p x = false) → p o = true →
  findIndex_from p i (before ++ o :: after) = i + Z.of_nat (length before).
Proof.
  revert i. induction before as [|x before IH]; intros i Hb Ho; simpl.
  - rewrite Ho. lia.
  - rewrite (Hb x) by set_solver.
    rewrite IH; [lia| |done]. intros y Hy. apply Hb. set_solver.
Qed.

(** What single-choice grading computes, for any option list. *)
Lemma grade_single snapshot payload :
  snap_type snapshot = MCQ_SINGLE →
  gradeAnswer snapshot payload = Return true ↔
  coerces_to (opt_get payload "index") (findIndex flagged (options_of snapshot)).
Proof.
  intros Ht. unfold gradeAnswer, coerces_to, options_of, flagged. rewrite Ht.
  destruct (Number (opt_get payload "index")) as [n|e]; split.
  - intros [= H]. by exists n.
  - intros (n' & [= <-] & H). by rewrite H.
  - done.
  - by intros (n' & [=] & _).
Qed.

End Grading.

Section GradingClaims.

Implicit Types (snapshot : QuestionSnapshot) (payload v o : value).

Lemma strict_eq_integers (a b : Z) :
  num_strict_eq (num_of_Z a) (num_of_Z b) = bool_decide (a = b).
Proof.
  unfold num_strict_eq, num_of_Z, Qeq_bool, inject_Z; simpl.
  rewrite !Z.mul_1_r. case_bool_decide as H.
  - subst. apply Z.eqb_refl.
  - by apply Z.eqb_neq.
Qed.

Lemma grade_single_value snapshot payload :
  snap_type snapshot = MCQ_SINGLE →
  gradeAnswer snapshot payload =
    match Number (opt_get payload "index") with
    | Throw e => Throw e
    | Return n => Return (num_strict_eq n (num_of_Z (findIndex flagged (options_of snapshot))))
    end.
Proof. intros Ht. unfold gradeAnswer. by rewrite Ht. Qed.

(** C10. For a single-choice snapshot with no option flagged
    [correct === true], [gradeAnswer] returns [true] exactly when
    [Number(payload?.index) === -1], which the payloads [{index: -1}]
    and [{index: "-1"}] achieve; and when some option is flagged, only
    the position of the first flagged option is accepted, whatever
    further options are flagged after it. *)
Theorem single_choice_degenerate_key snapshot payload :
  snap_type snapshot = MCQ_SINGLE →
  ((∀ o, o ∈ options_of snapshot → flagged o = false) →
     (gradeAnswer snapshot payload = Return true ↔ coerces_to (opt_get payload "index") (-1))
     ∧ gradeAnswer snapshot (VObj [("index", VNum (num_of_Z (-1)))]) = Return true
     ∧ gradeAnswer snapshot (VObj [("index", VStr "-1")]) = Return true)
  ∧ (∀ before first after,
       options_of snapshot = before ++ first :: after →
       (∀ o, o ∈ before → flagged o = false) → flagged first = true →
       (gradeAnswer snapshot payload = Return true ↔
          coerces_to (opt_get payload "index") (Z.of_nat (length before)))
       ∧ ∀ k : Z, gradeAnswer snapshot (VObj [("index", VNum (num_of_Z k))])
                  = Return (bool_decide (k = Z.of_nat (length before)))).
Proof.
  intros Ht. split.
  - intros Hnone.
    assert (Hidx : findIndex flagged (options_of snapshot) = -1)
      by by apply findIndex_from_none.
    split; [|split].
    + rewrite grade_single by done. by rewrite Hidx.
    + apply grade_single; [done|]. rewrite Hidx. by eexists.
    + apply grade_single; [done|]. rewrite Hidx. by eexists.
  - intros before first after Hopts Hbefore Hfirst.
    assert (Hidx : findIndex flagged (options_of snapshot) = Z.of_nat (length before)).
    { rewrite Hopts. unfold findIndex. by rewrite findIndex_from_first. }
    split.
    + rewrite grade_single by done. by rewrite Hidx.
    + intros k. rewrite grade_single_value, Hidx by done.
      change (opt_get (VObj [("index", VNum (num_of_Z k))]) "index") with (VNum (num_of_Z k)).
      change (Number (VNum (num_of_Z k))) with (Return (num_of_Z k)).
      cbv beta iota. by rewrite strict_eq_integers.
Qed.

Lemma single_choice_degenerate_key_witness :
  gradeAnswer (Sample.single "c2" [VBool false; VNull]) (VObj [("index", VStr "-1")])
    = Return true
  ∧ gradeAnswer (Sample.single "c2" [VBool false; VBool true; VBool true])
      (VObj [("index", VNum (num_of_Z 2))]) = Return false.
Proof.
  split.
  - apply (single_choice_degenerate_key
             (Sample.single "c2" [VBool false; VNull]) VUndefined eq_refl).
    intros o Ho. vm_compute in Ho.
    apply elem_of_cons in Ho as [->|Ho]; [reflexivity|].
    apply elem_of_cons in Ho as [->|Ho]; [reflexivity|].
    by apply elem_of_nil in Ho.
  - refine (proj2 (proj2 (single_choice_degenerate_key
             (Sample.single "c2" [VBool false; VBool true; VBool true]) VUndefined eq_refl)
             [Sample.choice "option" (VBool false)] (Sample.choice "option" (VBool true))
             [Sample.choice "option" (VBool true)] eq_refl _ eq_refl) 2).
    intros o Ho. apply elem_of_cons in Ho as [->|Ho]; [reflexivity|].
    by apply elem_of_nil in Ho.
Defined.

(** C3, as the code has it. For a true/false snapshot [gradeAnswer]
    always returns, and returns [true] exactly when the truthiness of
    the submitted [answer] equals the truthiness of the key's
    [correct] (both sides go through [Boolean]); when both are
    booleans this is equality of the booleans. *)
Theorem true_false_compares_truthiness snapshot payload :
  snap_type snapshot = TRUE_FALSE →
  ∃ b, gradeAnswer snapshot payload = Return b
       ∧ (b = true ↔ Boolean (opt_get payload "answer") = Boolean (key_of snapshot))
       ∧ (∀ x y, opt_get payload "answer" = VBool x → key_of snapshot = VBool y →
                 (b = true ↔ x = y)).
Proof.
  intros Ht. unfold gradeAnswer, key_of. rewrite Ht.
  eexists. split; [reflexivity|]. split.
  - split; [apply eqb_prop|intros ->; apply eqb_reflx].
  - intros x y -> ->. simpl. split; [apply eqb_prop|intros ->; apply eqb_reflx].
Qed.

Lemma true_false_compares_truthiness_witness :
  ∃ b, gradeAnswer (Sample.true_false "c1" true) (VObj [("answer", VNum (num_of_Z 7))])
         = Return b
       ∧ (b = true ↔ true = true).
Proof.
  destruct (true_false_compares_truthiness (Sample.true_false "c1" true)
              (VObj [("answer", VNum (num_of_Z 7))]) eq_refl) as (b & Hb & Hiff & _).
  exists b. split; [exact Hb|exact Hiff].
Defined.

(** C3, as stated, fails: the string ["yes"] is graded correct against
    the key [true] although it is no boolean. *)
Lemma true_false_accepts_non_boolean :
  ¬ (gradeAnswer (Sample.true_false "c1" true) (VObj [("answer", VStr "yes")]) = Return true
     ↔ ∃ b, opt_get (VObj [("answer", VStr "yes")]) "answer" = VBool b
            ∧ key_of (Sample.true_false "c1" true) = VBool b).
Proof. intros [H _]. by destruct (H eq_refl) as (b & [=] & _). Qed.

Lemma Set_add_nonempty (s : list number) (x : number) : Set_add s x ≠ [].
Proof.
  unfold Set_add. destruct (Set_has s x) eqn:E.
  - destruct s; [done|done].
  - by destruct s.
Qed.

Lemma Set_of_from_nonempty (xs acc : list number) :
  acc ≠ [] → fold_left Set_add xs acc ≠ [].
Proof.
  revert acc. induction xs as [|x xs IH]; intros acc Hacc; simpl; [done|].
  apply IH, Set_add_nonempty.
Qed.

Lemma Set_of_empty (xs : list number) : Set_of xs = [] ↔ xs = [].
Proof.
  unfold Set_of. destruct xs as [|x xs]; simpl; [done|].
  split; [|done]. intros H. by apply Set_of_from_nonempty in H; [|apply Set_add_nonempty].
Qed.

Lemma flagged_indices_empty (i : Z) (l : list value) :
  0 ≤ i →
  filter (λ k, 0 ≤ k) (mapi_from (λ o k, if flagged_multi o then k else -1) i l) = []
  ↔ forallb (λ o, negb (flagged_multi o)) l = true.
Proof.
  revert i. induction l as [|o l IH]; intros i Hi; simpl; [done|].
  destruct (flagged_multi o); simpl.
  - rewrite filter_cons_True by done. done.
  - rewrite filter_cons_False by lia. apply IH. lia.
Qed.

(** C7, as the code has it. [gradeAnswer] depends on nothing but its
    two arguments; for every snapshot and every payload whose [index]
    and [indices] elements convert to numbers it returns a boolean;
    and an absent field is coerced, not rejected: an absent [answer]
    counts as [false] (so it is correct when the key is falsy), an
    absent [index] is [NaN] and incorrect, and [indices] that is no
    array counts as the empty selection (so it is correct when no
    option is flagged). *)
Theorem grade_total_on_convertible snapshot payload :
  convertible payload = true →
  ∃ b, gradeAnswer snapshot payload = Return b
       ∧ (∀ r, gradeAnswer snapshot payload = r → r = Return b)
       ∧ (snap_type snapshot = TRUE_FALSE → opt_get payload "answer" = VUndefined →
            b = negb (Boolean (key_of snapshot)))
       ∧ (snap_type snapshot = MCQ_SINGLE → opt_get payload "index" = VUndefined →
            b = false)
       ∧ (snap_type snapshot = MCQ_MULTI → isArray (opt_get payload "indices") = false →
            b = forallb (λ o, negb (flagged_multi o)) (options_of snapshot)).
Proof.
  intros [Hidx Hind]%andb_prop. apply negb_true_iff in Hidx.
  assert (∃ b, gradeAnswer snapshot payload = Return b) as [b Hb].
  { unfold gradeAnswer. destruct (snap_type snapshot).
    - by eexists.
    - rewrite (Number_returns _ Hidx). by eexists.
    - destruct (isArray (opt_get payload "indices")).
      + rewrite (map_Number_returns _ Hind). destruct (negb _); by eexists.
      + destruct (negb _); by eexists. }
  exists b. split; [done|]. split; [by intros r <-|].
  split; [|split].
  - intros Ht Hmiss. unfold gradeAnswer, key_of in *. rewrite Ht, Hmiss in Hb.
    injection Hb as <-. simpl. by destruct (Boolean _).
  - intros Ht Hmiss. rewrite grade_single_value, Hmiss in Hb by done.
    by injection Hb as <-.
  - intros Ht Hmiss. unfold gradeAnswer in Hb. rewrite Ht, Hmiss in Hb.
    fold (options_of snapshot) in Hb. fold flagged_multi in Hb.
    change (Set_of []) with (@nil number) in Hb.
    destruct (forallb _ (options_of snapshot)) eqn:Hall.
    + apply (flagged_indices_empty 0) in Hall; [|done].
      unfold mapi in Hb. unfold flagged_multi in Hall. rewrite Hall in Hb.
      by injection Hb as <-.
    + destruct (Set_of _) as [|c cs] eqn:Hset in Hb.
      * apply Set_of_empty, fmap_nil_inv in Hset.
        apply (flagged_indices_empty 0) in Hset; [|done]. congruence.
      * by injection Hb as <-.
Qed.

Lemma grade_total_on_convertible_witness :
  ∃ b, gradeAnswer (Sample.multi "c3" [VBool true; VBool false])
         (VObj [("indices", VArr [VStr "0"; VNull])]) = Return b.
Proof.
  destruct (grade_total_on_convertible (Sample.multi "c3" [VBool true; VBool false])
              (VObj [("indices", VArr [VStr "0"; VNull])]) eq_refl) as (b & Hb & _).
  by exists b.
Defined.

(** C7, as stated, fails: no payload at all is graded correct against
    the key [false]. *)
Lemma missing_answer_graded_correct :
  gradeAnswer (Sample.true_false "c1" false) VUndefined ≠ Return false.
Proof. discriminate. Qed.

(** The conversion the theorem above leaves out: an [index] that is an
    object with an own [toString] property makes [Number] throw. *)
Lemma own_toString_throws :
  gradeAnswer (Sample.single "c2" [VBool true])
    (VObj [("index", VObj [("toString", VNum (num_of_Z 1))])]) = Throw TypeError.
Proof. reflexivity. Qed.

End GradingClaims.

(** ** Running the hub *)

Section Submission.

Implicit Types (h : Hub) (l : Lobby) (p : PlayerState) (q : QuestionSnapshot).

Lemma submitAnswer_returns lobbyId user payload t t' h s h' out :
  BattleHub.submitAnswer lobbyId user payload t t' h = (Return s, h', out) →
  ∃ l q p,
    lobbies h !! lobbyId = Some l
    ∧ 0 ≤ qIndex l < total l
    ∧ snapshot_at l (qIndex l) = Some q
    ∧ gradeAnswer q payload = Return (BattleHub.correct s)
    ∧ BattleHub.elapsed s = Z.max 0 (t - default t' (qShownAt l))
    ∧ BattleHub.delta s = score_delta (BattleHub.correct s) (BattleHub.elapsed s)
    ∧ players l !! user = Some p
    ∧ h' = {| io := io h; lobbies := <[lobbyId := answered l user p q s]> (lobbies h);
              pinIndex := pinIndex h |}.
Proof.
  unfold BattleHub.submitAnswer, BattleHub.requireLobby. unfold_M.
  intros H.
  destruct (lobbies h !! lobbyId) as [l|] eqn:Hl; [|done].
  destruct ((qIndex l <? 0) || (total l <=? qIndex l)) eqn:Hrange; [done|].
  apply orb_false_elim in Hrange as [?%Z.ltb_ge ?%Z.leb_gt].
  destruct (snapshot_at l (qIndex l)) as [q|] eqn:Hq; [|done].
  destruct (gradeAnswer q payload) as [c|] eqn:Hc; [|done].
  destruct (players l !! user) as [p|] eqn:Hp; [|done].
  exists l, q, p. simpl in H.
  repeat case_match; simplify_eq; simpl; unfold answered; simpl;
    repeat split; try done; try lia.
  all: by repeat case_match.
Qed.

End Submission.

(** ** Scoring *)

Section Scoring.

Lemma nondecreasing_run_sound (f : Z → Z) (n : nat) (i : Z) :
  nondecreasing_run f n i (f i) = true →
  ∀ j, i ≤ j < i + Z.of_nat n → f j ≤ f (j + 1).
Proof.
  revert i. induction n as [|n IH]; intros i H j Hj; [lia|].
  simpl in H. apply andb_prop in H as [Hstep Hrest].
  apply Z.leb_le in Hstep.
  destruct (decide (j = i)) as [->|Hne]; [done|].
  apply (IH (i + 1)); [done|lia].
Qed.

(** Every value of [speedBonus] from [0] to [5000] is evaluated in
    binary64 here. *)
Lemma bonus_points_table : nondecreasing_run bonus_points 5000 0 (bonus_points 0) = true.
Proof. vm_compute. reflexivity. Qed.

Lemma bonus_points_step (sb : Z) :
  0 ≤ sb < 5000 → bonus_points sb ≤ bonus_points (sb + 1).
Proof.
  intros Hsb. apply (nondecreasing_run_sound bonus_points 5000 0 bonus_points_table). lia.
Qed.

Lemma bonus_points_monotone (a b : Z) :
  0 ≤ a → a ≤ b → b ≤ 5000 → bonus_points a ≤ bonus_points b.
Proof.
  intros Ha Hab Hb.
  replace b with (a + Z.of_nat (Z.to_nat (b - a))) in * by lia.
  induction (Z.to_nat (b - a)) as [|n IH]; [rewrite Z.add_0_r; lia|].
  etrans; [apply IH; lia|].
  replace (a + Z.of_nat (S n)) with (a + Z.of_nat n + 1) by lia.
  apply bonus_points_step. lia.
Qed.

Lemma bonus_points_zero : bonus_points 0 = 0.
Proof. reflexivity. Qed.

Lemma score_delta_correct (elapsed : Z) :
  score_delta true elapsed = 100 + bonus_points (speedBonus elapsed).
Proof. reflexivity. Qed.

Lemma speedBonus_range (elapsed : Z) : 0 ≤ speedBonus elapsed ∧ (0 ≤ elapsed → speedBonus elapsed ≤ 5000).
Proof. unfold speedBonus. lia. Qed.

(** C9. Of two submissions that [submitAnswer] grades correct, the one
    with the smaller elapsed time gets at least the delta of the
    other; the delta of a correct submission is at least 100; and it
    is exactly 100 once 5000 ms have elapsed. *)
Theorem speed_bonus_monotone
    lobbyId1 user1 payload1 t1 t1' h1 s1 h1' out1
    lobbyId2 user2 payload2 t2 t2' h2 s2 h2' out2 :
  BattleHub.submitAnswer lobbyId1 user1 payload1 t1 t1' h1 = (Return s1, h1', out1) →
  BattleHub.submitAnswer lobbyId2 user2 payload2 t2 t2' h2 = (Return s2, h2', out2) →
  BattleHub.correct s1 = true → BattleHub.correct s2 = true →
  BattleHub.elapsed s1 ≤ BattleHub.elapsed s2 →
  BattleHub.delta s2 ≤ BattleHub.delta s1
  ∧ 100 ≤ BattleHub.delta s1 ∧ 100 ≤ BattleHub.delta s2
  ∧ (5000 ≤ BattleHub.elapsed s1 → BattleHub.delta s1 = 100)
  ∧ (5000 ≤ BattleHub.elapsed s2 → BattleHub.delta s2 = 100).
Proof.
  intros (l1 & q1 & p1 & _ & _ & _ & _ & He1 & Hd1 & _)%submitAnswer_returns
         (l2 & q2 & p2 & _ & _ & _ & _ & He2 & Hd2 & _)%submitAnswer_returns
         Hc1 Hc2 Hle.
  rewrite Hc1 in Hd1. rewrite Hc2 in Hd2.
  rewrite score_delta_correct in Hd1, Hd2. rewrite Hd1, Hd2.
  assert (0 ≤ BattleHub.elapsed s1) by lia.
  assert (0 ≤ BattleHub.elapsed s2) by lia.
  pose proof (speedBonus_range (BattleHub.elapsed s1)) as [? ?].
  pose proof (speedBonus_range (BattleHub.elapsed s2)) as [? ?].
  assert (Hmono : bonus_points (speedBonus (BattleHub.elapsed s2))
                  ≤ bonus_points (speedBonus (BattleHub.elapsed s1))).
  { apply bonus_points_monotone; [lia| |lia]. unfold speedBonus. lia. }
  assert (Hpos : ∀ e, 0 ≤ e → 0 ≤ bonus_points (speedBonus e)).
  { intros e He. rewrite <- bonus_points_zero at 1.
    apply bonus_points_monotone; [done| |]; unfold speedBonus; lia. }
  assert (Hzero : ∀ e, 5000 ≤ e → bonus_points (speedBonus e) = 0).
  { intros e He. unfold speedBonus. by rewrite Z.max_l by lia. }
  repeat split.
  - lia.
  - specialize (Hpos (BattleHub.elapsed s1)). lia.
  - specialize (Hpos (BattleHub.elapsed s2)). lia.
  - intros H5. rewrite Hzero by done. lia.
  - intros H5. rewrite Hzero by done. lia.
Qed.

Lemma speed_bonus_monotone_witness :
  ∃ s1 s2,
    Sample.result (BattleHub.submitAnswer "L1" "ana" (VObj [("answer", VBool true)]) 7150 0)
      Sample.started = Return s1
    ∧ Sample.result (BattleHub.submitAnswer "L1" "rui" (VObj [("answer", VStr "y")]) 9999 0)
        Sample.started = Return s2
    ∧ BattleHub.delta s2 ≤ BattleHub.delta s1.
Proof.
  eexists _, _. split; [reflexivity|]. split; [reflexivity|].
  refine (proj1 (speed_bonus_monotone
    "L1" "ana" (VObj [("answer", VBool true)]) 7150 0 Sample.started _ _ _
    "L1" "rui" (VObj [("answer", VStr "y")]) 9999 0 Sample.started _ _ _
    eq_refl eq_refl eq_refl eq_refl _)).
  vm_compute. discriminate.
Defined.

End Scoring.

(** ** Question broadcasts *)

Section Broadcast.

Implicit Types (h : Hub) (l : Lobby) (q : QuestionSnapshot).

Lemma emitQuestion_sends l q h :
  io h = true → snapshot_at l (qIndex l) = Some q →
  BattleHub.emitQuestion l h
  = (Return tt, h, [lobby_question (lobby_id l) (question_message l q)]).
Proof. intros Hio Hq. unfold BattleHub.emitQuestion, emit. by rewrite Hio, Hq. Qed.

(** Whatever [emitQuestion] and [questionPayload] send, its
    [data_json] is the snapshot's own. *)
Lemma question_message_data_json l q :
  view_data_json (qp_question (question_message l q)) = data_json q.
Proof. reflexivity. Qed.

Lemma questionPayload_data_json l body :
  questionPayload l = Some body →
  ∃ q, snapshot_at l (qIndex l) = Some q
       ∧ view_data_json (qp_question body) = data_json q.
Proof.
  unfold questionPayload. destruct (_ || _); [done|].
  destruct (snapshot_at l (qIndex l)) as [q|]; [|done].
  intros [= <-]. by exists q.
Qed.

(** Every question [start] and [next] broadcast is the snapshot copied
    field by field, [data_json] included. *)
Lemma start_broadcasts_snapshot lobbyId nowISO nowMs h l q :
  io h = true → lobbies h !! lobbyId = Some l → startedAt l = None →
  snapshots l !! 0%nat = Some q →
  ∃ body,
    (BattleHub.start lobbyId nowISO nowMs h).2 = [lobby_question (lobby_id l) body]
    ∧ qp_qIndex body = 0
    ∧ qp_question body = question_view q.
Proof.
  intros Hio Hl Hs Hq.
  unfold BattleHub.start, BattleHub.requireLobby. unfold_M.
  rewrite Hl, Hs. rewrite bool_decide_false by (by intros [? ?]). simpl.
  rewrite (emitQuestion_sends (with_started l nowISO nowMs) q) by done.
  by eexists.
Qed.

Lemma next_broadcasts_snapshot lobbyId nowMs nowISO h l d q :
  io h = true → lobbies h !! lobbyId = Some l → startedAt l = Some d →
  snapshot_at l (qIndex l + 1) = Some q →
  ∃ body,
    (BattleHub.next lobbyId nowMs nowISO h).2 = [lobby_question (lobby_id l) body]
    ∧ qp_qIndex body = qIndex l + 1
    ∧ qp_question body = question_view q.
Proof.
  intros Hio Hl Hs Hq.
  assert (Hin : (total l <=? qIndex l + 1) = false).
  { apply Z.leb_gt. unfold snapshot_at, total in *.
    destruct (0 <=? qIndex l + 1) eqn:H0; [|done].
    apply lookup_lt_Some in Hq. apply Z.leb_le in H0. lia. }
  unfold BattleHub.next, BattleHub.requireLobby. unfold_M.
  rewrite Hl, Hs. rewrite bool_decide_true by done. simpl.
  change (total (with_qIndex l (qIndex l + 1))) with (total l). rewrite Hin.
  rewrite (emitQuestion_sends (with_qShownAt (with_qIndex l (qIndex l + 1)) nowMs) q)
    by done.
  by eexists.
Qed.

(** C1, on the code. The host starts a lobby whose first question is
    single choice with the second option correct, then advances to a
    second question of the same kind: both [lobby:question] messages,
    and the payload of the HTTP response, carry the snapshot's
    [data_json] whole, per-option [correct] flags included. *)
Theorem question_broadcast_carries_answer_key :
  let shots := [Sample.single "c1" [VBool false; VBool true];
                Sample.single "c2" [VBool true; VBool false]] in
  let flags (body : QuestionPayload) :=
    map (λ o, opt_get o "correct")
      (array_or_empty (opt_get (view_data_json (qp_question body)) "options")) in
  let h0 := Sample.after (BattleHub.join (Some "L1") None "ana" "Ana") (Sample.hub_with shots) in
  let h1 := Sample.after (BattleHub.start "L1" (ISO 5000) 5000) h0 in
  ∃ first second,
    Sample.emitted (BattleHub.start "L1" (ISO 5000) 5000) h0 = [lobby_question "L1" first]
    ∧ flags first = [VBool false; VBool true]
    ∧ Sample.emitted (BattleHub.next "L1" 9000 (ISO 9000)) h1 = [lobby_question "L1" second]
    ∧ flags second = [VBool true; VBool false]
    ∧ (l ← lobbies h1 !! "L1"; questionPayload l) = Some first.
Proof. vm_compute. eexists _, _. repeat split; reflexivity. Qed.

End Broadcast.

(** ** Finished lobbies *)

Section AfterFinish.

(** C2, on the code. The host finishes a started lobby early; after
    that [submitAnswer] still returns, records the answer and credits
    the score, and [next] still moves [qIndex]. *)
Theorem finished_lobby_still_mutable :
  let h := Sample.after (BattleHub.finish "L1" (ISO 9000)) Sample.started in
  let submit := BattleHub.submitAnswer "L1" "rui" (VObj [("answer", VBool true)]) 7000 0 in
  let advance := BattleHub.next "L1" 9500 (ISO 9500) in
  Sample.finished_in h "L1" = Some (ISO 9000)
  ∧ Sample.score_in h "L1" "rui" = Some 0
  ∧ Sample.answer_in h "L1" "rui" "c1:0" = None
  ∧ Sample.qIndex_in h "L1" = Some 0
  ∧ Sample.result submit h
    = Return {| BattleHub.correct := true; BattleHub.delta := 130; BattleHub.elapsed := 2000 |}
  ∧ Sample.score_in (Sample.after submit h) "L1" "rui" = Some 130
  ∧ Sample.answer_in (Sample.after submit h) "L1" "rui" "c1:0"
    = Some {| ans_correct := true; ans_ms := 2000 |}
  ∧ Sample.result advance h = Return tt
  ∧ Sample.qIndex_in (Sample.after advance h) "L1" = Some 1.
Proof. vm_compute. repeat split; reflexivity. Qed.

(** C6, on the code. A two-question lobby is started and advanced
    twice, which completes it with [qIndex] equal to the number of
    questions; every further [next] adds one more. *)
Theorem next_overshoots_question_count :
  let advance := BattleHub.next "L1" 9500 (ISO 9500) in
  let h2 := Sample.after advance (Sample.after advance Sample.started) in
  let h3 := Sample.after advance h2 in
  let h4 := Sample.after advance h3 in
  (l ← lobbies h2 !! "L1"; Some (total l)) = Some 2
  ∧ Sample.qIndex_in h2 "L1" = Some 2
  ∧ Sample.finished_in h2 "L1" = Some (ISO 9500)
  ∧ Sample.result advance h2 = Return tt
  ∧ Sample.qIndex_in h3 "L1" = Some 3
  ∧ Sample.qIndex_in h4 "L1" = Some 4.
Proof. vm_compute. repeat split; reflexivity. Qed.

(** What does hold after completion: a second [finish] does nothing, *)
Lemma finish_again_does_nothing lobbyId nowISO (h : Hub) (l : Lobby) d :
  lobbies h !! lobbyId = Some l → finishedAt l = Some d →
  BattleHub.finish lobbyId nowISO h = (Return tt, h, []).
Proof.
  intros Hl Hf. unfold BattleHub.finish, BattleHub.requireLobby. unfold_M.
  rewrite Hl, Hf. by rewrite bool_decide_true.
Qed.

(** and once [qIndex] has run past the last question, [submitAnswer]
    throws before it touches anything. *)
Lemma submitAnswer_after_last_question lobbyId user payload t t' (h : Hub) (l : Lobby) :
  lobbies h !! lobbyId = Some l → total l ≤ qIndex l →
  BattleHub.submitAnswer lobbyId user payload t t' h = (Throw NO_ACTIVE_QUESTION, h, []).
Proof.
  intros Hl Hend. unfold BattleHub.submitAnswer, BattleHub.requireLobby. unfold_M.
  rewrite Hl. replace (total l <=? qIndex l) with true by (symmetry; by apply Z.leb_le).
  by rewrite orb_true_r.
Qed.

End AfterFinish.

(** ** Repeated submissions *)

Section Resubmission.

Implicit Types (h : Hub) (l : Lobby) (p : PlayerState) (q : QuestionSnapshot).

Lemma hub_store_same h lobbyId l :
  lobbies h !! lobbyId = Some l →
  {| io := io h; lobbies := <[lobbyId := l]> (lobbies h); pinIndex := pinIndex h |} = h.
Proof. intros Hl. destruct h as [i ls ps]; simpl in *. by rewrite insert_id. Qed.

Lemma score_rows_of_returns l (uids : list string) :
  (∀ uid, uid ∈ uids → is_Some (players l !! uid)) →
  ∃ rows, score_rows_of l uids = Return rows ∧ map row_userId rows = uids.
Proof.
  induction uids as [|uid uids IH]; intros Hall; simpl.
  - by exists [].
  - destruct (Hall uid) as [p Hp]; [set_solver|].
    destruct IH as (rows & -> & Hrows); [intros u Hu; apply Hall; set_solver|].
    unfold score_row. rewrite Hp. eexists. split; [done|]. simpl. by rewrite Hrows.
Qed.

Lemma score_rows_returns l :
  lobby_wf l → ∃ rows, score_rows l = Return rows ∧ map row_userId rows = order l.
Proof. intros Hwf. apply score_rows_of_returns. intros uid. apply (wf_roster l Hwf). Qed.

(** A player who has an entry for the current question submits again:
    the hub is left as it was, whatever the call returns or throws. *)
Lemma submitAnswer_again lobbyId user payload t t' h l q p rec :
  lobbies h !! lobbyId = Some l →
  0 ≤ qIndex l < total l →
  snapshot_at l (qIndex l) = Some q →
  players l !! user = Some p →
  answers p !! answer_key q (qIndex l) = Some rec →
  (BattleHub.submitAnswer lobbyId user payload t t' h).1.2 = h.
Proof.
  intros Hl Hrange Hq Hp Hrec.
  unfold BattleHub.submitAnswer, BattleHub.requireLobby. unfold_M.
  rewrite Hl.
  replace ((qIndex l <? 0) || (total l <=? qIndex l)) with false
    by (symmetry; apply orb_false_intro; [apply Z.ltb_ge|apply Z.leb_gt]; lia).
  rewrite Hq. destruct (gradeAnswer q payload) as [c|e]; [|done].
  rewrite Hp, Hrec. simpl. rewrite (hub_store_same h lobbyId l Hl).
  destruct (io h); [|done]. by destruct (score_rows l).
Qed.

(** After a submission that returned, the player has an entry for the
    current question. *)
Lemma submitAnswer_records lobbyId user payload t t' h s h1 out :
  BattleHub.submitAnswer lobbyId user payload t t' h = (Return s, h1, out) →
  ∃ l1 q p1 rec,
    lobbies h1 !! lobbyId = Some l1
    ∧ 0 ≤ qIndex l1 < total l1
    ∧ snapshot_at l1 (qIndex l1) = Some q
    ∧ players l1 !! user = Some p1
    ∧ answers p1 !! answer_key q (qIndex l1) = Some rec.
Proof.
  intros (l & q & p & Hl & Hrange & Hq & _ & _ & _ & Hp & ->)%submitAnswer_returns.
  simpl. rewrite lookup_insert_eq. unfold answered.
  destruct (answers p !! answer_key q (qIndex l)) as [rec|] eqn:Hrec.
  - by exists l, q, p, rec.
  - eexists _, q, _, _. split; [done|]. simpl. split; [done|]. split; [done|].
    rewrite lookup_insert_eq. split; [done|]. simpl. by rewrite lookup_insert_eq.
Qed.

End Resubmission.

(** ** What a call does to the hub *)

Section Effects.

Implicit Types (h : Hub) (l : Lobby) (p : PlayerState) (q : QuestionSnapshot).

Lemma put_same h key l : lobbies h !! key = Some l → put key l h = h.
Proof. apply hub_store_same. Qed.

Lemma put_put h key l1 l2 : put key l2 (put key l1 h) = put key l2 h.
Proof. unfold put; simpl. by rewrite insert_insert_eq. Qed.

Lemma finish_effect lobbyId nowISO h :
  (BattleHub.finish lobbyId nowISO h).1.2 =
    match lobbies h !! lobbyId with
    | Some l =>
        match finishedAt l with
        | Some _ => h
        | None => put lobbyId (with_finishedAt l nowISO) h
        end
    | None => h
    end.
Proof.
  unfold BattleHub.finish, BattleHub.requireLobby. unfold_M.
  destruct (lobbies h !! lobbyId) as [l|]; [|done].
  destruct (finishedAt l) as [d|] eqn:Hf.
  - rewrite bool_decide_true by done. done.
  - rewrite bool_decide_false by (by intros [? ?]). simpl.
    destruct (score_rows (with_finishedAt l nowISO)); [|done].
    simpl. unfold put. by destruct (io h).
Qed.

Lemma start_effect lobbyId nowISO nowMs h :
  (BattleHub.start lobbyId nowISO nowMs h).1.2 =
    match lobbies h !! lobbyId with
    | Some l =>
        match startedAt l with
        | Some _ => h
        | None => put lobbyId (with_started l nowISO nowMs) h
        end
    | None => h
    end.
Proof.
  unfold BattleHub.start, BattleHub.requireLobby, BattleHub.emitQuestion. unfold_M.
  destruct (lobbies h !! lobbyId) as [l|]; [|done].
  destruct (startedAt l) as [d|] eqn:Hs.
  - rewrite bool_decide_true by done. done.
  - rewrite bool_decide_false by (by intros [? ?]). simpl.
    unfold put. destruct (io h); [|done]. by destruct (snapshot_at _ _).
Qed.

Lemma next_effect lobbyId nowMs nowISO h :
  (BattleHub.next lobbyId nowMs nowISO h).1.2 =
    match lobbies h !! lobbyId with
    | Some l =>
        match startedAt l with
        | None => h
        | Some _ =>
            let l1 := with_qIndex l (qIndex l + 1) in
            if total l1 <=? qIndex l1 then
              match finishedAt l with
              | Some _ => put lobbyId l1 h
              | None => put lobbyId (with_finishedAt l1 nowISO) h
              end
            else put lobbyId (with_qShownAt l1 nowMs) h
        end
    | None => h
    end.
Proof.
  unfold BattleHub.next.
  unfold mbind at 1. unfold M_bind. unfold BattleHub.requireLobby at 1. unfold_M.
  destruct (lobbies h !! lobbyId) as [l|] eqn:Hl; [|done].
  destruct (startedAt l) as [d|] eqn:Hs.
  2: { rewrite bool_decide_false by (by intros [? ?]). done. }
  rewrite bool_decide_true by done. simpl.
  destruct (total (with_qIndex l (qIndex l + 1)) <=? qIndex l + 1) eqn:Hend.
  - set (h1 := {| io := io h;
                  lobbies := <[lobbyId := with_qIndex l (qIndex l + 1)]> (lobbies h);
                  pinIndex := pinIndex h |}).
    pose proof (finish_effect lobbyId nowISO h1) as Hfin.
    replace (lobbies h1 !! lobbyId) with (Some (with_qIndex l (qIndex l + 1))) in Hfin
      by (subst h1; simpl; by rewrite lookup_insert_eq).
    change (finishedAt (with_qIndex l (qIndex l + 1))) with (finishedAt l) in Hfin.
    destruct (BattleHub.finish lobbyId nowISO h1) as [[r h'] out].
    cbn [fst snd] in *. subst h'.
    destruct (finishedAt l); [done|]. apply put_put.
  - unfold BattleHub.emitQuestion. simpl.
    rewrite <- (put_put h lobbyId (with_qIndex l (qIndex l + 1))). unfold put. simpl.
    destruct (io h); simpl; [|done].
    by destruct (snapshot_at _ _).
Qed.

Lemma join_effect lobbyId pin_ user name h :
  (BattleHub.join lobbyId pin_ user name h).1.2 = h
  ∨ ∃ key l,
      lobbies h !! key = Some l ∧ players l !! user = None
      ∧ (BattleHub.join lobbyId pin_ user name h).1.2
        = put key
            (with_players l
               (<[user := {| userId := user; username := name; score := 0; answers := ∅ |}]>
                  (players l))
               (order l ++ [user])) h.
Proof.
  unfold BattleHub.join. unfold_M.
  set (id := if negb (BattleHub.given lobbyId) && BattleHub.given pin_
             then pinIndex h !! default "" pin_ else lobbyId).
  destruct (negb (BattleHub.given id)); [by left|].
  destruct (lobbies h !! default "" id) as [l|] eqn:Hl; [|by left].
  destruct (bool_decide (is_Some (finishedAt l))); [by left|].
  destruct (players l !! user) as [p|] eqn:Hp.
  - left. simpl. rewrite (hub_store_same h _ l Hl).
    destruct (io h); [|done]. by destruct (publicLobby l).
  - right. exists (default "" id), l. split; [done|]. split; [done|].
    simpl. unfold put. destruct (io h); [|done]. by destruct (publicLobby _).
Qed.

Lemma submitAnswer_effect lobbyId user payload t t' h :
  (BattleHub.submitAnswer lobbyId user payload t t' h).1.2 = h
  ∨ ∃ l p key rec delta,
      lobbies h !! lobbyId = Some l ∧ players l !! user = Some p
      ∧ answers p !! key = None
      ∧ (BattleHub.submitAnswer lobbyId user payload t t' h).1.2
        = put lobbyId
            (with_players l (<[user := record_answer p key rec delta]> (players l)) (order l))
            h.
Proof.
  unfold BattleHub.submitAnswer, BattleHub.requireLobby. unfold_M.
  destruct (lobbies h !! lobbyId) as [l|] eqn:Hl; [|by left].
  destruct ((qIndex l <? 0) || (total l <=? qIndex l)); [by left|].
  destruct (snapshot_at l (qIndex l)) as [q|]; [|by left].
  destruct (gradeAnswer q payload) as [c|]; [|by left].
  destruct (players l !! user) as [p|] eqn:Hp; [|by left].
  destruct (answers p !! answer_key q (qIndex l)) as [rec|] eqn:Hrec.
  - left. simpl. rewrite (hub_store_same h _ l Hl).
    destruct (io h); [|done]. by destruct (score_rows l).
  - right. eexists l, p, _, _, _. split; [done|]. split; [done|]. split; [exact Hrec|].
    simpl. unfold put. destruct (io h); [|done]. by destruct (score_rows _).
Qed.

(** Every call other than [createLobby] leaves the lobbies as they
    were, or applies one or two mutations to one of them. *)
Lemma run_effect c h :
  keeps_lobby c = true →
  lobbies (run c h) = lobbies h
  ∨ ∃ key l l', lobbies h !! key = Some l ∧ rtc lobby_step l l' ∧ run c h = put key l' h.
Proof.
  destruct c as [| |lobbyId pin_ user name|lobbyId nowISO nowMs|lobbyId nowMs nowISO
                 |lobbyId user payload t t'|lobbyId nowISO]; intros Hc; try done; simpl.
  - by left.
  - destruct (join_effect lobbyId pin_ user name h) as [->|(key & l & Hl & Hp & ->)];
      [by left|right].
    exists key, l. eexists. split; [done|]. split; [|done].
    apply rtc_once. by constructor.
  - rewrite start_effect.
    destruct (lobbies h !! lobbyId) as [l|] eqn:Hl; [|by left].
    destruct (startedAt l) eqn:Hs; [by left|right].
    exists lobbyId, l. eexists. split; [done|]. split; [|done].
    apply rtc_once. by constructor.
  - rewrite next_effect.
    destruct (lobbies h !! lobbyId) as [l|] eqn:Hl; [|by left].
    destruct (startedAt l) eqn:Hs; [right|by left].
    assert (Hadv : lobby_step l (with_qIndex l (qIndex l + 1))) by (constructor; by rewrite Hs).
    exists lobbyId, l. cbv zeta. destruct (_ <=? _).
    + destruct (finishedAt l) eqn:Hf.
      * eexists. split; [done|]. split; [|done]. by apply rtc_once.
      * eexists. split; [done|]. split; [|done].
        eapply rtc_l; [exact Hadv|]. apply rtc_once. by constructor.
    + eexists. split; [done|]. split; [|done].
      eapply rtc_l; [exact Hadv|]. apply rtc_once. constructor.
  - destruct (submitAnswer_effect lobbyId user payload t t' h)
      as [->|(l & p & key & rec & delta & Hl & Hp & Hrec & ->)]; [by left|right].
    exists lobbyId, l. eexists. split; [done|]. split; [|done].
    apply rtc_once. by econstructor.
  - rewrite finish_effect.
    destruct (lobbies h !! lobbyId) as [l|] eqn:Hl; [|by left].
    destruct (finishedAt l) eqn:Hf; [by left|right].
    exists lobbyId, l. eexists. split; [done|]. split; [|done].
    apply rtc_once. by constructor.
Qed.

(** *** The invariant *)

Lemma lobby_step_wf l l' : lobby_step l l' → lobby_wf l → lobby_wf l'.
Proof.
  intros Hstep [Hnodup Hroster Hindex].
  destruct Hstep as [l user name Hnone|l nowISO nowMs Hs|l Hs|l nowMs|l nowISO Hf
                     |l user p key rec delta Hp Hrec]; split; simpl; try done.
  - apply NoDup_app. split; [done|]. split; [|apply NoDup_singleton].
    intros uid Hin ->%list_elem_of_singleton.
    apply Hroster in Hin. rewrite Hnone in Hin. by destruct Hin.
  - intros uid. rewrite elem_of_app, list_elem_of_singleton, Hroster.
    destruct (decide (uid = user)) as [->|Hne].
    + rewrite lookup_insert_eq. split; [intros _; by eexists|intros _; by right].
    + rewrite lookup_insert_ne by done. split; [by intros [?|?]|by left].
  - destruct (startedAt l); [lia|by destruct Hs].
  - intros uid. rewrite Hroster.
    destruct (decide (uid = user)) as [->|Hne].
    + rewrite lookup_insert_eq, Hp. split; intros _; by eexists.
    + by rewrite lookup_insert_ne.
Qed.

Lemma lobby_steps_wf l l' : rtc lobby_step l l' → lobby_wf l → lobby_wf l'.
Proof. induction 1; eauto using lobby_step_wf. Qed.

(** A mutation never lowers [qIndex] and never touches the questions. *)
Lemma lobby_step_index l l' :
  lobby_step l l' → lobby_wf l →
  qIndex l ≤ qIndex l' ∧ snapshots l' = snapshots l ∧ lobby_id l' = lobby_id l.
Proof.
  intros Hstep [_ _ Hindex].
  destruct Hstep; simpl; repeat split; try done; try lia.
  by destruct (startedAt l); simplify_eq; lia.
Qed.

Lemma lobby_steps_index l l' :
  rtc lobby_step l l' → lobby_wf l →
  qIndex l ≤ qIndex l' ∧ snapshots l' = snapshots l ∧ lobby_id l' = lobby_id l.
Proof.
  induction 1 as [|l l1 l2 Hstep _ IH]; intros Hwf; [done|].
  destruct (lobby_step_index _ _ Hstep Hwf) as (Hi1 & Hs1 & Hd1).
  destruct (IH (lobby_step_wf _ _ Hstep Hwf)) as (Hi2 & Hs2 & Hd2).
  repeat split; [lia|congruence|congruence].
Qed.

Lemma new_lobby_wf lobbyId host deck title mode pin_ created shots :
  lobby_wf (BattleHub.new_lobby lobbyId host deck title mode pin_ created shots).
Proof.
  split; simpl; [apply NoDup_nil_2| |done].
  intros uid. rewrite lookup_empty. split; [by intros ?%elem_of_nil|by intros [? ?]].
Qed.

Lemma run_wf c h : hub_wf h → hub_wf (run c h).
Proof.
  intros Hwf. destruct (keeps_lobby c) eqn:Hc.
  - destruct (run_effect c h Hc) as [Heq|(key & l & l' & Hl & Hsteps & ->)].
    + intros id l. rewrite Heq. apply Hwf.
    + intros id l0. simpl. destruct (decide (key = id)) as [->|Hne].
      * rewrite lookup_insert_eq. intros [= <-].
        eapply lobby_steps_wf; [done|]. by eapply Hwf.
      * rewrite lookup_insert_ne by done. apply Hwf.
  - destruct c; try done. intros id l0.
    change (<[lobbyId := BattleHub.new_lobby lobbyId host deck title mode pin_ created shots]>
              (lobbies h) !! id = Some l0 → lobby_wf l0).
    destruct (decide (lobbyId = id)) as [->|Hne].
    + rewrite lookup_insert_eq. intros [= <-]. apply new_lobby_wf.
    + rewrite lookup_insert_ne by done. apply Hwf.
Qed.

Lemma run_all_wf cs h : hub_wf h → hub_wf (run_all cs h).
Proof.
  revert h. induction cs as [|c cs IH]; intros h Hwf; [done|].
  simpl. apply IH, run_wf, Hwf.
Qed.

Lemma reachable_wf h : reachable h → hub_wf h.
Proof.
  intros [cs ->]. apply run_all_wf. intros id l. unfold battleHub; simpl.
  by rewrite lookup_empty.
Qed.

(** Across any call that does not replace the lobby, its [qIndex] does
    not decrease and its questions stay the same. *)
Lemma qIndex_never_decreases c h lobbyId l :
  hub_wf h → keeps_lobby c = true → lobbies h !! lobbyId = Some l →
  ∃ l', lobbies (run c h) !! lobbyId = Some l'
        ∧ qIndex l ≤ qIndex l' ∧ snapshots l' = snapshots l.
Proof.
  intros Hwf Hc Hl.
  destruct (run_effect c h Hc) as [Heq|(key & l0 & l' & Hl0 & Hsteps & ->)].
  - exists l. by rewrite Heq.
  - simpl. destruct (decide (key = lobbyId)) as [->|Hne].
    + rewrite lookup_insert_eq. simplify_eq. exists l'. split; [done|].
      destruct (lobby_steps_index _ _ Hsteps (Hwf _ _ Hl)) as (? & ? & _). done.
    + rewrite lookup_insert_ne by done. by exists l.
Qed.

(** *** Entries are kept *)

Lemma lobby_step_keeps l l' user key :
  lobby_step l l' → has_answer l user key →
  has_answer l' user key ∧ snapshots l' = snapshots l.
Proof.
  intros Hstep (p & rec & Hp & Hrec).
  destruct Hstep as [l user' name Hnone|l nowISO nowMs Hs|l Hs|l nowMs|l nowISO Hf
                     |l user' p' key' rec' delta Hp' Hrec'];
    (split; [|done]); try (by exists p, rec).
  - exists p, rec. split; [|done]. simpl.
    rewrite lookup_insert_ne; [done|]. intros ->. congruence.
  - destruct (decide (user' = user)) as [->|Hne].
    + simplify_eq. destruct (decide (key' = key)) as [->|Hk]; [congruence|].
      eexists _, rec. simpl. rewrite lookup_insert_eq. split; [done|].
      simpl. by rewrite lookup_insert_ne.
    + exists p, rec. simpl. by rewrite lookup_insert_ne.
Qed.

Lemma lobby_steps_keeps l l' user key :
  rtc lobby_step l l' → has_answer l user key →
  has_answer l' user key ∧ snapshots l' = snapshots l.
Proof.
  induction 1 as [|l l1 l2 Hstep _ IH]; intros Hans; [done|].
  destruct (lobby_step_keeps _ _ _ _ Hstep Hans) as [Hans1 Hs1].
  destruct (IH Hans1) as [Hans2 Hs2]. split; [done|congruence].
Qed.

Lemma run_keeps c h lobbyId l user key :
  keeps_lobby c = true → lobbies h !! lobbyId = Some l → has_answer l user key →
  ∃ l', lobbies (run c h) !! lobbyId = Some l'
        ∧ has_answer l' user key ∧ snapshots l' = snapshots l.
Proof.
  intros Hc Hl Hans.
  destruct (run_effect c h Hc) as [Heq|(k & l0 & l' & Hl0 & Hsteps & ->)].
  - exists l. by rewrite Heq.
  - simpl. destruct (decide (k = lobbyId)) as [->|Hne].
    + rewrite lookup_insert_eq. simplify_eq. exists l'. split; [done|].
      by apply (lobby_steps_keeps l).
    + rewrite lookup_insert_ne by done. by exists l.
Qed.

Lemma run_all_keeps cs h lobbyId l user key :
  forallb keeps_lobby cs = true → lobbies h !! lobbyId = Some l → has_answer l user key →
  ∃ l', lobbies (run_all cs h) !! lobbyId = Some l'
        ∧ has_answer l' user key ∧ snapshots l' = snapshots l.
Proof.
  revert h l. induction cs as [|c cs IH]; intros h l Hcs Hl Hans; simpl; [by exists l|].
  simpl in Hcs. apply andb_prop in Hcs as [Hc Hcs].
  destruct (run_keeps c h lobbyId l user key Hc Hl Hans) as (l1 & Hl1 & Hans1 & Hs1).
  destruct (IH (run c h) l1 Hcs Hl1 Hans1) as (l2 & Hl2 & Hans2 & Hs2).
  exists l2. split; [done|]. split; [done|congruence].
Qed.

End Effects.

(** ** What a repeated submission returns *)

Section ResubmissionResult.

Implicit Types (h : Hub) (l : Lobby) (p : PlayerState) (q : QuestionSnapshot).

(** C4, as the code has it. When the player already has an entry for
    the current question, [submitAnswer] leaves the hub, and with it the
    stored entry, as it was, and what it returns is computed from the
    new call: the grading of the new payload, the delta that grading
    would earn (which is not credited) and the time elapsed now. *)
Theorem resubmission_reports_fresh_grading lobbyId user payload t t' h l q p rec c :
  lobbies h !! lobbyId = Some l →
  lobby_wf l →
  0 ≤ qIndex l < total l →
  snapshot_at l (qIndex l) = Some q →
  players l !! user = Some p →
  answers p !! answer_key q (qIndex l) = Some rec →
  gradeAnswer q payload = Return c →
  let now_elapsed := Z.max 0 (t - default t' (qShownAt l)) in
  ∃ out,
    BattleHub.submitAnswer lobbyId user payload t t' h
    = (Return {| BattleHub.correct := c;
                 BattleHub.delta := score_delta c now_elapsed;
                 BattleHub.elapsed := now_elapsed |}, h, out)
    ∧ (l' ← lobbies h !! lobbyId; p' ← players l' !! user;
       answers p' !! answer_key q (qIndex l)) = Some rec.
Proof.
  intros Hl Hwf Hrange Hq Hp Hrec Hc now_elapsed.
  destruct (score_rows_returns l Hwf) as (rows & Hrows & _).
  unfold BattleHub.submitAnswer, BattleHub.requireLobby. unfold_M.
  rewrite Hl.
  replace ((qIndex l <? 0) || (total l <=? qIndex l)) with false
    by (symmetry; apply orb_false_intro; [apply Z.ltb_ge|apply Z.leb_gt]; lia).
  rewrite Hq, Hc, Hp, Hrec. simpl. rewrite (hub_store_same h lobbyId l Hl), Hrows, Hp.
  simpl. rewrite Hrec. destruct (io h); by eexists.
Qed.

Lemma resubmission_reports_fresh_grading_witness :
  let h := run_all Sample.rui_wrong battleHub in
  Sample.answer_in h "L1" "rui" "c1:0" = Some {| ans_correct := false; ans_ms := 1000 |}
  ∧ ∃ out,
      BattleHub.submitAnswer "L1" "rui" (VObj [("answer", VBool true)]) 7000 0 h
      = (Return {| BattleHub.correct := true; BattleHub.delta := 130;
                   BattleHub.elapsed := 2000 |}, h, out).
Proof.
  intros h. split; [vm_compute; reflexivity|].
  pose (l := default (BattleHub.new_lobby "" "" "" "" PUBLIC None (ISO 0) [])
                     (lobbies h !! "L1")).
  pose (p := default {| userId := ""; username := ""; score := 0; answers := ∅ |}
                     (players l !! "rui")).
  assert (Hl : lobbies h !! "L1" = Some l) by (vm_compute; reflexivity).
  assert (Hrange : 0 ≤ qIndex l < total l) by (vm_compute; split; [discriminate|reflexivity]).
  assert (Hq : snapshot_at l (qIndex l) = Some (Sample.true_false "c1" true))
    by (vm_compute; reflexivity).
  assert (Hp : players l !! "rui" = Some p) by (vm_compute; reflexivity).
  assert (Hrec : answers p !! answer_key (Sample.true_false "c1" true) (qIndex l)
                 = Some {| ans_correct := false; ans_ms := 1000 |})
    by (vm_compute; reflexivity).
  destruct (resubmission_reports_fresh_grading "L1" "rui" (VObj [("answer", VBool true)])
              7000 0 h l (Sample.true_false "c1" true) p _ true Hl
              (reachable_wf h (ex_intro _ Sample.rui_wrong eq_refl) "L1" l Hl)
              Hrange Hq Hp Hrec eq_refl) as (out & Hrun & _).
  exists out. rewrite Hrun. reflexivity.
Defined.

(** C4, as stated, fails: Rui's stored entry says incorrect after
    1000 ms, yet his second call returns correct after 2000 ms. *)
Lemma resubmission_does_not_return_recorded :
  let h := run_all Sample.rui_wrong battleHub in
  ¬ ∃ s rec,
      Sample.answer_in h "L1" "rui" "c1:0" = Some rec
      ∧ Sample.result
          (BattleHub.submitAnswer "L1" "rui" (VObj [("answer", VBool true)]) 7000 0) h
        = Return s
      ∧ BattleHub.correct s = ans_correct rec
      ∧ BattleHub.elapsed s = ans_ms rec.
Proof.
  intros h (s & rec & Hrec & Hs & Hc & _).
  vm_compute in Hrec. vm_compute in Hs.
  injection Hrec as <-. injection Hs as <-. discriminate.
Qed.

(** C5. Once a submission of a player for the current question has
    returned, then after any further calls on the hub (submissions by
    anyone, joins, an early finish), as long as the lobby is still at
    that question index, a submission by the same player, with any
    payload at any time, leaves the hub as it was: the player's score
    and recorded answers, and everything else, are unchanged. *)
Theorem score_changes_once_per_question lobbyId user payload t t' h s h1 out cs l1 l2 :
  BattleHub.submitAnswer lobbyId user payload t t' h = (Return s, h1, out) →
  forallb keeps_lobby cs = true →
  lobbies h1 !! lobbyId = Some l1 →
  lobbies (run_all cs h1) !! lobbyId = Some l2 →
  qIndex l2 = qIndex l1 →
  ∀ payload2 t2 t2',
    (BattleHub.submitAnswer lobbyId user payload2 t2 t2' (run_all cs h1)).1.2
    = run_all cs h1.
Proof.
  intros (l0 & q & p1 & rec & Hl0 & Hrange & Hq & Hp & Hrec)%submitAnswer_records
         Hcs Hl1 Hl2 Hidx payload2 t2 t2'.
  assert (l0 = l1) as -> by congruence.
  destruct (run_all_keeps cs h1 lobbyId l1 user (answer_key q (qIndex l1)) Hcs Hl1)
    as (l3 & Hl3 & (p2 & rec2 & Hp2 & Hrec2) & Hshots); [by exists p1, rec|].
  assert (l3 = l2) as -> by congruence.
  apply (submitAnswer_again lobbyId user payload2 t2 t2' _ l2 q p2 rec2); try done.
  - unfold total in *. rewrite Hshots, Hidx. done.
  - unfold snapshot_at in *. by rewrite Hshots, Hidx.
  - by rewrite Hidx.
Qed.

(** In particular, any number of immediate resubmissions change
    nothing. *)
Lemma resubmission_changes_nothing lobbyId user payload t t' h s h1 out again :
  BattleHub.submitAnswer lobbyId user payload t t' h = (Return s, h1, out) →
  resubmit lobbyId user again h1 = h1.
Proof.
  intros (l1 & q & p1 & rec & Hl & Hrange & Hq & Hp & Hrec)%submitAnswer_records.
  induction again as [|[[payload2 t2] t2'] again IH]; simpl; [done|].
  by rewrite (submitAnswer_again _ _ _ _ _ _ _ _ _ _ Hl Hrange Hq Hp Hrec).
Qed.

Lemma score_changes_once_per_question_witness :
  let first := BattleHub.submitAnswer "L1" "rui" (VObj [("answer", VBool true)]) 6000 0 in
  let h1 := Sample.after first Sample.started in
  let between :=
    [SubmitAnswer "L1" "ana" (VObj [("answer", VBool true)]) 6500 0;
     Join (Some "L1") None "eva" "Eva";
     SubmitAnswer "L1" "rui" (VObj [("answer", VBool true)]) 6600 0;
     Finish "L1" (ISO 6700)] in
  Sample.score_in h1 "L1" "rui" = Some 140
  ∧ Sample.score_in (run_all between h1) "L1" "rui" = Some 140
  ∧ (BattleHub.submitAnswer "L1" "rui" (VObj [("answer", VNull)]) 6800 0
       (run_all between h1)).1.2 = run_all between h1.
Proof.
  intros first h1 between.
  split; [vm_compute; reflexivity|]. split; [vm_compute; reflexivity|].
  pose (d := BattleHub.new_lobby "" "" "" "" PUBLIC None (ISO 0) []).
  apply (score_changes_once_per_question "L1" "rui" (VObj [("answer", VBool true)]) 6000 0
           Sample.started (default {| BattleHub.correct := false; BattleHub.delta := 0;
                                      BattleHub.elapsed := 0 |}
                             match Sample.result first Sample.started with
                             | Return s => Some s
                             | Throw _ => None
                             end)
           h1 (Sample.emitted first Sample.started) between
           (default d (lobbies h1 !! "L1"))
           (default d (lobbies (run_all between h1) !! "L1"))).
  - vm_compute. reflexivity.
  - reflexivity.
  - vm_compute. reflexivity.
  - vm_compute. reflexivity.
  - vm_compute. reflexivity.
Defined.

End ResubmissionResult.

(** ** Ranking *)

Section Ranking.

Implicit Types (h : Hub) (l : Lobby) (r x y : ScoreRow) (rows : list ScoreRow).

Lemma sort_insert_perm x rows : sort_insert by_score_desc x rows ≡ₚ x :: rows.
Proof.
  induction rows as [|y rows IH]; simpl; [done|].
  destruct (by_score_desc x y <=? 0); [done|].
  rewrite IH. apply perm_swap.
Qed.

Lemma sort_perm rows : sort by_score_desc rows ≡ₚ rows.
Proof.
  induction rows as [|x rows IH]; simpl; [done|].
  by rewrite sort_insert_perm, IH.
Qed.

Lemma sort_insert_descending x rows :
  descending rows → descending (sort_insert by_score_desc x rows).
Proof.
  unfold descending, by_score_desc.
  induction 1 as [|y rows Hsorted IH Hall]; simpl.
  - repeat constructor.
  - destruct (row_score y - row_score x <=? 0) eqn:Hcmp.
    + apply Z.leb_le in Hcmp. constructor; [by constructor|].
      constructor; [lia|]. eapply Forall_impl; [exact Hall|]. simpl. intros; lia.
    + apply Z.leb_gt in Hcmp. constructor; [done|].
      rewrite sort_insert_perm. constructor; [lia|done].
Qed.

Lemma sort_descending rows : descending (sort by_score_desc rows).
Proof.
  induction rows as [|x rows IH]; simpl; [constructor|].
  by apply sort_insert_descending.
Qed.

(** Stability: the rows with a given score keep their order. *)
Lemma sort_insert_stable (s : Z) x rows :
  filter (λ r, row_score r = s) (sort_insert by_score_desc x rows)
  = filter (λ r, row_score r = s) (x :: rows).
Proof.
  induction rows as [|y rows IH]; simpl; [done|].
  unfold by_score_desc at 1.
  destruct (row_score y - row_score x <=? 0) eqn:Hcmp; [done|].
  apply Z.leb_gt in Hcmp.
  rewrite filter_cons, IH, !filter_cons.
  repeat case_decide; try done; lia.
Qed.

Lemma sort_stable (s : Z) rows :
  filter (λ r, row_score r = s) (sort by_score_desc rows)
  = filter (λ r, row_score r = s) rows.
Proof.
  induction rows as [|x rows IH]; simpl; [done|].
  by rewrite sort_insert_stable, !filter_cons, IH.
Qed.

Lemma precedes_filter {A : Type} (P : A → Prop) `{Hdec : !∀ a, Decision (P a)} (a b : A) (xs : list A) :
  precedes a b xs → P a → P b → precedes a b (filter P xs).
Proof.
  intros (l1 & l2 & l3 & ->) Ha Hb.
  exists (filter P l1), (filter P l2), (filter P l3).
  rewrite filter_app, filter_cons_True, filter_app, filter_cons_True by done. done.
Qed.

Lemma precedes_cons {A : Type} (a b c : A) (xs : list A) :
  precedes a b xs → precedes a b (c :: xs).
Proof. intros (l1 & l2 & l3 & ->). by exists (c :: l1), l2, l3. Qed.

Lemma precedes_head {A : Type} (a b : A) (xs : list A) :
  b ∈ xs → precedes a b (a :: xs).
Proof.
  intros (l2 & l3 & ->)%list_elem_of_split. by exists [], l2, l3.
Qed.

Lemma filter_precedes {A : Type} (P : A → Prop) `{Hdec : !∀ a, Decision (P a)} (a b : A) (xs : list A) :
  precedes a b (filter P xs) → precedes a b xs.
Proof.
  induction xs as [|c xs IH]; simpl.
  - intros (l1 & l2 & l3 & Heq). by destruct l1.
  - rewrite filter_cons. case_decide as Hc; [|intros Hpre; by apply precedes_cons, IH].
    intros (l1 & l2 & l3 & Heq). destruct l1 as [|d l1]; simpl in Heq.
    + injection Heq as -> Hrest. apply precedes_head.
      assert (Hb : b ∈ filter P xs) by (rewrite Hrest; set_solver).
      by apply list_elem_of_filter in Hb as [_ ?].
    + injection Heq as -> Hrest. apply precedes_cons, IH. by exists l1, l2, l3.
Qed.

Lemma precedes_fmap {A B : Type} (f : A → B) (a b : A) (xs : list A) :
  precedes a b xs → precedes (f a) (f b) (f <$> xs).
Proof.
  intros (l1 & l2 & l3 & ->). exists (f <$> l1), (f <$> l2), (f <$> l3).
  by rewrite fmap_app, fmap_cons, fmap_app, fmap_cons.
Qed.

(** Rows with equal scores are ranked in the order they had. *)
Lemma sort_keeps_ties x y rows :
  precedes x y rows → row_score x = row_score y →
  precedes x y (sort by_score_desc rows).
Proof.
  intros Hxy Heq.
  apply (filter_precedes (λ r, row_score r = row_score x)).
  rewrite sort_stable. by apply precedes_filter.
Qed.

Lemma score_rows_of_wf l (uids : list string) :
  (∀ uid, uid ∈ uids → is_Some (players l !! uid)) →
  score_rows_of l uids = Return (row_of l <$> uids).
Proof.
  induction uids as [|uid uids IH]; intros Hall; simpl; [done|].
  destruct (Hall uid) as [p Hp]; [set_solver|].
  rewrite IH by (intros u Hu; apply Hall; set_solver).
  unfold score_row, row_of. by rewrite Hp.
Qed.

Lemma row_of_ids l (uids : list string) : row_userId <$> (row_of l <$> uids) = uids.
Proof. induction uids as [|uid uids IH]; [done|]. rewrite !fmap_cons. by f_equal. Qed.

End Ranking.

Section FinalRanking.

Implicit Types (h : Hub) (l : Lobby).

(** C8. When [finish] completes a lobby, the ranking it computes, hands
    to the prize loop and broadcasts lists every participant once, in
    order of descending score, and of two participants with equal
    scores the one who joined earlier comes first. *)
Theorem final_ranking_breaks_ties_by_join_order lobbyId nowISO h l :
  lobbies h !! lobbyId = Some l → lobby_wf l → finishedAt l = None →
  ∃ ranking,
    BattleHub.finish lobbyId nowISO h
    = (Return tt, put lobbyId (with_finishedAt l nowISO) h,
       map (λ a, battle_prize (row_userId a.1) a.2 (lobby_id l)) (awards ranking)
       ++ (if io h then [lobby_finished (lobby_id l) (lobby_id l) ranking] else []))
    ∧ ranking ≡ₚ row_of l <$> order l
    ∧ NoDup (row_userId <$> ranking)
    ∧ descending ranking
    ∧ ∀ u v pu pv,
        precedes u v (order l) →
        players l !! u = Some pu → players l !! v = Some pv → score pu = score pv →
        precedes u v (row_userId <$> ranking).
Proof.
  intros Hl Hwf Hf.
  exists (sort by_score_desc (row_of l <$> order l)).
  split; [|split; [|split; [|split]]].
  - unfold BattleHub.finish, BattleHub.requireLobby. unfold_M.
    rewrite Hl, Hf. rewrite bool_decide_false by (by intros [? ?]). simpl.
    unfold score_rows. simpl.
    rewrite (score_rows_of_wf (with_finishedAt l nowISO) (order l))
      by (intros uid; apply (wf_roster l Hwf)).
    change (row_of (with_finishedAt l nowISO)) with (row_of l).
    simpl. unfold put. destruct (io h); simpl; by rewrite ?app_nil_r.
  - apply sort_perm.
  - rewrite sort_perm, row_of_ids. apply Hwf.
  - apply sort_descending.
  - intros u v pu pv Huv Hu Hv Heq.
    apply (precedes_fmap row_userId (row_of l u) (row_of l v)).
    apply sort_keeps_ties; [by apply precedes_fmap|].
    unfold row_of; simpl. by rewrite Hu, Hv; simpl.
Qed.

Lemma opening_reaches_started : Sample.started = run_all Sample.opening battleHub.
Proof. vm_compute. reflexivity. Qed.

Lemma final_ranking_breaks_ties_by_join_order_witness :
  let h := run_all Sample.eva_leads battleHub in
  ∃ l ranking,
    lobbies h !! "L1" = Some l
    ∧ order l = ["ana"; "rui"; "eva"]
    ∧ Sample.score_in h "L1" "ana" = Sample.score_in h "L1" "rui"
    ∧ (BattleHub.finish "L1" (ISO 9000) h).2
      = map (λ a, battle_prize (row_userId a.1) a.2 (lobby_id l)) (awards ranking)
        ++ [lobby_finished (lobby_id l) (lobby_id l) ranking]
    ∧ descending ranking
    ∧ precedes "ana" "rui" (row_userId <$> ranking).
Proof.
  intros h.
  pose (l := default (BattleHub.new_lobby "" "" "" "" PUBLIC None (ISO 0) [])
                     (lobbies h !! "L1")).
  assert (Hl : lobbies h !! "L1" = Some l) by (vm_compute; reflexivity).
  assert (Hf : finishedAt l = None) by (vm_compute; reflexivity).
  assert (Hio : io h = true) by (vm_compute; reflexivity).
  destruct (final_ranking_breaks_ties_by_join_order "L1" (ISO 9000) h l Hl
              (reachable_wf h (ex_intro _ Sample.eva_leads eq_refl) "L1" l Hl) Hf)
    as (ranking & Hrun & _ & _ & Hdesc & Hties).
  exists l, ranking.
  split; [exact Hl|].
  split; [vm_compute; reflexivity|].
  split; [vm_compute; reflexivity|].
  split; [rewrite Hrun, Hio; reflexivity|].
  split; [exact Hdesc|].
  eapply (Hties "ana" "rui").
  - exists [], [], ["eva"]. vm_compute. reflexivity.
  - vm_compute. reflexivity.
  - vm_compute. reflexivity.
  - vm_compute. reflexivity.
Defined.

End FinalRanking.

(** * Further properties of the hub *)

(** ** Joining *)

Section Joining.

Implicit Types (h : Hub) (l : Lobby) (p : PlayerState).

Lemma publicLobby_returns l :
  lobby_wf l → ∃ body, publicLobby l = Return body ∧ pub_id body = lobby_id l.
Proof.
  intros Hwf. destruct (score_rows_returns l Hwf) as (rows & Hrows & _).
  unfold publicLobby. rewrite Hrows. by eexists.
Qed.

(** X1. A user who is already in an unfinished lobby joins again: the
    call returns the lobby and leaves the hub as it was (roster, score
    and answers of the user included); with a socket server attached
    the roster is broadcast once more. *)
Theorem join_again_changes_nothing lobbyId pin_ user name h l p :
  lobbyId ≠ "" →
  lobbies h !! lobbyId = Some l → lobby_wf l → finishedAt l = None →
  players l !! user = Some p →
  ∃ body,
    publicLobby l = Return body
    ∧ BattleHub.join (Some lobbyId) pin_ user name h
      = (Return l, h, if io h then [lobby_update (lobby_id l) body] else []).
Proof.
  intros Hid Hl Hwf Hf Hp.
  destruct (publicLobby_returns l Hwf) as (body & Hbody & _).
  exists body. split; [done|].
  unfold BattleHub.join. unfold_M.
  apply String.eqb_neq in Hid. simpl. rewrite Hid. simpl. rewrite Hl, Hf, Hp.
  rewrite bool_decide_false by (by intros [? ?]). rewrite ?Hid. simpl.
  rewrite (hub_store_same h lobbyId l Hl), Hbody.
  by destruct (io h).
Qed.

Lemma join_again_changes_nothing_witness :
  let h := run_all Sample.opening battleHub in
  ∃ l out,
    BattleHub.join (Some "L1") None "rui" "Someone else" h = (Return l, h, out)
    ∧ order l = ["ana"; "rui"].
Proof.
  intros h.
  pose (l := default (BattleHub.new_lobby "" "" "" "" PUBLIC None (ISO 0) [])
                     (lobbies h !! "L1")).
  pose (p := default {| userId := ""; username := ""; score := 0; answers := ∅ |}
                     (players l !! "rui")).
  assert (Hl : lobbies h !! "L1" = Some l) by (vm_compute; reflexivity).
  destruct (join_again_changes_nothing "L1" None "rui" "Someone else" h l p)
    as (body & _ & Hrun).
  - discriminate.
  - exact Hl.
  - exact (reachable_wf h (ex_intro _ Sample.opening eq_refl) "L1" l Hl).
  - vm_compute. reflexivity.
  - vm_compute. reflexivity.
  - exists l. eexists. split; [exact Hrun|]. vm_compute. reflexivity.
Defined.

(** X2. A user who is not yet in an unfinished lobby joins: the user is
    appended to the join order with the given name, score 0 and no
    answers; every other player, and the rest of the lobby, stay as
    they were. *)
Theorem join_adds_player_last lobbyId pin_ user name h l :
  lobbyId ≠ "" →
  lobbies h !! lobbyId = Some l → lobby_wf l → finishedAt l = None →
  players l !! user = None →
  ∃ l' out,
    BattleHub.join (Some lobbyId) pin_ user name h = (Return l', put lobbyId l' h, out)
    ∧ order l' = order l ++ [user]
    ∧ players l' !! user
      = Some {| userId := user; username := name; score := 0; answers := ∅ |}
    ∧ (∀ other, other ≠ user → players l' !! other = players l !! other)
    ∧ qIndex l' = qIndex l ∧ snapshots l' = snapshots l
    ∧ startedAt l' = startedAt l ∧ finishedAt l' = None.
Proof.
  intros Hid Hl Hwf Hf Hp.
  set (l' := with_players l
               (<[user := {| userId := user; username := name; score := 0; answers := ∅ |}]>
                  (players l))
               (order l ++ [user])).
  assert (Hwf' : lobby_wf l') by (eapply lobby_step_wf; [by constructor|done]).
  destruct (publicLobby_returns l' Hwf') as (body & Hbody & _).
  exists l', (if io h then [lobby_update (lobby_id l) body] else []).
  split; [|split; [done|split; [|split; [|by repeat split]]]].
  - unfold BattleHub.join. unfold_M.
    apply String.eqb_neq in Hid. simpl. rewrite Hid. simpl. rewrite Hl, Hf, Hp.
    rewrite bool_decide_false by (by intros [? ?]). rewrite ?Hid. simpl.
    fold l'. rewrite Hbody. unfold put. destruct (io h); reflexivity.
  - simpl. by rewrite lookup_insert_eq.
  - intros other Hne. simpl. by rewrite lookup_insert_ne.
Qed.

Lemma join_adds_player_last_witness :
  let h := run_all Sample.opening battleHub in
  ∃ l' out,
    BattleHub.join (Some "L1") None "eva" "Eva" h = (Return l', put "L1" l' h, out)
    ∧ order l' = ["ana"; "rui"; "eva"].
Proof.
  intros h.
  pose (l := default (BattleHub.new_lobby "" "" "" "" PUBLIC None (ISO 0) [])
                     (lobbies h !! "L1")).
  assert (Hl : lobbies h !! "L1" = Some l) by (vm_compute; reflexivity).
  destruct (join_adds_player_last "L1" None "eva" "Eva" h l)
    as (l' & out & Hrun & Hord & _).
  - discriminate.
  - exact Hl.
  - exact (reachable_wf h (ex_intro _ Sample.opening eq_refl) "L1" l Hl).
  - vm_compute. reflexivity.
  - vm_compute. reflexivity.
  - exists l', out. split; [exact Hrun|]. rewrite Hord. vm_compute. reflexivity.
Defined.

(** X3. [join] refuses without touching the hub or emitting anything:
    with neither a lobby id nor a PIN that resolves, or with the id of
    no lobby, it throws LOBBY_NOT_FOUND; on a finished lobby it throws
    LOBBY_FINISHED. *)
Theorem join_refusals user name h :
  (∀ lobbyId pin_,
     BattleHub.given lobbyId = false →
     (BattleHub.given pin_ = false ∨ pinIndex h !! default "" pin_ = None) →
     BattleHub.join lobbyId pin_ user name h = (Throw LOBBY_NOT_FOUND, h, []))
  ∧ (∀ lobbyId pin_,
       lobbyId ≠ "" → lobbies h !! lobbyId = None →
       BattleHub.join (Some lobbyId) pin_ user name h = (Throw LOBBY_NOT_FOUND, h, []))
  ∧ (∀ lobbyId pin_ l d,
       lobbyId ≠ "" → lobbies h !! lobbyId = Some l → finishedAt l = Some d →
       BattleHub.join (Some lobbyId) pin_ user name h = (Throw LOBBY_FINISHED, h, [])).
Proof.
  split; [|split].
  - intros lobbyId pin_ Hid Hpin. unfold BattleHub.join. unfold_M.
    rewrite Hid. simpl. destruct Hpin as [->| ->].
    + simpl. by rewrite Hid.
    + by destruct (BattleHub.given pin_); simpl; rewrite ?Hid.
  - intros lobbyId pin_ Hid Hnone. unfold BattleHub.join. unfold_M.
    apply String.eqb_neq in Hid. simpl. rewrite Hid. simpl. rewrite Hnone.
    by rewrite ?Hid.
  - intros lobbyId pin_ l d Hid Hl Hf. unfold BattleHub.join. unfold_M.
    apply String.eqb_neq in Hid. simpl. rewrite Hid. simpl. rewrite Hl, Hf.
    rewrite bool_decide_true by done. by rewrite ?Hid.
Qed.

Lemma join_refusals_witness :
  let h := Sample.after (BattleHub.finish "L1" (ISO 9000)) Sample.started in
  BattleHub.join None (Some "123456") "eva" "Eva" h = (Throw LOBBY_NOT_FOUND, h, [])
  ∧ BattleHub.join (Some "L2") None "eva" "Eva" h = (Throw LOBBY_NOT_FOUND, h, [])
  ∧ BattleHub.join (Some "L1") None "eva" "Eva" h = (Throw LOBBY_FINISHED, h, []).
Proof.
  intros h.
  pose (l := default (BattleHub.new_lobby "" "" "" "" PUBLIC None (ISO 0) [])
                     (lobbies h !! "L1")).
  destruct (join_refusals "eva" "Eva" h) as (Hnone & Hunknown & Hfinished).
  split; [|split].
  - apply Hnone; [reflexivity|right; vm_compute; reflexivity].
  - apply Hunknown; [discriminate|vm_compute; reflexivity].
  - apply (Hfinished "L1" None l (ISO 9000)); [discriminate|vm_compute; reflexivity..].
Defined.

(** X4. A lobby id, when given, takes precedence: the PIN is not even
    looked at; without an id, joining by a PIN that the index maps to
    a lobby is joining that lobby by its id. *)
Theorem join_resolves_id_before_pin lobbyId pin_ user name h :
  (BattleHub.given lobbyId = true →
     BattleHub.join lobbyId pin_ user name h = BattleHub.join lobbyId None user name h)
  ∧ (∀ (code target : string),
       BattleHub.given lobbyId = false → pin_ = Some code → code ≠ "" →
       pinIndex h !! code = Some target →
       BattleHub.join lobbyId pin_ user name h
       = BattleHub.join (Some target) None user name h).
Proof.
  split.
  - intros Hid. unfold BattleHub.join. unfold_M. by rewrite Hid.
  - intros code target Hid -> Hp Hidx. unfold BattleHub.join. unfold_M.
    rewrite Hid. apply String.eqb_neq in Hp. simpl. rewrite Hp. simpl. rewrite Hidx.
    by rewrite andb_false_r.
Qed.

Lemma join_resolves_id_before_pin_witness :
  let h := BattleHub.register
             (BattleHub.new_lobby "P1" "ana" "deck1" "Capitals" PRIVATE (Some "123456")
                (ISO 1000) Sample.two_questions) battleHub in
  BattleHub.join (Some "P1") (Some "000000") "rui" "Rui" h
  = BattleHub.join (Some "P1") None "rui" "Rui" h
  ∧ BattleHub.join None (Some "123456") "rui" "Rui" h
    = BattleHub.join (Some "P1") None "rui" "Rui" h.
Proof.
  intros h.
  destruct (join_resolves_id_before_pin (Some "P1") (Some "000000") "rui" "Rui" h)
    as [Hid _].
  destruct (join_resolves_id_before_pin None (Some "123456") "rui" "Rui" h)
    as [_ Hpin].
  split.
  - apply Hid. reflexivity.
  - apply (Hpin "123456" "P1"); [reflexivity|reflexivity|discriminate|].
    vm_compute. reflexivity.
Defined.

End Joining.

(** ** Starting, advancing and finishing *)

Section Lifecycle.

Implicit Types (h : Hub) (l : Lobby) (p : PlayerState) (q : QuestionSnapshot).

(** X5. [start] on a lobby that was not started sets [startedAt],
    moves [qIndex] to 0, stamps [qShownAt] and broadcasts question 0
    and nothing else; a second [start] throws ALREADY_STARTED and
    leaves the hub as the first one left it. *)
Theorem start_runs_once lobbyId nowISO nowMs nowISO' nowMs' h l q :
  lobbies h !! lobbyId = Some l → startedAt l = None →
  snapshots l !! 0%nat = Some q →
  let h1 := put lobbyId (with_started l nowISO nowMs) h in
  BattleHub.start lobbyId nowISO nowMs h
  = (Return tt, h1,
     if io h
     then [lobby_question (lobby_id l) (question_message (with_started l nowISO nowMs) q)]
     else [])
  ∧ BattleHub.start lobbyId nowISO' nowMs' h1 = (Throw ALREADY_STARTED, h1, []).
Proof.
  intros Hl Hs Hq h1. split.
  - assert (Hq' : snapshot_at (with_started l nowISO nowMs)
                               (qIndex (with_started l nowISO nowMs)) = Some q) by exact Hq.
    unfold BattleHub.start, BattleHub.requireLobby, BattleHub.emitQuestion. unfold_M.
    rewrite Hl, Hs. rewrite bool_decide_false by (by intros [? ?]).
    rewrite Hq'. unfold h1, put. by destruct (io h).
  - unfold BattleHub.start, BattleHub.requireLobby. unfold_M.
    unfold h1, put. simpl. rewrite lookup_insert_eq. simpl. done.
Qed.

Lemma start_runs_once_witness :
  let h := run_all (take 4 Sample.opening) battleHub in
  ∃ h1 out,
    BattleHub.start "L1" (ISO 5000) 5000 h = (Return tt, h1, out)
    ∧ BattleHub.start "L1" (ISO 5001) 5001 h1 = (Throw ALREADY_STARTED, h1, []).
Proof.
  intros h.
  pose (l := default (BattleHub.new_lobby "" "" "" "" PUBLIC None (ISO 0) [])
                     (lobbies h !! "L1")).
  destruct (start_runs_once "L1" (ISO 5000) 5000 (ISO 5001) 5001 h l
              (Sample.true_false "c1" true)) as [Hfirst Hsecond].
  - vm_compute. reflexivity.
  - vm_compute. reflexivity.
  - vm_compute. reflexivity.
  - eexists _, _. split; [exact Hfirst|exact Hsecond].
Defined.

(** X6. [next] on a started lobby whose next index is still within the
    questions moves [qIndex] up by exactly one, stamps [qShownAt] and
    broadcasts that question; it sets neither [finishedAt] nor any
    score, and awards no prize. *)
Theorem next_reveals_next_question lobbyId nowMs nowISO h l d q :
  lobbies h !! lobbyId = Some l → startedAt l = Some d →
  snapshot_at l (qIndex l + 1) = Some q →
  let l' := with_qShownAt (with_qIndex l (qIndex l + 1)) nowMs in
  BattleHub.next lobbyId nowMs nowISO h
  = (Return tt, put lobbyId l' h,
     if io h then [lobby_question (lobby_id l) (question_message l' q)] else [])
  ∧ qIndex l' = qIndex l + 1 ∧ qShownAt l' = Some nowMs
  ∧ finishedAt l' = finishedAt l ∧ players l' = players l.
Proof.
  intros Hl Hs Hq l'. split; [|done].
  assert (Hin : (total l <=? qIndex l + 1) = false).
  { apply Z.leb_gt. unfold snapshot_at, total in *.
    destruct (0 <=? qIndex l + 1) eqn:H0; [|done].
    apply lookup_lt_Some in Hq. apply Z.leb_le in H0. lia. }
  unfold BattleHub.next, BattleHub.requireLobby, BattleHub.emitQuestion. unfold_M.
  rewrite Hl, Hs. rewrite bool_decide_true by done. simpl.
  change (total (with_qIndex l (qIndex l + 1))) with (total l). rewrite Hin.
  change (snapshot_at (with_qShownAt (with_qIndex l (qIndex l + 1)) nowMs) (qIndex l + 1))
    with (snapshot_at l (qIndex l + 1)).
  rewrite Hq. rewrite <- (put_put h lobbyId (with_qIndex l (qIndex l + 1))).
  unfold put. simpl. by destruct (io h).
Qed.

Lemma next_reveals_next_question_witness :
  ∃ l' out,
    BattleHub.next "L1" 9000 (ISO 9000) Sample.started
    = (Return tt, put "L1" l' Sample.started, out)
    ∧ qIndex l' = 1.
Proof.
  pose (l := default (BattleHub.new_lobby "" "" "" "" PUBLIC None (ISO 0) [])
                     (lobbies Sample.started !! "L1")).
  destruct (next_reveals_next_question "L1" 9000 (ISO 9000) Sample.started l (ISO 5000)
              (Sample.single "c2" [VBool false; VBool true]))
    as (Hrun & Hidx & _).
  - vm_compute. reflexivity.
  - vm_compute. reflexivity.
  - vm_compute. reflexivity.
  - eexists _, _. split; [exact Hrun|]. rewrite Hidx. vm_compute. reflexivity.
Defined.



(** X8. [next] throws NOT_STARTED on a lobby that was not started and
    LOBBY_NOT_FOUND on an unknown id, and then changes and emits
    nothing. *)
Theorem next_refusals lobbyId nowMs nowISO h :
  (lobbies h !! lobbyId = None →
     BattleHub.next lobbyId nowMs nowISO h = (Throw LOBBY_NOT_FOUND, h, []))
  ∧ (∀ l, lobbies h !! lobbyId = Some l → startedAt l = None →
          BattleHub.next lobbyId nowMs nowISO h = (Throw NOT_STARTED, h, [])).
Proof.
  split.
  - intros Hl. unfold BattleHub.next, BattleHub.requireLobby. unfold_M. by rewrite Hl.
  - intros l Hl Hs. unfold BattleHub.next, BattleHub.requireLobby. unfold_M.
    rewrite Hl, Hs. by rewrite bool_decide_false by (by intros [? ?]).
Qed.

Lemma next_refusals_witness :
  let h := run_all (take 4 Sample.opening) battleHub in
  BattleHub.next "L9" 9000 (ISO 9000) h = (Throw LOBBY_NOT_FOUND, h, [])
  ∧ BattleHub.next "L1" 9000 (ISO 9000) h = (Throw NOT_STARTED, h, []).
Proof.
  intros h.
  pose (l := default (BattleHub.new_lobby "" "" "" "" PUBLIC None (ISO 0) [])
                     (lobbies h !! "L1")).
  split.
  - apply (proj1 (next_refusals "L9" 9000 (ISO 9000) h)). vm_compute. reflexivity.
  - apply (proj2 (next_refusals "L1" 9000 (ISO 9000) h) l); vm_compute; reflexivity.
Defined.

(** X9. Completion happens once: whatever the first [finish] of a
    lobby did, a later [finish] returns without changing the hub,
    awarding a prize or broadcasting. *)
Theorem finish_only_once lobbyId nowISO nowISO' h l :
  lobbies h !! lobbyId = Some l →
  let h1 := (BattleHub.finish lobbyId nowISO h).1.2 in
  BattleHub.finish lobbyId nowISO' h1 = (Return tt, h1, []).
Proof.
  intros Hl h1.
  assert (∃ l1 d, lobbies h1 !! lobbyId = Some l1 ∧ finishedAt l1 = Some d)
    as (l1 & d & Hl1 & Hf1).
  { unfold h1. rewrite finish_effect, Hl.
    destruct (finishedAt l) as [d|] eqn:Hf.
    - by exists l, d.
    - exists (with_finishedAt l nowISO), nowISO. unfold put; simpl.
      by rewrite lookup_insert_eq. }
  by apply (finish_again_does_nothing lobbyId nowISO' h1 l1 d).
Qed.

Lemma finish_only_once_witness :
  let h1 := (BattleHub.finish "L1" (ISO 9000) Sample.started).1.2 in
  BattleHub.finish "L1" (ISO 9999) h1 = (Return tt, h1, []).
Proof.
  pose (l := default (BattleHub.new_lobby "" "" "" "" PUBLIC None (ISO 0) [])
                     (lobbies Sample.started !! "L1")).
  apply (finish_only_once "L1" (ISO 9000) (ISO 9999) Sample.started l).
  vm_compute. reflexivity.
Defined.

End Lifecycle.

(** ** Submissions *)

Section Submissions.

Implicit Types (h : Hub) (l : Lobby) (p : PlayerState) (q : QuestionSnapshot).

Lemma bonus_points_at_most_50 (sb : Z) : 0 ≤ sb ≤ 5000 → 0 ≤ bonus_points sb ≤ 50.
Proof.
  intros Hsb. split.
  - rewrite <- bonus_points_zero at 1. apply bonus_points_monotone; lia.
  - assert (Htop : bonus_points 5000 = 50) by (vm_compute; reflexivity).
    rewrite <- Htop. apply bonus_points_monotone; lia.
Qed.

Lemma score_delta_range (c : bool) (e : Z) :
  0 ≤ e →
  0 ≤ score_delta c e ≤ 150
  ∧ (c = false → score_delta c e = 0)
  ∧ (c = true → 100 ≤ score_delta c e)
  ∧ (c = true → e = 0 → score_delta c e = 150).
Proof.
  intros He. destruct c.
  - rewrite score_delta_correct.
    pose proof (bonus_points_at_most_50 (speedBonus e)) as Hb.
    unfold speedBonus in *. split; [lia|]. split; [done|]. split; [lia|].
    intros _ ->. vm_compute. reflexivity.
  - split; [done|]. split; [done|]. split; [done|]. done.
Qed.

(** X10. Whatever [submitAnswer] returns, the elapsed time is never
    negative (a clock that went backwards counts as 0 ms), an incorrect
    answer earns 0, and a correct one earns between 100 and 150 points,
    150 being paid at 0 ms. *)
Theorem submission_delta_range lobbyId user payload t t' h s h' out :
  BattleHub.submitAnswer lobbyId user payload t t' h = (Return s, h', out) →
  0 ≤ BattleHub.elapsed s
  ∧ 0 ≤ BattleHub.delta s ≤ 150
  ∧ (BattleHub.correct s = false → BattleHub.delta s = 0)
  ∧ (BattleHub.correct s = true → 100 ≤ BattleHub.delta s)
  ∧ (BattleHub.correct s = true → BattleHub.elapsed s = 0 → BattleHub.delta s = 150).
Proof.
  intros (l & q & p & _ & _ & _ & _ & He & Hd & _)%submitAnswer_returns.
  assert (0 ≤ BattleHub.elapsed s) by lia.
  split; [done|]. rewrite Hd. by apply score_delta_range.
Qed.

Lemma submission_delta_range_witness :
  ∃ s h' out,
    BattleHub.submitAnswer "L1" "ana" (VObj [("answer", VBool true)]) 4000 0 Sample.started
    = (Return s, h', out)
    ∧ BattleHub.elapsed s = 0 ∧ BattleHub.delta s = 150.
Proof.
  eexists _, _, _. split; [vm_compute; reflexivity|]. split; [reflexivity|].
  refine (proj2 (proj2 (proj2 (proj2 (submission_delta_range
    "L1" "ana" (VObj [("answer", VBool true)]) 4000 0 Sample.started _ _ _ _)))) _ _);
    vm_compute; reflexivity.
Defined.

(** X11. The first submission of a player for the current question is
    accepted: the grading and the elapsed time are stored under the
    question's key, the returned delta is added to the player's score,
    and every other player is left as he or she was. *)
Theorem first_submission_is_credited lobbyId user payload t t' h l q p c :
  lobbies h !! lobbyId = Some l → lobby_wf l →
  0 ≤ qIndex l < total l → snapshot_at l (qIndex l) = Some q →
  players l !! user = Some p →
  answers p !! answer_key q (qIndex l) = None →
  gradeAnswer q payload = Return c →
  ∃ s l' p' out,
    BattleHub.submitAnswer lobbyId user payload t t' h = (Return s, put lobbyId l' h, out)
    ∧ BattleHub.correct s = c
    ∧ BattleHub.elapsed s = Z.max 0 (t - default t' (qShownAt l))
    ∧ players l' !! user = Some p'
    ∧ score p' = score p + BattleHub.delta s
    ∧ answers p' !! answer_key q (qIndex l)
      = Some {| ans_correct := c; ans_ms := BattleHub.elapsed s |}
    ∧ (∀ other, other ≠ user → players l' !! other = players l !! other)
    ∧ order l' = order l ∧ qIndex l' = qIndex l.
Proof.
  intros Hl Hwf Hrange Hq Hp Hkey Hc.
  set (e := Z.max 0 (t - default t' (qShownAt l))).
  set (s := {| BattleHub.correct := c; BattleHub.delta := score_delta c e;
               BattleHub.elapsed := e |}).
  set (p' := record_answer p (answer_key q (qIndex l))
               {| ans_correct := c; ans_ms := e |} (score_delta c e)).
  set (l' := with_players l (<[user := p']> (players l)) (order l)).
  assert (Hwf' : lobby_wf l') by (eapply lobby_step_wf; [by econstructor|done]).
  destruct (score_rows_returns l' Hwf') as (rows & Hrows & _).
  exists s, l', p', (if io h then [lobby_scores (lobby_id l) (lobby_id l) rows] else []).
  split; [|repeat split; try done].
  - unfold BattleHub.submitAnswer, BattleHub.requireLobby. unfold_M.
    rewrite Hl.
    replace ((qIndex l <? 0) || (total l <=? qIndex l)) with false
      by (symmetry; apply orb_false_intro; [apply Z.ltb_ge|apply Z.leb_gt]; lia).
    rewrite Hq, Hc, Hp, Hkey. fold e. fold p'. fold l'. rewrite Hrows.
    unfold put. by destruct (io h).
  - simpl. by rewrite lookup_insert_eq.
  - simpl. by rewrite lookup_insert_eq.
  - intros other Hne. simpl. by rewrite lookup_insert_ne.
Qed.

Lemma first_submission_is_credited_witness :
  ∃ s l' p' out,
    BattleHub.submitAnswer "L1" "rui" (VObj [("answer", VBool true)]) 6000 0 Sample.started
    = (Return s, put "L1" l' Sample.started, out)
    ∧ players l' !! "rui" = Some p' ∧ score p' = 140.
Proof.
  pose (l := default (BattleHub.new_lobby "" "" "" "" PUBLIC None (ISO 0) [])
                     (lobbies Sample.started !! "L1")).
  pose (p := default {| userId := ""; username := ""; score := 0; answers := ∅ |}
                     (players l !! "rui")).
  assert (Hl : lobbies Sample.started !! "L1" = Some l) by (vm_compute; reflexivity).
  destruct (first_submission_is_credited "L1" "rui" (VObj [("answer", VBool true)]) 6000 0
              Sample.started l (Sample.true_false "c1" true) p true Hl)
    as (s & l' & p' & out & Hrun & Hc & He & Hp' & Hscore & _).
  - exact (reachable_wf _ (ex_intro _ Sample.opening opening_reaches_started) "L1" l Hl).
  - vm_compute. split; [discriminate|reflexivity].
  - vm_compute. reflexivity.
  - vm_compute. reflexivity.
  - vm_compute. reflexivity.
  - reflexivity.
  - exists s, l', p', out. split; [exact Hrun|]. split; [exact Hp'|].
    rewrite Hscore.
    destruct (submitAnswer_returns _ _ _ _ _ _ _ _ _ Hrun)
      as (l0 & q0 & p0 & Hl0 & _ & Hq0 & Hg0 & He0 & Hd0 & _).
    rewrite Hd0, Hc, He. vm_compute. reflexivity.
Defined.

(** X12. [submitAnswer] refuses without touching the hub or emitting
    anything: LOBBY_NOT_FOUND for an unknown lobby, NO_ACTIVE_QUESTION
    while the lobby is not started or once [qIndex] has passed the last
    question, and PLAYER_NOT_IN_LOBBY for a user who has not joined
    (when the payload can be graded at all). *)
Theorem submission_refusals lobbyId user payload t t' h :
  (lobbies h !! lobbyId = None →
     BattleHub.submitAnswer lobbyId user payload t t' h = (Throw LOBBY_NOT_FOUND, h, []))
  ∧ (∀ l, lobbies h !! lobbyId = Some l → (qIndex l < 0 ∨ total l ≤ qIndex l) →
          BattleHub.submitAnswer lobbyId user payload t t' h
          = (Throw NO_ACTIVE_QUESTION, h, []))
  ∧ (∀ l q c, lobbies h !! lobbyId = Some l → 0 ≤ qIndex l < total l →
              snapshot_at l (qIndex l) = Some q → gradeAnswer q payload = Return c →
              players l !! user = None →
              BattleHub.submitAnswer lobbyId user payload t t' h
              = (Throw PLAYER_NOT_IN_LOBBY, h, [])).
Proof.
  split; [|split].
  - intros Hl. unfold BattleHub.submitAnswer, BattleHub.requireLobby. unfold_M.
    by rewrite Hl.
  - intros l Hl Hout. unfold BattleHub.submitAnswer, BattleHub.requireLobby. unfold_M.
    rewrite Hl.
    replace ((qIndex l <? 0) || (total l <=? qIndex l)) with true; [done|].
    symmetry. apply orb_true_iff. destruct Hout; [left; by apply Z.ltb_lt|right; by apply Z.leb_le].
  - intros l q c Hl Hrange Hq Hc Hp.
    unfold BattleHub.submitAnswer, BattleHub.requireLobby. unfold_M.
    rewrite Hl.
    replace ((qIndex l <? 0) || (total l <=? qIndex l)) with false
      by (symmetry; apply orb_false_intro; [apply Z.ltb_ge|apply Z.leb_gt]; lia).
    by rewrite Hq, Hc, Hp.
Qed.

Lemma submission_refusals_witness :
  let waiting := run_all (take 4 Sample.opening) battleHub in
  BattleHub.submitAnswer "L1" "rui" (VObj [("answer", VBool true)]) 6000 0 waiting
  = (Throw NO_ACTIVE_QUESTION, waiting, [])
  ∧ BattleHub.submitAnswer "L1" "eva" (VObj [("answer", VBool true)]) 6000 0 Sample.started
    = (Throw PLAYER_NOT_IN_LOBBY, Sample.started, []).
Proof.
  intros waiting.
  pose (d := BattleHub.new_lobby "" "" "" "" PUBLIC None (ISO 0) []).
  split.
  - apply (proj1 (proj2 (submission_refusals "L1" "rui" (VObj [("answer", VBool true)])
                           6000 0 waiting)) (default d (lobbies waiting !! "L1"))).
    + vm_compute. reflexivity.
    + left. vm_compute. reflexivity.
  - apply (proj2 (proj2 (submission_refusals "L1" "eva" (VObj [("answer", VBool true)])
                           6000 0 Sample.started))
             (default d (lobbies Sample.started !! "L1")) (Sample.true_false "c1" true) true).
    + vm_compute. reflexivity.
    + vm_compute. split; [discriminate|reflexivity].
    + vm_compute. reflexivity.
    + reflexivity.
    + vm_compute. reflexivity.
Defined.

End Submissions.

(** ** Across calls *)

Section AcrossCalls.

Implicit Types (h : Hub) (l : Lobby) (p : PlayerState) (q : QuestionSnapshot).






(** The hub after [submitAnswer], with the sign of the credited
    delta. *)
Lemma submitAnswer_effect_nonneg lobbyId user payload t t' h :
  (BattleHub.submitAnswer lobbyId user payload t t' h).1.2 = h
  ∨ ∃ l p key rec delta,
      lobbies h !! lobbyId = Some l ∧ players l !! user = Some p
      ∧ answers p !! key = None ∧ 0 ≤ delta
      ∧ (BattleHub.submitAnswer lobbyId user payload t t' h).1.2
        = put lobbyId
            (with_players l (<[user := record_answer p key rec delta]> (players l)) (order l))
            h.
Proof.
  unfold BattleHub.submitAnswer, BattleHub.requireLobby. unfold_M.
  destruct (lobbies h !! lobbyId) as [l|] eqn:Hl; [|by left].
  destruct ((qIndex l <? 0) || (total l <=? qIndex l)); [by left|].
  destruct (snapshot_at l (qIndex l)) as [q|]; [|by left].
  destruct (gradeAnswer q payload) as [c|]; [|by left].
  destruct (players l !! user) as [p|] eqn:Hp; [|by left].
  destruct (answers p !! answer_key q (qIndex l)) as [rec|] eqn:Hrec.
  - left. simpl. rewrite (hub_store_same h _ l Hl).
    destruct (io h); [|done]. by destruct (score_rows l).
  - right. eexists l, p, _, _, _. split; [done|]. split; [done|]. split; [exact Hrec|].
    split; [apply (score_delta_range c (Z.max 0 (t - default t' (qShownAt l)))); lia|].
    simpl. unfold put. destruct (io h); [|done]. by destruct (score_rows _).
Qed.

(** X14. No call takes anything from a player: across [join], [start],
    [next], [submitAnswer], [finish] and [attachIO], a player of a
    lobby stays in it under the same name, the score does not go down,
    and every recorded answer stays as it was recorded. *)
Theorem players_only_gain cs h lobbyId l user p :
  forallb keeps_lobby cs = true →
  lobbies h !! lobbyId = Some l → players l !! user = Some p →
  ∃ l' p',
    lobbies (run_all cs h) !! lobbyId = Some l'
    ∧ players l' !! user = Some p'
    ∧ username p' = username p
    ∧ score p ≤ score p'
    ∧ ∀ key rec, answers p !! key = Some rec → answers p' !! key = Some rec.
Proof.
  revert h l p. induction cs as [|c cs IH]; intros h l p Hcs Hl Hp; simpl.
  { exists l, p. by repeat split. }
  simpl in Hcs. apply andb_prop in Hcs as [Hc Hcs].
  assert (∃ l1 p1,
             lobbies (run c h) !! lobbyId = Some l1 ∧ players l1 !! user = Some p1
             ∧ username p1 = username p ∧ score p ≤ score p1
             ∧ ∀ key rec, answers p !! key = Some rec → answers p1 !! key = Some rec)
    as (l1 & p1 & Hl1 & Hp1 & Hname1 & Hscore1 & Hans1).
  { assert (Hsame : ∀ (l1 : Lobby), players l1 = players l →
              ∀ key, lobbies h !! key = Some l ∨ key ≠ lobbyId →
              ∃ l2 p1, lobbies (put key l1 h) !! lobbyId = Some l2
                       ∧ players l2 !! user = Some p1 ∧ username p1 = username p
                       ∧ score p ≤ score p1
                       ∧ ∀ k rec, answers p !! k = Some rec → answers p1 !! k = Some rec).
    { intros l1 Hplayers key Hkey. unfold put; simpl.
      destruct (decide (key = lobbyId)) as [->|Hne].
      - rewrite lookup_insert_eq. exists l1, p. rewrite Hplayers. by repeat split.
      - rewrite lookup_insert_ne by done. exists l, p. by repeat split. }
    assert (Hkeep : ∃ l2 p1, lobbies h !! lobbyId = Some l2
                       ∧ players l2 !! user = Some p1 ∧ username p1 = username p
                       ∧ score p ≤ score p1
                       ∧ ∀ k rec, answers p !! k = Some rec → answers p1 !! k = Some rec).
    { exists l, p. by repeat split. }
    destruct c as [|lobbyId0 host deck title mode pin_ created shots
                   |lobbyId0 pin_ user0 name|lobbyId0 nowISO nowMs|lobbyId0 nowMs nowISO
                   |lobbyId0 user0 payload t t'|lobbyId0 nowISO]; simpl.
    - exact Hkeep.
    - done.
    - destruct (join_effect lobbyId0 pin_ user0 name h) as [Heq|(key & l0 & Hl0 & Hp0 & Heq)];
        rewrite Heq; [exact Hkeep|].
      unfold put; simpl. destruct (decide (key = lobbyId)) as [->|Hne].
      + rewrite lookup_insert_eq. simplify_eq. eexists _, p. split; [done|]. simpl.
        rewrite lookup_insert_ne by (intros ->; congruence). by repeat split.
      + rewrite lookup_insert_ne by done. exact Hkeep.
    - rewrite start_effect.
      destruct (lobbies h !! lobbyId0) as [l0|] eqn:Hl0; [|exact Hkeep].
      destruct (startedAt l0); [exact Hkeep|].
      destruct (decide (lobbyId0 = lobbyId)) as [->|Hne].
      + simplify_eq. apply Hsame; [done|by left].
      + unfold put; simpl. rewrite lookup_insert_ne by done. exact Hkeep.
    - rewrite next_effect.
      destruct (lobbies h !! lobbyId0) as [l0|] eqn:Hl0; [|exact Hkeep].
      destruct (startedAt l0); [|exact Hkeep].
      destruct (decide (lobbyId0 = lobbyId)) as [->|Hne].
      + simplify_eq. cbv zeta. destruct (_ <=? _); [destruct (finishedAt l)|];
          (apply Hsame; [done|by left]).
      + cbv zeta. destruct (_ <=? _); [destruct (finishedAt l0)|];
          unfold put; simpl; rewrite lookup_insert_ne by done; exact Hkeep.
    - destruct (submitAnswer_effect_nonneg lobbyId0 user0 payload t t' h)
        as [Heq|(l0 & p0 & key & rec & delta & Hl0 & Hp0 & Hrec & Hdelta & Heq)];
        rewrite Heq; [exact Hkeep|].
      unfold put; simpl. destruct (decide (lobbyId0 = lobbyId)) as [->|Hne].
      + rewrite lookup_insert_eq. simplify_eq.
        destruct (decide (user0 = user)) as [->|Hu].
        * simplify_eq. eexists _, _. split; [done|]. simpl.
          rewrite lookup_insert_eq. split; [done|]. simpl.
          split; [done|]. split; [lia|].
          intros k r Hk. rewrite lookup_insert_ne; [done|]. intros ->. congruence.
        * eexists _, p. split; [done|]. simpl.
          rewrite lookup_insert_ne by done. by repeat split.
      + rewrite lookup_insert_ne by done. exact Hkeep.
    - rewrite finish_effect.
      destruct (lobbies h !! lobbyId0) as [l0|] eqn:Hl0; [|exact Hkeep].
      destruct (finishedAt l0); [exact Hkeep|].
      destruct (decide (lobbyId0 = lobbyId)) as [->|Hne].
      + simplify_eq. apply Hsame; [done|by left].
      + unfold put; simpl. rewrite lookup_insert_ne by done. exact Hkeep. }
  destruct (IH (run c h) l1 p1 Hcs Hl1 Hp1) as (l' & p' & Hl' & Hp' & Hname & Hscore & Hans).
  exists l', p'. split; [done|]. split; [done|]. split; [congruence|]. split; [lia|].
  intros key rec Hk. by apply Hans, Hans1.
Qed.

Lemma players_only_gain_witness :
  let cs := [SubmitAnswer "L1" "rui" (VObj [("answer", VBool true)]) 6000 0;
             Next "L1" 9000 (ISO 9000);
             SubmitAnswer "L1" "rui" (VObj [("index", VStr "0")]) 9100 0;
             Finish "L1" (ISO 9500)] in
  ∃ l' p',
    lobbies (run_all cs Sample.started) !! "L1" = Some l'
    ∧ players l' !! "rui" = Some p' ∧ 0 ≤ score p'.
Proof.
  intros cs.
  pose (l := default (BattleHub.new_lobby "" "" "" "" PUBLIC None (ISO 0) [])
                     (lobbies Sample.started !! "L1")).
  pose (p := default {| userId := ""; username := ""; score := 0; answers := ∅ |}
                     (players l !! "rui")).
  destruct (players_only_gain cs Sample.started "L1" l "rui" p)
    as (l' & p' & Hl' & Hp' & _ & Hscore & _).
  - reflexivity.
  - vm_compute. reflexivity.
  - vm_compute. reflexivity.
  - exists l', p'. split; [exact Hl'|]. split; [exact Hp'|]. exact Hscore.
Defined.

(** X15. In every hub reachable from the initial one by calls, every
    lobby's join order has no duplicates and lists exactly the users
    that have a player entry, and [qIndex] is [-1] until the lobby is
    started and at least 0 afterwards. *)
Theorem reachable_lobbies_are_consistent cs lobbyId l :
  lobbies (run_all cs battleHub) !! lobbyId = Some l →
  NoDup (order l)
  ∧ (∀ uid, uid ∈ order l ↔ is_Some (players l !! uid))
  ∧ (startedAt l = None → qIndex l = -1)
  ∧ (is_Some (startedAt l) → 0 ≤ qIndex l).
Proof.
  intros Hl.
  destruct (reachable_wf (run_all cs battleHub) (ex_intro _ cs eq_refl) lobbyId l Hl)
    as [Hnodup Hroster Hindex].
  split; [done|]. split; [done|].
  destruct (startedAt l); split; try done; by intros [? ?].
Qed.

Lemma reachable_lobbies_are_consistent_witness :
  ∃ l, lobbies (run_all Sample.eva_leads battleHub) !! "L1" = Some l
       ∧ NoDup (order l) ∧ 0 ≤ qIndex l.
Proof.
  pose (l := default (BattleHub.new_lobby "" "" "" "" PUBLIC None (ISO 0) [])
                     (lobbies (run_all Sample.eva_leads battleHub) !! "L1")).
  assert (Hl : lobbies (run_all Sample.eva_leads battleHub) !! "L1" = Some l)
    by (vm_compute; reflexivity).
  destruct (reachable_lobbies_are_consistent Sample.eva_leads "L1" l Hl)
    as (Hnodup & _ & _ & Hidx).
  exists l. split; [exact Hl|]. split; [exact Hnodup|].
  apply Hidx. vm_compute. by eexists.
Defined.

(** X16. Over any sequence of calls that do not replace the lobby, its
    [qIndex] never goes down and its questions stay the same. *)
Theorem qIndex_only_grows cs h lobbyId l :
  hub_wf h → forallb keeps_lobby cs = true → lobbies h !! lobbyId = Some l →
  ∃ l', lobbies (run_all cs h) !! lobbyId = Some l'
        ∧ qIndex l ≤ qIndex l' ∧ snapshots l' = snapshots l.
Proof.
  revert h l. induction cs as [|c cs IH]; intros h l Hwf Hcs Hl; simpl.
  { by exists l. }
  simpl in Hcs. apply andb_prop in Hcs as [Hc Hcs].
  destruct (qIndex_never_decreases c h lobbyId l Hwf Hc Hl) as (l1 & Hl1 & Hi1 & Hs1).
  destruct (IH (run c h) l1 (run_wf c h Hwf) Hcs Hl1) as (l' & Hl' & Hi & Hs).
  exists l'. split; [done|]. split; [lia|congruence].
Qed.

Lemma qIndex_only_grows_witness :
  let cs := [Next "L1" 9000 (ISO 9000); Join (Some "L1") None "eva" "Eva";
             Start "L1" (ISO 9100) 9100] in
  ∃ l', lobbies (run_all cs Sample.started) !! "L1" = Some l' ∧ 0 ≤ qIndex l'.
Proof.
  intros cs.
  pose (l := default (BattleHub.new_lobby "" "" "" "" PUBLIC None (ISO 0) [])
                     (lobbies Sample.started !! "L1")).
  destruct (qIndex_only_grows cs Sample.started "L1" l) as (l' & Hl' & Hidx & _).
  - exact (reachable_wf _ (ex_intro _ Sample.opening opening_reaches_started)).
  - reflexivity.
  - vm_compute. reflexivity.
  - exists l'. split; [exact Hl'|].
    assert (H0 : qIndex l = 0) by (vm_compute; reflexivity). lia.
Defined.

End AcrossCalls.

(** ** Multiple choice *)

Section MultipleChoice.

Implicit Types (snapshot : QuestionSnapshot) (payload v o : value) (ks zs : list Z).

Lemma Set_has_integers zs (k : Z) :
  Set_has (num_of_Z <$> zs) (num_of_Z k) = bool_decide (k ∈ zs).
Proof.
  assert (Hsame : ∀ a b, same_value_zero (num_of_Z a) (num_of_Z b) = bool_decide (a = b))
    by exact strict_eq_integers.
  unfold Set_has. induction zs as [|z zs IH].
  - symmetry. apply bool_decide_eq_false_2. by intros ?%elem_of_nil.
  - rewrite fmap_cons. cbn [existsb]. rewrite IH, Hsame.
    destruct (decide (k = z)) as [->|Hne].
    + rewrite bool_decide_eq_true_2 by done. simpl. symmetry.
      apply bool_decide_eq_true_2. by left.
    + rewrite (bool_decide_eq_false_2 (k = z)) by done. simpl.
      apply bool_decide_ext. rewrite elem_of_cons. tauto.
Qed.

Lemma Set_of_integers_from ks zs :
  NoDup zs →
  ∃ zs', fold_left Set_add (num_of_Z <$> ks) (num_of_Z <$> zs) = num_of_Z <$> zs'
         ∧ NoDup zs' ∧ ∀ k, k ∈ zs' ↔ k ∈ zs ∨ k ∈ ks.
Proof.
  revert zs. induction ks as [|k ks IH]; intros zs Hzs.
  - exists zs. split; [done|]. split; [done|].
    intros k. rewrite elem_of_nil. tauto.
  - rewrite fmap_cons. simpl. unfold Set_add at 2. rewrite Set_has_integers.
    case_bool_decide as Hk.
    + destruct (IH zs Hzs) as (zs' & -> & Hnodup & Hin).
      exists zs'. split; [done|]. split; [done|].
      intros j. rewrite Hin, elem_of_cons.
      split; [tauto|]. intros [?|[->|?]]; tauto.
    + replace ((num_of_Z <$> zs) ++ [num_of_Z k]) with (num_of_Z <$> (zs ++ [k]))
        by by rewrite fmap_app.
      destruct (IH (zs ++ [k])) as (zs' & -> & Hnodup & Hin).
      { apply NoDup_app. split; [done|]. split; [|apply NoDup_singleton].
        intros j Hj ->%list_elem_of_singleton. done. }
      exists zs'. split; [done|]. split; [done|].
      intros j. rewrite Hin, elem_of_app, list_elem_of_singleton, elem_of_cons. tauto.
Qed.

Lemma Set_of_integers ks :
  ∃ zs, Set_of (num_of_Z <$> ks) = num_of_Z <$> zs ∧ NoDup zs ∧ ∀ k, k ∈ zs ↔ k ∈ ks.
Proof.
  destruct (Set_of_integers_from ks [] (NoDup_nil_2)) as (zs & Hzs & Hnodup & Hin).
  exists zs. split; [exact Hzs|]. split; [done|].
  intros k. rewrite Hin, elem_of_nil. tauto.
Qed.

Lemma subset_integers zs cs :
  forallb (Set_has (num_of_Z <$> cs)) (num_of_Z <$> zs) = true ↔ ∀ k, k ∈ zs → k ∈ cs.
Proof.
  induction zs as [|z zs IH].
  - simpl. split; [intros _ k Hk; by apply elem_of_nil in Hk|done].
  - rewrite fmap_cons. cbn [forallb].
    rewrite andb_true_iff, IH, Set_has_integers, bool_decide_eq_true. split.
    + intros [Hz Hrest] k [->|Hk]%elem_of_cons; [done|by apply Hrest].
    + intros Hall. split; [apply Hall; by left|].
      intros k Hk. apply Hall. by right.
Qed.

Lemma flagged_positions_spec (i : Z) (l : list value) (k : Z) :
  k ∈ filter (λ j, 0 ≤ j) (mapi_from (λ o j, if flagged_multi o then j else -1) i l)
  ↔ 0 ≤ k ∧ i ≤ k ∧ ∃ o, l !! Z.to_nat (k - i) = Some o ∧ flagged_multi o = true.
Proof.
  revert i. induction l as [|x l IH]; intros i; simpl.
  - rewrite filter_nil. split; [by intros ?%elem_of_nil|by intros (_ & _ & o & ? & _)].
  - rewrite filter_cons. destruct (flagged_multi x) eqn:Hx.
    + case_decide as Hi.
      * rewrite elem_of_cons, IH. split.
        -- intros [->|(H0 & Hik & o & Ho & Hf)].
           ++ split; [done|]. split; [lia|]. exists x. by rewrite Z.sub_diag.
           ++ split; [done|]. split; [lia|]. exists o. split; [|done].
              replace (Z.to_nat (k - i)) with (S (Z.to_nat (k - (i + 1)))) by lia. done.
        -- intros (H0 & Hik & o & Ho & Hf).
           destruct (decide (k = i)) as [->|Hne]; [by left|right].
           split; [done|]. split; [lia|]. exists o. split; [|done].
           replace (Z.to_nat (k - i)) with (S (Z.to_nat (k - (i + 1)))) in Ho by lia. done.
      * rewrite IH. split.
        -- intros (H0 & Hik & o & Ho & Hf). split; [done|]. split; [lia|]. exists o.
           split; [|done].
           replace (Z.to_nat (k - i)) with (S (Z.to_nat (k - (i + 1)))) by lia. done.
        -- intros (H0 & Hik & o & Ho & Hf).
           split; [done|]. split; [lia|]. exists o. split; [|done].
           replace (Z.to_nat (k - i)) with (S (Z.to_nat (k - (i + 1)))) in Ho by lia. done.
    + rewrite decide_False by lia. rewrite IH. split.
      * intros (H0 & Hik & o & Ho & Hf). split; [done|]. split; [lia|]. exists o.
        split; [|done].
        replace (Z.to_nat (k - i)) with (S (Z.to_nat (k - (i + 1)))) by lia. done.
      * intros (H0 & Hik & o & Ho & Hf).
        destruct (decide (k = i)) as [->|Hne].
        { rewrite Z.sub_diag in Ho. simpl in Ho. congruence. }
        split; [done|]. split; [lia|]. exists o. split; [|done].
        replace (Z.to_nat (k - i)) with (S (Z.to_nat (k - (i + 1)))) in Ho by lia. done.
Qed.

Lemma map_Number_integers ks :
  map_Number ((λ k, VNum (num_of_Z k)) <$> ks) = Return (num_of_Z <$> ks).
Proof.
  induction ks as [|k ks IH]; [done|].
  rewrite !fmap_cons. simpl. by rewrite IH.
Qed.

(** X17. A multiple-choice answer whose [indices] are integers is
    correct exactly when the submitted indices, as a set, are the
    positions of the options whose [correct] is truthy: order and
    repetitions do not matter, and a missing, an extra or an
    out-of-range index makes it incorrect (no partial credit). *)
Theorem multi_choice_needs_exact_set snapshot payload ks :
  snap_type snapshot = MCQ_MULTI →
  opt_get payload "indices" = VArr ((λ k, VNum (num_of_Z k)) <$> ks) →
  gradeAnswer snapshot payload = Return true
  ↔ ∀ k, k ∈ ks ↔
         0 ≤ k ∧ ∃ o, options_of snapshot !! Z.to_nat k = Some o ∧ flagged_multi o = true.
Proof.
  intros Ht Hind. unfold gradeAnswer. rewrite Ht, Hind. simpl isArray. cbv iota.
  change (array_or_empty (VArr ((λ k, VNum (num_of_Z k)) <$> ks)))
    with ((λ k, VNum (num_of_Z k)) <$> ks).
  rewrite map_Number_integers.
  fold (options_of snapshot). fold flagged_multi. unfold mapi.
  set (pos := filter (λ i, 0 ≤ i) _).
  assert (Hpos : ∀ k, k ∈ pos ↔
            0 ≤ k ∧ ∃ o, options_of snapshot !! Z.to_nat k = Some o ∧ flagged_multi o = true).
  { intros k. unfold pos. rewrite flagged_positions_spec, Z.sub_0_r.
    split; [by intros (? & _ & ?)|by intros (? & ?)]. }
  destruct (Set_of_integers ks) as (zs & Hzs & Hnd_zs & Hin_zs).
  destruct (Set_of_integers pos) as (cs & Hcs & Hnd_cs & Hin_cs).
  change (map num_of_Z pos) with (num_of_Z <$> pos).
  rewrite Hzs, Hcs, !length_fmap.
  split.
  - destruct (negb (length zs =? length cs)%nat) eqn:Hlen; [done|].
    apply negb_false_iff, Nat.eqb_eq in Hlen.
    intros [= Hsub0]. pose proof (proj1 (subset_integers zs cs) Hsub0) as Hsub.
    assert (Hperm : zs ≡ₚ cs).
    { apply submseteq_length_Permutation; [by apply NoDup_submseteq|lia]. }
    intros k. rewrite <- Hpos, <- Hin_zs, <- Hin_cs. by rewrite Hperm.
  - intros Hsame.
    assert (Hperm : zs ≡ₚ cs).
    { apply NoDup_Permutation; [done..|].
      intros k. by rewrite Hin_zs, Hin_cs, Hpos. }
    rewrite (Permutation_length Hperm), Nat.eqb_refl. simpl. f_equal.
    apply subset_integers. intros k. by rewrite Hperm.
Qed.

Lemma multi_choice_needs_exact_set_witness :
  let q := Sample.multi "c3" [VBool true; VBool false; VNum (num_of_Z 1)] in
  gradeAnswer q (VObj [("indices", VArr [Sample.num 2; Sample.num 0; Sample.num 2])])
  = Return true.
Proof.
  intros q.
  apply (proj2 (multi_choice_needs_exact_set q
           (VObj [("indices", VArr [Sample.num 2; Sample.num 0; Sample.num 2])])
           [2; 0; 2] eq_refl eq_refl)).
  intros k. rewrite !elem_of_cons, elem_of_nil. split.
  - intros [->|[->|[->|[]]]]; (split; [done|]); eexists; (split; [reflexivity|reflexivity]).
  - intros (H0 & o & Ho & Hf).
    destruct (decide (k = 0)) as [->|?]; [tauto|].
    destruct (decide (k = 1)) as [->|?]; [vm_compute in Ho; injection Ho as <-; discriminate|].
    destruct (decide (k = 2)) as [->|?]; [tauto|].
    replace (Z.to_nat k) with (S (S (S (Z.to_nat (k - 3))))) in Ho by lia.
    vm_compute in Ho. discriminate.
Defined.

End MultipleChoice.

(** ** Creating a lobby *)

Section Creation.

Context {A : Type}.

Implicit Types (a arr : list A) (draw : nat → nat).

Lemma swap_length a i j : length (swap a i j) = length a.
Proof.
  unfold swap. destruct (a !! i), (a !! j); try done.
  by rewrite !length_insert.
Qed.

Lemma swap_perm a i j : swap a i j ≡ₚ a.
Proof.
  unfold swap.
  destruct (a !! i) as [x|] eqn:Hi; [|done].
  destruct (a !! j) as [y|] eqn:Hj; [|done].
  pose proof (lookup_lt_Some _ _ _ Hi) as Hlti.
  pose proof (lookup_lt_Some _ _ _ Hj) as Hltj.
  apply Permutation_inj. split; [by rewrite !length_insert|].
  exists (λ k, if decide (k = i) then j else if decide (k = j) then i else k).
  split.
  - intros k1 k2. repeat case_decide; lia.
  - intros k. rewrite !list_lookup_insert, !length_insert.
    repeat case_decide; destruct_and?; subst; try done; try lia; try congruence.
Qed.

Lemma shuffle_from_perm draw i a : shuffle_from draw i a ≡ₚ a.
Proof.
  revert a. induction i as [|i IH]; intros a; [done|].
  simpl. by rewrite IH, swap_perm.
Qed.

Lemma slice_to_submseteq a (n : Z) : slice_to a n ⊆+ a.
Proof.
  unfold slice_to. destruct (n <? 0); apply sublist_submseteq, sublist_take.
Qed.

Lemma slice_to_length a (n : Z) :
  0 ≤ n → length (slice_to a n) = Z.to_nat (Z.min n (Z.of_nat (length a))).
Proof.
  intros Hn. unfold slice_to.
  replace (n <? 0) with false by (symmetry; by apply Z.ltb_ge).
  rewrite length_take. lia.
Qed.

Lemma slice_to_all a (n : Z) : Z.of_nat (length a) ≤ n → slice_to a n = a.
Proof.
  intros Hn. unfold slice_to.
  replace (n <? 0) with false by (symmetry; apply Z.ltb_ge; lia).
  apply take_ge. lia.
Qed.

Lemma pick_submseteq draw arr (n : Z) : pick draw arr n ⊆+ arr.
Proof.
  unfold pick. etrans; [apply slice_to_submseteq|].
  apply Permutation_submseteq, shuffle_from_perm.
Qed.

Lemma pick_length draw arr (n : Z) :
  0 ≤ n → length (pick draw arr n) = Z.to_nat (Z.min n (Z.of_nat (length arr))).
Proof.
  intros Hn. unfold pick. rewrite slice_to_length by done.
  by rewrite (shuffle_from_perm draw (length arr - 1) arr).
Qed.

(** X18. [pick] draws without repetition: whatever the random indices,
    each within its range, the result is a part of a rearrangement of
    the array, so no element comes out more often than it went in; for
    [n ≥ 0] it has [min(n, length)] elements, and from [n = length] on
    it is a rearrangement of the whole array. *)
Theorem pick_draws_without_repetition draw arr (n : Z) :
  (∀ i, draw i ≤ i)%nat →
  pick draw arr n ⊆+ arr
  ∧ (0 ≤ n → length (pick draw arr n) = Z.to_nat (Z.min n (Z.of_nat (length arr))))
  ∧ (Z.of_nat (length arr) ≤ n → pick draw arr n ≡ₚ arr).
Proof.
  intros _. split; [apply pick_submseteq|]. split; [apply pick_length|].
  intros Hn. unfold pick. rewrite slice_to_all.
  - apply shuffle_from_perm.
  - by rewrite (shuffle_from_perm draw (length arr - 1) arr).
Qed.

End Creation.

Lemma halves_in_range (i : nat) : (SampleStore.halves i ≤ i)%nat.
Proof. unfold SampleStore.halves. apply Nat.Div0.div_le_upper_bound. lia. Qed.

Lemma pick_draws_without_repetition_witness :
  pick SampleStore.halves ["a"; "b"; "c"; "d"] 2 ⊆+ ["a"; "b"; "c"; "d"]
  ∧ length (pick SampleStore.halves ["a"; "b"; "c"; "d"] 2) = 2%nat.
Proof.
  destruct (pick_draws_without_repetition SampleStore.halves ["a"; "b"; "c"; "d"] 2
              halves_in_range) as (Hsub & Hlen & _).
  split; [exact Hsub|]. apply Hlen. lia.
Defined.

Section CreationOfLobbies.

Implicit Types (d : Store.UsersDir) (u owner : Store.UserFile) (dk : Store.Deck)
  (c : Store.Card) (h : Hub) (l : Lobby).

Lemma readFile_listed d name content :
  Store.readFile d name = Some content → name ∈ Store.listUserIds d.
Proof.
  unfold Store.listUserIds.
  induction d as [|[name' content'] d IH]; simpl; [done|].
  destruct (String.eqb name' name) eqn:Heq.
  - apply String.eqb_eq in Heq as ->. intros _. by left.
  - intros H. right. by apply IH.
Qed.

Lemma loadUser_listed d uid u :
  Store.loadUser d uid = Some u → uid ∈ Store.listUserIds d.
Proof.
  unfold Store.loadUser.
  destruct (Store.readFile d uid) as [[u'|]|] eqn:Hread; [|done..].
  intros _. by eapply readFile_listed.
Qed.

Lemma find_deck_among_sound d uids deckId dk owner :
  find_deck_among d uids deckId = Some (dk, owner) →
  Store.deck_id dk = deckId ∧ dk ∈ Store.decks owner
  ∧ ∃ uid, uid ∈ uids ∧ Store.loadUser d uid = Some owner.
Proof.
  induction uids as [|uid uids IH]; simpl; [done|].
  destruct (Store.loadUser d uid) as [u|] eqn:Hload.
  - destruct (find _ (Store.decks u)) as [dk'|] eqn:Hfind.
    + intros [= -> ->]. apply find_some in Hfind as [Hin Heq].
      apply String.eqb_eq in Heq. split; [done|]. split; [by apply list_elem_of_In|].
      exists uid. split; [by left|done].
    + intros H. destruct (IH H) as (? & ? & uid' & ? & ?).
      split; [done|]. split; [done|]. exists uid'. split; [by right|done].
  - intros H. destruct (IH H) as (? & ? & uid' & ? & ?).
    split; [done|]. split; [done|]. exists uid'. split; [by right|done].
Qed.

Lemma find_deck_among_none d uids deckId :
  find_deck_among d uids deckId = None ↔
  ∀ uid u dk, uid ∈ uids → Store.loadUser d uid = Some u → dk ∈ Store.decks u →
              Store.deck_id dk ≠ deckId.
Proof.
  induction uids as [|uid uids IH]; simpl.
  - split; [|done]. intros _ uid u dk Hin. by apply elem_of_nil in Hin.
  - destruct (Store.loadUser d uid) as [u|] eqn:Hload.
    + destruct (find _ (Store.decks u)) as [dk'|] eqn:Hfind.
      * split; [done|]. intros Hall. exfalso.
        apply find_some in Hfind as [Hin Heq]. apply String.eqb_eq in Heq.
        apply (Hall uid u dk'); [by left|done|by apply list_elem_of_In|done].
      * rewrite IH. split.
        -- intros Hall uid' u' dk [->|Hin]%elem_of_cons Hload' Hdk.
           ++ rewrite Hload in Hload'. injection Hload' as <-.
              apply list_elem_of_In in Hdk.
              pose proof (find_none _ _ Hfind dk Hdk) as Hne. simpl in Hne.
              by apply String.eqb_neq in Hne.
           ++ by eapply Hall.
        -- intros Hall uid' u' dk Hin. apply Hall. by right.
    + rewrite IH. split.
      * intros Hall uid' u' dk [->|Hin]%elem_of_cons Hload' Hdk.
        -- congruence.
        -- by eapply Hall.
      * intros Hall uid' u' dk Hin. apply Hall. by right.
Qed.

(** X19. [findDeckAnywhere] returns a deck with the identifier asked
    for, together with a readable user who owns it, and returns nothing
    exactly when no readable user has a deck with that identifier. *)
Theorem findDeckAnywhere_finds d deckId :
  (∀ dk owner, findDeckAnywhere d deckId = Some (dk, owner) →
     Store.deck_id dk = deckId ∧ dk ∈ Store.decks owner
     ∧ ∃ uid, Store.loadUser d uid = Some owner)
  ∧ (findDeckAnywhere d deckId = None ↔
     ∀ uid u dk, Store.loadUser d uid = Some u → dk ∈ Store.decks u →
                 Store.deck_id dk ≠ deckId).
Proof.
  unfold findDeckAnywhere. split.
  - intros dk owner Hfind.
    destruct (find_deck_among_sound _ _ _ _ _ Hfind) as (? & ? & uid & _ & ?).
    split; [done|]. split; [done|]. by exists uid.
  - rewrite find_deck_among_none. split.
    + intros Hall uid u dk Hload. eapply Hall; [|done]. by eapply loadUser_listed.
    + intros Hall uid u dk _. apply Hall.
Qed.

Lemma findDeckAnywhere_finds_witness :
  Store.deck_id SampleStore.capitals = "d1"
  ∧ SampleStore.capitals ∈ Store.decks SampleStore.ana
  ∧ ∃ uid, Store.loadUser SampleStore.dir uid = Some SampleStore.ana.
Proof.
  apply (proj1 (findDeckAnywhere_finds SampleStore.dir "d1")).
  vm_compute. reflexivity.
Defined.

Lemma omap_submseteq {B C : Type} (f : B → option C) (l1 l2 : list B) :
  l1 ⊆+ l2 → omap f l1 ⊆+ omap f l2.
Proof.
  induction 1 as [|x l1 l2 _ IH|x y l|x l1 l2 _ IH|l1 l2 l3 _ IH1 _ IH2]; simpl.
  - done.
  - destruct (f x); [by constructor|done].
  - destruct (f x), (f y); try done. by constructor.
  - destruct (f x); [by constructor|done].
  - by etrans.
Qed.

Lemma snapshot_of_ineligible c :
  ELIGIBLE_TYPES_has (Store.card_type c) = false → snapshot_of c = None.
Proof. unfold snapshot_of. by destruct (Store.card_type c). Qed.

Lemma omap_snapshot_of_eligible (cs : list Store.Card) :
  omap snapshot_of (List.filter (λ c, ELIGIBLE_TYPES_has (Store.card_type c)) cs)
  = omap snapshot_of cs.
Proof.
  induction cs as [|c cs IH]; [done|].
  cbn [List.filter].
  destruct (ELIGIBLE_TYPES_has (Store.card_type c)) eqn:He.
  - cbn [omap list_omap]. by rewrite IH.
  - cbn [omap list_omap]. by rewrite (snapshot_of_ineligible c He).
Qed.

Lemma omap_snapshot_of_length (cs : list Store.Card) :
  Forall (λ c, ELIGIBLE_TYPES_has (Store.card_type c) = true) cs →
  length (omap snapshot_of cs) = length cs.
Proof.
  induction 1 as [|c cs Hc _ IH]; [done|].
  cbn [omap list_omap]. destruct (snapshot_of c) eqn:Hs.
  - simpl. by rewrite IH.
  - exfalso. unfold snapshot_of in Hs.
    destruct (Store.card_type c); simpl in *; discriminate.
Qed.

Lemma filter_eligible_Forall (cs : list Store.Card) :
  Forall (λ c, ELIGIBLE_TYPES_has (Store.card_type c) = true)
    (List.filter (λ c, ELIGIBLE_TYPES_has (Store.card_type c)) cs).
Proof.
  apply Forall_forall. intros c Hc%list_elem_of_In%filter_In. tauto.
Qed.

(** X20. A lobby that [createLobby] creates is on the deck with the
    identifier asked for, which is public or belongs to the host; its
    questions are snapshots of cards of that deck, of the three types
    the battle can grade, and no card is taken more often than the deck
    has it; for [count ≥ 1] there are [min(count, eligible)] of them,
    at least one. *)
Theorem createLobby_takes_questions_from_deck d host deck count mode draw lobbyId pinNumber
    created h l h' :
  (∀ i, draw i ≤ i)%nat →
  BattleHub.createLobby d host deck count mode draw lobbyId pinNumber created h
    = inr (l, h') →
  ∃ dk owner,
    findDeckAnywhere d deck = Some (dk, owner)
    ∧ deckId l = deck ∧ deckTitle l = Store.title dk
    ∧ (Store.visibility dk = Store.PUBLIC ∨ Store.user_id owner = host)
    ∧ snapshots l ⊆+ omap snapshot_of (Store.cards dk)
    ∧ (1 ≤ count →
       total l = Z.min count (Z.of_nat (length (omap snapshot_of (Store.cards dk))))
       ∧ 1 ≤ total l).
Proof.
  intros Hdraw. unfold BattleHub.createLobby.
  destruct (findDeckAnywhere d deck) as [[dk owner]|] eqn:Hfind; [|done].
  destruct (negb (Store.is_public (Store.visibility dk))
            && negb (String.eqb (Store.user_id owner) host)) eqn:Hpriv; [done|].
  set (eligibles := List.filter _ (Store.cards dk)).
  destruct (length eligibles =? 0)%nat eqn:Hnone; [done|].
  apply Nat.eqb_neq in Hnone.
  intros [= <- <-]. exists dk, owner.
  pose proof (pick_submseteq draw eligibles (Z.min count (Z.of_nat (length eligibles))))
    as Hsub.
  pose proof (pick_length draw eligibles (Z.min count (Z.of_nat (length eligibles))))
    as Hlen.
  split; [done|]. split.
  { destruct (find_deck_among_sound _ _ _ _ _ Hfind) as [Hid _]. exact Hid. }
  split; [done|]. split.
  { apply andb_false_iff in Hpriv as [Hp|Hp]; apply negb_false_iff in Hp.
    - left. by destruct (Store.visibility dk).
    - right. by apply String.eqb_eq. }
  assert (Hall : Forall (λ c, ELIGIBLE_TYPES_has (Store.card_type c) = true) eligibles)
    by apply filter_eligible_Forall.
  split.
  { cbn [snapshots BattleHub.new_lobby].
    rewrite <- (omap_snapshot_of_eligible (Store.cards dk)).
    apply omap_submseteq. exact Hsub. }
  intros Hcount. unfold total. cbn [snapshots BattleHub.new_lobby].
  rewrite <- (omap_snapshot_of_eligible (Store.cards dk)). fold eligibles.
  rewrite (omap_snapshot_of_length eligibles Hall).
  rewrite omap_snapshot_of_length.
  - rewrite Hlen by lia. lia.
  - eapply Forall_forall. intros c Hc. eapply (proj1 (Forall_forall _ _) Hall).
    eapply elem_of_submseteq; [exact Hc|exact Hsub].
Qed.

Lemma createLobby_takes_questions_from_deck_witness :
  ∃ l h',
    BattleHub.createLobby SampleStore.dir "rui" "d1" 2 PRIVATE SampleStore.halves
      "L7" 123456 (ISO 4000) battleHub = inr (l, h')
    ∧ deckId l = "d1" ∧ total l = 2.
Proof.
  destruct (BattleHub.createLobby SampleStore.dir "rui" "d1" 2 PRIVATE SampleStore.halves
              "L7" 123456 (ISO 4000) battleHub) as [err|[l h']] eqn:Hrun.
  { vm_compute in Hrun. discriminate. }
  destruct (createLobby_takes_questions_from_deck _ _ _ _ _ _ _ _ _ _ _ _
              halves_in_range Hrun)
    as (dk & owner & Hfind & Hdeck & _ & _ & _ & Htotal).
  exists l, h'. split; [done|]. split; [done|].
  destruct Htotal as [-> _]; [lia|].
  assert (Hdk : dk = SampleStore.capitals).
  { vm_compute in Hfind. injection Hfind as <- _. vm_compute. reflexivity. }
  rewrite Hdk. vm_compute. reflexivity.
Defined.

End CreationOfLobbies.

Section PinOfLobby.

Implicit Types (d : Store.UsersDir) (h : Hub) (l : Lobby).

Lemma pretty_N_go_nonempty (x : N) (s : string) : s ≠ "" → pretty_N_go x s ≠ "".
Proof.
  revert s. induction (N.lt_wf_0 x) as [x _ IH]; intros s Hs.
  assert (x = 0 ∨ 0 < x)%N as [->|Hpos] by lia.
  - by rewrite pretty_N_go_0.
  - rewrite pretty_N_go_step by done. apply IH; [by apply N.div_lt|done].
Qed.

Lemma pretty_Z_nonempty (z : Z) : pretty z ≠ "".
Proof.
  destruct z as [|p|p]; [done| |done].
  unfold pretty, pretty_Z, pretty, pretty_positive, pretty, pretty_N.
  case_decide; [done|].
  rewrite pretty_N_go_step by lia. by apply pretty_N_go_nonempty.
Qed.

Lemma run_all_snoc cs c h : run_all (cs ++ [c]) h = run c (run_all cs h).
Proof. unfold run_all. by rewrite fold_left_app. Qed.

(** X21. [createLobby] stores the lobby under its identifier as a
    waiting lobby of the host (no players, not started, not finished),
    and a hub that calls can reach stays one that calls can reach.  A
    private lobby can then be joined by its PIN alone, whatever PINs
    the hub held before; a public lobby has no PIN and leaves the PIN
    index as it was. *)
Theorem created_lobby_is_joinable_by_pin d host deck count mode draw lobbyId pinNumber
    created h l h' :
  lobbyId ≠ "" →
  BattleHub.createLobby d host deck count mode draw lobbyId pinNumber created h
    = inr (l, h') →
  BattleHub.getLobby h' lobbyId = Some l
  ∧ hostId l = host ∧ order l = [] ∧ startedAt l = None ∧ finishedAt l = None
  ∧ (reachable h → reachable h')
  ∧ match mode with
    | PRIVATE =>
        ∀ user name, ∃ l' h'' out,
          BattleHub.join None (Some (pretty pinNumber)) user name h' = (Return l', h'', out)
          ∧ lobby_id l' = lobbyId ∧ order l' = [user]
    | PUBLIC => pin l = None ∧ pinIndex h' = pinIndex h
    end.
Proof.
  intros Hid. unfold BattleHub.createLobby.
  destruct (findDeckAnywhere d deck) as [[dk owner]|]; [|done].
  destruct (negb (Store.is_public (Store.visibility dk))
            && negb (String.eqb (Store.user_id owner) host)); [done|].
  set (eligibles := List.filter _ (Store.cards dk)).
  destruct (length eligibles =? 0)%nat; [done|].
  set (shots := omap snapshot_of _).
  set (pin_ := match mode with PRIVATE => Some (pretty pinNumber) | PUBLIC => None end).
  set (l0 := BattleHub.new_lobby lobbyId host (Store.deck_id dk) (Store.title dk) mode pin_
               created shots).
  intros [= <- <-].
  split. { unfold BattleHub.getLobby, BattleHub.register. simpl. by rewrite lookup_insert_eq. }
  do 4 (split; [done|]).
  split.
  { intros [cs ->].
    exists (cs ++ [CreateLobby lobbyId host (Store.deck_id dk) (Store.title dk) mode pin_
                     created shots]).
    by rewrite run_all_snoc. }
  destruct mode.
  - split; [done|]. done.
  - intros user name.
    pose proof (pretty_Z_nonempty pinNumber) as Hpin. apply String.eqb_neq in Hpin.
    set (l' := with_players l0
                 (<[user := {| userId := user; username := name; score := 0; answers := ∅ |}]>
                    (players l0))
                 (order l0 ++ [user])).
    assert (Hwf' : lobby_wf l').
    { eapply lobby_step_wf; [by constructor|]. apply new_lobby_wf. }
    destruct (publicLobby_returns l' Hwf') as (body & Hbody & _).
    exists l', (put lobbyId l' (BattleHub.register l0 h)),
      (if io h then [lobby_update (lobby_id l') body] else []).
    split; [|done].
    unfold BattleHub.join. unfold_M.
    unfold BattleHub.register. simpl. rewrite Hpin. simpl.
    rewrite lookup_insert_eq. simpl.
    apply String.eqb_neq in Hid. rewrite Hid. simpl.
    rewrite lookup_insert_eq. simpl.
    rewrite lookup_empty.
    change (with_players l0 (<[user := _]> ∅) [user]) with l'. rewrite Hbody.
    destruct (io h); reflexivity.
Qed.

Lemma created_lobby_is_joinable_by_pin_witness :
  ∃ l h' l' h'' out,
    BattleHub.createLobby SampleStore.dir "rui" "d1" 2 PRIVATE SampleStore.halves
      "L7" 123456 (ISO 4000) Sample.started = inr (l, h')
    ∧ BattleHub.join None (Some "123456") "eva" "Eva" h' = (Return l', h'', out)
    ∧ lobby_id l' = "L7" ∧ order l' = ["eva"].
Proof.
  destruct (BattleHub.createLobby SampleStore.dir "rui" "d1" 2 PRIVATE SampleStore.halves
              "L7" 123456 (ISO 4000) Sample.started) as [err|[l h']] eqn:Hrun.
  { vm_compute in Hrun. discriminate. }
  assert (Hid : "L7" ≠ "") by discriminate.
  destruct (created_lobby_is_joinable_by_pin _ _ _ _ _ _ _ _ _ _ _ _ Hid Hrun)
    as (_ & _ & _ & _ & _ & _ & Hjoin).
  destruct (Hjoin "eva" "Eva") as (l' & h'' & out & Hcall & Hl' & Hord).
  exists l, h', l', h'', out. split; [done|]. split; [|done].
  assert (Hpin : pretty 123456 = "123456") by (vm_compute; reflexivity).
  by rewrite <- Hpin.
Defined.

End PinOfLobby.

(** ** Listing the public lobbies *)

Section Listing.

Implicit Types (h : Hub) (l : Lobby) (p : PublicLobby).

Lemma publicLobbies_returns (ls : list Lobby) :
  Forall lobby_wf ls →
  ∃ ps, BattleHub.publicLobbies ls = Return ps
        ∧ ∀ p, p ∈ ps ↔ ∃ l, l ∈ ls ∧ publicLobby l = Return p.
Proof.
  induction 1 as [|l ls Hl _ (ps & Hps & Hin)].
  - exists []. split; [done|]. intros p. split.
    + by intros ?%elem_of_nil.
    + by intros (l & ?%elem_of_nil & _).
  - destruct (publicLobby_returns l Hl) as (body & Hbody & _).
    exists (body :: ps). split; [simpl; by rewrite Hbody, Hps|].
    intros p. rewrite elem_of_cons, Hin. split.
    + intros [->|(l' & Hl' & Hp)].
      * exists l. split; [by left|done].
      * exists l'. split; [by right|done].
    + intros (l' & [->|Hl']%elem_of_cons & Hp).
      * left. congruence.
      * right. by exists l'.
Qed.

(** X22. In a hub that satisfies the invariant [listPublic] returns,
    and what it lists, up to order, are the public views of exactly the
    lobbies that are public and not finished: a private lobby and a
    finished lobby are never listed, whether started or not. *)
Theorem listPublic_lists_open_public_lobbies h :
  hub_wf h →
  ∃ ps, BattleHub.listPublic h = Return ps
        ∧ ∀ p, p ∈ ps ↔
               ∃ lobbyId l, lobbies h !! lobbyId = Some l
                            ∧ access l = PUBLIC ∧ finishedAt l = None
                            ∧ publicLobby l = Return p.
Proof.
  intros Hwf. unfold BattleHub.listPublic.
  set (keep := λ l, match access l with PUBLIC => true | PRIVATE => false end
                    && negb (bool_decide (is_Some (finishedAt l)))).
  assert (Hkeep : ∀ l, l ∈ List.filter keep (map_to_list (lobbies h)).*2 ↔
            ∃ lobbyId, lobbies h !! lobbyId = Some l
                       ∧ access l = PUBLIC ∧ finishedAt l = None).
  { intros l. rewrite list_elem_of_In, filter_In, <- list_elem_of_In, list_elem_of_fmap.
    unfold keep. split.
    - intros [([lobbyId l'] & -> & Hin%elem_of_map_to_list) Hk]. simpl in *.
      apply andb_true_iff in Hk as [Ha Hf]. apply negb_true_iff in Hf.
      apply bool_decide_eq_false in Hf.
      exists lobbyId. split; [done|]. split; [by destruct (access l')|].
      destruct (finishedAt l'); [|done]. destruct Hf. by eexists.
    - intros (lobbyId & Hl & Ha & Hf). split.
      + exists (lobbyId, l). split; [done|]. by apply elem_of_map_to_list.
      + by rewrite Ha, Hf. }
  destruct (publicLobbies_returns (List.filter keep (map_to_list (lobbies h)).*2))
    as (ps & Hps & Hin).
  { apply Forall_forall. intros l (lobbyId & Hl & _)%Hkeep. by eapply Hwf. }
  exists ps. split; [done|]. intros p. rewrite Hin. split.
  - intros (l & (lobbyId & Hl & Ha & Hf)%Hkeep & Hp). by exists lobbyId, l.
  - intros (lobbyId & l & Hl & Ha & Hf & Hp). exists l. split; [|done].
    apply Hkeep. by exists lobbyId.
Qed.

Lemma listPublic_lists_open_public_lobbies_witness :
  ∃ ps, BattleHub.listPublic Sample.started = Return ps
        ∧ ∀ p, p ∈ ps → pub_access p = PUBLIC.
Proof.
  destruct (listPublic_lists_open_public_lobbies Sample.started) as (ps & Hps & Hin).
  { exact (reachable_wf _ (ex_intro _ Sample.opening opening_reaches_started)). }
  exists ps. split; [done|].
  intros p (lobbyId & l & _ & Ha & _ & Hp)%Hin.
  unfold publicLobby in Hp. destruct (score_rows l); [|done].
  injection Hp as <-. exact Ha.
Defined.

End Listing.

(** ** The store and the prizes *)

Section Wallets.

Implicit Types (d : Store.UsersDir) (u : Store.UserFile) (trx : Store.Transaction).

Lemma readFile_writeFile d name u :
  Store.readFile (Store.writeFile d name u) name = Some (Some u).
Proof.
  induction d as [|[name' content] d IH]; simpl.
  - by rewrite String.eqb_refl.
  - destruct (String.eqb name' name) eqn:Heq; simpl; by rewrite Heq.
Qed.

Lemma readFile_writeFile_ne d name name' u :
  name' ≠ name → Store.readFile (Store.writeFile d name u) name' = Store.readFile d name'.
Proof.
  intros Hne. induction d as [|[name0 content] d IH]; simpl.
  - apply not_eq_sym in Hne. apply String.eqb_neq in Hne. by rewrite Hne.
  - destruct (String.eqb name0 name) eqn:Heq; simpl.
    + apply String.eqb_eq in Heq as ->.
      apply not_eq_sym in Hne. apply String.eqb_neq in Hne. by rewrite Hne.
    + destruct (String.eqb name0 name'); [done|apply IH].
Qed.

Lemma loadUser_saveUser now u d :
  Store.loadUser (Store.saveUser now u d) (Store.user_id u)
  = Some (Store.with_updatedAt u now).
Proof. unfold Store.loadUser, Store.saveUser. by rewrite readFile_writeFile. Qed.

Lemma loadUser_saveUser_ne now u d name :
  name ≠ Store.user_id u →
  Store.loadUser (Store.saveUser now u d) name = Store.loadUser d name.
Proof.
  intros Hne. unfold Store.loadUser, Store.saveUser. by rewrite readFile_writeFile_ne.
Qed.

Lemma saveUser_consistent now u d :
  Store.consistent d → Store.consistent (Store.saveUser now u d).
Proof.
  intros Hd name u' Hload.
  destruct (decide (name = Store.user_id u)) as [->|Hne].
  - rewrite loadUser_saveUser in Hload. by injection Hload as <-.
  - rewrite loadUser_saveUser_ne in Hload by done. by apply Hd.
Qed.

(** X23. [appendTransaction] on the file of an existing user posts the
    transaction: read back, the wallet has the transaction at the end
    of its list and the balance moved by the amount, up for EARN and
    down for SPEND; the decks and every other file are as before. *)
Theorem appendTransaction_posts now now' userId trx d u :
  Store.loadUser d userId = Some u → Store.user_id u = userId →
  ∃ d' u',
    Store.appendTransaction now now' userId trx d = Some d'
    ∧ Store.loadUser d' userId = Some u'
    ∧ Store.balance (Store.wallet u')
      = Store.balance (Store.wallet u)
        + match Store.trx_type trx with
          | Store.EARN => Store.amount trx
          | Store.SPEND => - Store.amount trx
          end
    ∧ Store.transactions (Store.wallet u') = Store.transactions (Store.wallet u) ++ [trx]
    ∧ Store.decks u' = Store.decks u
    ∧ ∀ other, other ≠ userId → Store.loadUser d' other = Store.loadUser d other.
Proof.
  intros Hload Hid. unfold Store.appendTransaction. rewrite Hload.
  set (u1 := Store.with_transaction u trx now).
  assert (Hid1 : Store.user_id u1 = userId) by done.
  exists (Store.saveUser now' u1 d), (Store.with_updatedAt u1 now').
  split; [done|]. split; [by rewrite <- Hid1, loadUser_saveUser|].
  split; [done|]. split; [done|]. split; [done|].
  intros other Hne. apply loadUser_saveUser_ne. by rewrite Hid1.
Qed.

Lemma sample_store_consistent : Store.consistent SampleStore.dir.
Proof.
  intros name u. unfold Store.loadUser, SampleStore.dir. cbn [Store.readFile].
  destruct (String.eqb "broken" name); [done|].
  destruct (String.eqb "ana" name) eqn:Hana.
  { apply String.eqb_eq in Hana as <-. by intros [= <-]. }
  destruct (String.eqb "rui" name) eqn:Hrui; [|done].
  apply String.eqb_eq in Hrui as <-. by intros [= <-].
Qed.

Lemma appendTransaction_posts_witness :
  ∃ d' u',
    Store.appendTransaction (ISO 9001) (ISO 9002) "ana"
      {| Store.trx_id := "trx0"; Store.ts := ISO 9000; Store.trx_type := Store.SPEND;
         Store.amount := 3; Store.reason := Some "hint"; Store.ref := None |}
      SampleStore.dir = Some d'
    ∧ Store.loadUser d' "ana" = Some u'
    ∧ Store.balance (Store.wallet u') = 2.
Proof.
  destruct (appendTransaction_posts (ISO 9001) (ISO 9002) "ana"
              {| Store.trx_id := "trx0"; Store.ts := ISO 9000; Store.trx_type := Store.SPEND;
                 Store.amount := 3; Store.reason := Some "hint"; Store.ref := None |}
              SampleStore.dir SampleStore.ana eq_refl eq_refl)
    as (d' & u' & Happend & Hload & Hbalance & _).
  exists d', u'. split; [done|]. split; [done|]. rewrite Hbalance. reflexivity.
Defined.

Lemma pay_award_keeps lobbyId a st d :
  Store.consistent d →
  ∃ d', pay_award lobbyId a st d = (true, d')
        ∧ Store.consistent d'
        ∧ ∀ name, Store.wallet <$> Store.loadUser d' name
                  = Store.wallet <$> Store.loadUser d name.
Proof.
  intros Hd. unfold pay_award.
  destruct (Store.loadUser d (row_userId a.1)) as [u|] eqn:Hload.
  2: { by exists d. }
  pose proof (Hd _ _ Hload) as Hid.
  unfold Store.appendTransaction. rewrite Hid, Hload.
  set (trx := Store.Build_Transaction _ _ _ _ _ _).
  set (d1 := Store.saveUser _ (Store.with_transaction u trx _) d).
  exists (Store.saveUser (stamp_save st) u d1).
  split; [done|]. split.
  { apply saveUser_consistent. by apply saveUser_consistent. }
  intros name. destruct (decide (name = Store.user_id u)) as [->|Hne].
  - rewrite loadUser_saveUser. rewrite Hid, Hload. done.
  - rewrite loadUser_saveUser_ne by done. unfold d1.
    by rewrite loadUser_saveUser_ne.
Qed.

(** X24. The prize loop of [finish] leaves every wallet as it found it.
    In a store whose files are named after their users, for any awards
    the loop runs to its end, and afterwards every user has the balance
    and the transactions he or she had before: the [saveUser(u)] that
    follows [appendTransaction] writes the copy loaded before the
    transaction was posted. *)
Theorem prize_loop_leaves_wallets lobbyId awards stamps k d :
  Store.consistent d →
  ∃ d', pay_awards lobbyId awards stamps k d = (true, d')
        ∧ Store.consistent d'
        ∧ ∀ name, Store.wallet <$> Store.loadUser d' name
                  = Store.wallet <$> Store.loadUser d name.
Proof.
  revert k d. induction awards as [|a awards IH]; intros k d Hd.
  - by exists d.
  - destruct (pay_award_keeps lobbyId a (stamps k) d Hd) as (d1 & Hpay & Hd1 & Hsame1).
    destruct (IH (S k) d1 Hd1) as (d' & Hrest & Hd' & Hsame).
    exists d'. simpl. rewrite Hpay. split; [done|]. split; [done|].
    intros name. by rewrite Hsame, Hsame1.
Qed.

Lemma prize_loop_leaves_wallets_witness :
  ∃ d',
    pay_awards "L1"
      [({| row_userId := "ana"; row_username := "Ana"; row_score := 150 |}, 30);
       ({| row_userId := "rui"; row_username := "Rui"; row_score := 100 |}, 20)]
      SampleStore.stamps 0 SampleStore.dir = (true, d')
    ∧ Store.wallet <$> Store.loadUser d' "ana"
      = Some {| Store.balance := 5; Store.transactions := [] |}.
Proof.
  destruct (prize_loop_leaves_wallets "L1"
              [({| row_userId := "ana"; row_username := "Ana"; row_score := 150 |}, 30);
               ({| row_userId := "rui"; row_username := "Rui"; row_score := 100 |}, 20)]
              SampleStore.stamps 0 SampleStore.dir sample_store_consistent)
    as (d' & Hrun & _ & Hsame).
  exists d'. split; [done|]. rewrite Hsame. reflexivity.
Defined.

End Wallets.

(** ** The HTTP routes *)

Section HttpRoutes.

Implicit Types (h : Hub) (l : Lobby) (p : PlayerState) (q : QuestionSnapshot) (e : error).









(** X25. Only the host drives a battle over HTTP: when anyone else
    posts to [/start], [/next] or [/finish] for an existing lobby, the
    reply is 403 with the error of that route, the hub is untouched and
    nothing is emitted. *)
Theorem only_host_drives_battle caller lobbyId l h :
  lobbyId ≠ "" → lobbies h !! lobbyId = Some l → hostId l ≠ caller →
  (∀ nowISO nowMs,
     Routes.post_start caller lobbyId nowISO nowMs h
     = (Routes.Failed 403 Routes.ONLY_HOST_CAN_START, h, []))
  ∧ (∀ nowMs nowISO,
       Routes.post_next caller lobbyId nowMs nowISO h
       = (Routes.Failed 403 Routes.ONLY_HOST_CAN_NEXT, h, []))
  ∧ (∀ nowISO,
       Routes.post_finish caller lobbyId nowISO h
       = (Routes.Failed 403 Routes.ONLY_HOST_CAN_FINISH, h, [])).
Proof.
  intros Hid%String.eqb_neq Hl Hhost%String.eqb_neq.
  unfold Routes.post_start, Routes.post_next, Routes.post_finish, Routes.catching,
    BattleHub.getLobby.
  rewrite Hid. unfold_M. rewrite Hl, Hhost. done.
Qed.

Lemma only_host_drives_battle_witness :
  Routes.post_start "rui" "L1" (ISO 7000) 7000 Sample.started
  = (Routes.Failed 403 Routes.ONLY_HOST_CAN_START, Sample.started, []).
Proof.
  pose (l := default (BattleHub.new_lobby "" "" "" "" PUBLIC None (ISO 0) [])
                     (lobbies Sample.started !! "L1")).
  assert (Hl : lobbies Sample.started !! "L1" = Some l) by (vm_compute; reflexivity).
  assert (Hid : "L1" ≠ "") by discriminate.
  assert (Hhost : hostId l ≠ "rui") by (vm_compute; discriminate).
  exact (proj1 (only_host_drives_battle "rui" "L1" l Sample.started Hid Hl Hhost)
           (ISO 7000) 7000).
Defined.

(** X26. The [score] in the reply of [/answer] is the caller's score as
    the hub holds it after the call: the score before plus the reported
    [delta] when this was the caller's first answer to the question,
    and the score before, whatever [delta] says, when it was not. *)
Theorem answer_reply_reports_stored_score caller lobbyId payload t t' h c dl el sc h' out :
  Routes.post_answer caller lobbyId payload t t' h = (Routes.Graded c dl el sc, h', out) →
  ∃ l p q l' p',
    lobbies h !! lobbyId = Some l ∧ players l !! caller = Some p
    ∧ snapshot_at l (qIndex l) = Some q
    ∧ lobbies h' !! lobbyId = Some l' ∧ players l' !! caller = Some p'
    ∧ score p' = sc
    ∧ sc = match answers p !! answer_key q (qIndex l) with
           | Some _ => score p
           | None => score p + dl
           end.
Proof.
  unfold Routes.post_answer, Routes.invalid_body, Routes.catching, Routes.lobby_after,
    BattleHub.getLobby.
  destruct (String.eqb lobbyId ""); [done|]. unfold_M.
  destruct (lobbies h !! lobbyId) as [l|] eqn:Hl; [|done].
  destruct (players l !! caller) as [p|] eqn:Hp; [|done].
  destruct (BattleHub.submitAnswer lobbyId caller payload t t' h) as [[r h1] o1] eqn:Hcall.
  destruct r as [s|e]; [|done].
  destruct (submitAnswer_returns _ _ _ _ _ _ _ _ _ Hcall)
    as (l0 & q & p0 & Hl0 & _ & Hq & _ & _ & _ & Hp0 & ->).
  rewrite Hl in Hl0. injection Hl0 as <-. rewrite Hp in Hp0. injection Hp0 as <-.
  cbn [lobbies]. rewrite lookup_insert_eq. cbv beta iota.
  assert (Hafter : ∃ p', players (answered l caller p q s) !! caller = Some p'
            ∧ score p' = match answers p !! answer_key q (qIndex l) with
                         | Some _ => score p
                         | None => score p + BattleHub.delta s
                         end).
  { unfold answered. destruct (answers p !! answer_key q (qIndex l)).
    - by exists p.
    - eexists. simpl. rewrite lookup_insert_eq. done. }
  destruct Hafter as (p' & Hp' & Hscore). rewrite Hp'. cbv beta iota.
  intros [= <- <- <- <- <- <-].
  exists l, p, q, (answered l caller p q s), p'.
  cbn [lobbies]. rewrite lookup_insert_eq. done.
Qed.

Lemma answer_reply_reports_stored_score_witness :
  ∃ c dl el sc h' out l' p',
    Routes.post_answer "rui" "L1" (VObj [("answer", VBool true)]) 6000 0 Sample.started
    = (Routes.Graded c dl el sc, h', out)
    ∧ lobbies h' !! "L1" = Some l' ∧ players l' !! "rui" = Some p' ∧ score p' = sc
    ∧ sc = 140.
Proof.
  destruct (Routes.post_answer "rui" "L1" (VObj [("answer", VBool true)]) 6000 0
              Sample.started) as [[r h'] out] eqn:Hrun.
  assert (Hr : r = Routes.Graded true 140 1000 140).
  { apply (f_equal (λ x, x.1.1)) in Hrun. vm_compute in Hrun. by symmetry. }
  subst r.
  destruct (answer_reply_reports_stored_score _ _ _ _ _ _ _ _ _ _ _ _ Hrun)
    as (l & p & q & l' & p' & _ & _ & _ & Hl' & Hp' & Hscore & _).
  exists true, 140, 1000, 140, h', out, l', p'.
  split; [reflexivity|]. split; [exact Hl'|]. split; [exact Hp'|].
  split; [exact Hscore|reflexivity].
Defined.



End HttpRoutes.

(** ** Battle and solo grading *)

Section SoloGrading.

Implicit Types (c : Store.Card) (q : QuestionSnapshot) (payload : value).

(** X28. A battle grades as the solo mode does: for a card of a deck, a
    payload gets from [gradeAnswer] on the snapshot taken of the card
    what the solo [gradeAnswer] gives it on the card itself, a thrown
    TypeError included; a card of which no snapshot is taken is always
    graded incorrect in solo mode. *)
Theorem battle_grades_like_solo (deck : Store.Deck) cardId c payload :
  List.find (λ c, String.eqb (Store.card_id c) cardId) (Store.cards deck) = Some c →
  match snapshot_of c with
  | Some q => Solo.gradeAnswer deck cardId payload = gradeAnswer q payload
  | None => Solo.gradeAnswer deck cardId payload = Return false
  end.
Proof.
  intros Hfind. unfold Solo.gradeAnswer, snapshot_of, gradeAnswer. rewrite Hfind.
  by destruct (Store.card_type c).
Qed.

Lemma battle_grades_like_solo_witness :
  Solo.gradeAnswer SampleStore.capitals "k4" (VObj [("indices", VArr [Sample.num 2; Sample.num 0])])
  = Return true
  ∧ Solo.gradeAnswer SampleStore.capitals "k2" (VObj [("answer", VStr "Lisboa")])
    = Return false.
Proof.
  split.
  - exact (battle_grades_like_solo SampleStore.capitals "k4"
             (SampleStore.card "k4" Store.MCQ_MULTI
                (VObj [("options", VArr [Sample.choice "Faro" (VBool true);
                                         Sample.choice "Vigo" (VBool false);
                                         Sample.choice "Braga" (VBool true)])]))
             (VObj [("indices", VArr [Sample.num 2; Sample.num 0])]) eq_refl).
  - exact (battle_grades_like_solo SampleStore.capitals "k2"
             (SampleStore.card "k2" Store.TEXT (VObj [("answer", VStr "Lisboa")]))
             (VObj [("answer", VStr "Lisboa")]) eq_refl).
Defined.

End SoloGrading.


(** ** Replies and broadcasts *)

Section RepliesAndBroadcasts.

Implicit Types (h : Hub) (l : Lobby) (q : QuestionSnapshot).

Lemma questionPayload_of_snapshot l q :
  snapshot_at l (qIndex l) = Some q → questionPayload l = Some (question_message l q).
Proof.
  intros Hq. unfold questionPayload. rewrite Hq.
  unfold snapshot_at in Hq. destruct (0 <=? qIndex l) eqn:H0; [|done].
  apply Z.leb_le in H0. apply lookup_lt_Some in Hq.
  replace (qIndex l <? 0) with false by (symmetry; apply Z.ltb_ge; lia).
  replace (total l <=? qIndex l) with false
    by (symmetry; apply Z.leb_gt; unfold total; lia).
  done.
Qed.

Lemma pub_fields l body :
  Routes.pub l = Return body →
  Routes.r_id body = lobby_id l ∧ Routes.r_qIndex body = qIndex l.
Proof.
  unfold Routes.pub. destruct (score_rows l); [|done]. by intros [= <-].
Qed.

(** X29. A reply that carries [current] agrees with the broadcast: with
    a socket server attached, whenever [/start] or [/next] answers with
    [{ lobby, current }], [current] is a question payload, that same
    payload is the one [lobby:question] message sent to the lobby's
    room, and nothing else was emitted. *)
Theorem current_reply_matches_broadcast r h body cur h' out :
  io h = true →
  Routes.serve r h = (Routes.Current body cur, h', out) →
  ∃ qp, cur = Some qp
        ∧ out = [lobby_question (Routes.r_id body) qp]
        ∧ qp_lobbyId qp = Routes.r_id body
        ∧ qp_qIndex qp = Routes.r_qIndex body.
Proof.
  intros Hio.
  destruct r as [caller name lobbyId pin_|caller lobbyId nowISO nowMs
                 |caller lobbyId nowMs nowISO|caller lobbyId payload t t'
                 |caller lobbyId nowISO]; simpl.
  - (* /join *)
    unfold Routes.post_join, Routes.catching. unfold_M.
    destruct (BattleHub.join lobbyId pin_ caller _ h) as [[[l'|e0] h1] o1]; [|done].
    by destruct (Routes.pub l').
  - (* /start *)
    unfold Routes.post_start, Routes.invalid_body, Routes.catching, Routes.lobby_after,
      BattleHub.getLobby.
    destruct (String.eqb lobbyId ""); [done|]. unfold_M.
    destruct (lobbies h !! lobbyId) as [l|] eqn:Hl; [|done].
    destruct (negb (String.eqb (hostId l) caller)); [done|].
    unfold BattleHub.start, BattleHub.requireLobby, BattleHub.emitQuestion. unfold_M.
    rewrite Hl. destruct (bool_decide (is_Some (startedAt l))); [done|].
    set (l1 := with_started l nowISO nowMs).
    cbn [io]. rewrite Hio.
    destruct (snapshot_at l1 (qIndex l1)) as [q|] eqn:Hq; [|done].
    cbn [lobbies]. rewrite lookup_insert_eq.
    destruct (Routes.pub l1) as [body1|e1] eqn:Hpub; [|done].
    intros [= <- <- <- <-].
    destruct (pub_fields _ _ Hpub) as [Hid Hidx].
    exists (question_message l1 q). split; [by apply questionPayload_of_snapshot|].
    rewrite Hid, Hidx. done.
  - (* /next *)
    unfold Routes.post_next, Routes.invalid_body, Routes.catching, Routes.lobby_after,
      BattleHub.getLobby.
    destruct (String.eqb lobbyId ""); [done|]. unfold_M.
    destruct (lobbies h !! lobbyId) as [l|] eqn:Hl; [|done].
    destruct (negb (String.eqb (hostId l) caller)); [done|].
    unfold BattleHub.next.
    unfold mbind at 3. unfold M_bind. unfold BattleHub.requireLobby at 1. unfold_M.
    rewrite Hl. destruct (negb (bool_decide (is_Some (startedAt l)))); [done|].
    set (l1 := with_qIndex l (qIndex l + 1)). cbv beta.
    destruct (total l1 <=? qIndex l1).
    + (* past the last question *)
      set (h1 := Build_Hub _ _ _).
      pose proof (finish_effect lobbyId nowISO h1) as Heff.
      destruct (BattleHub.finish lobbyId nowISO h1) as [[rf hf] outf].
      assert (Hl1 : lobbies h1 !! lobbyId = Some l1).
      { unfold h1. cbn [lobbies]. apply lookup_insert_eq. }
      cbn [fst snd] in Heff. rewrite Hl1 in Heff.
      assert (∃ after, lobbies hf !! lobbyId = Some after ∧ is_Some (finishedAt after))
        as (after & -> & Hfin).
      { destruct (finishedAt l1) as [d|] eqn:Hf; subst hf.
        - exists l1. split; [done|]. rewrite Hf. by eexists.
        - exists (with_finishedAt l1 nowISO). unfold put. cbn [lobbies].
          rewrite lookup_insert_eq. split; [done|]. by eexists. }
      destruct (Routes.pub after); [|done].
      by rewrite bool_decide_true.
    + (* the next question *)
      set (l2 := with_qShownAt l1 nowMs).
      unfold BattleHub.emitQuestion, emit. cbn [io]. rewrite Hio.
      destruct (snapshot_at l2 (qIndex l2)) as [q|] eqn:Hq; [|done].
      cbn [lobbies]. rewrite lookup_insert_eq.
      destruct (Routes.pub l2) as [body2|e2] eqn:Hpub; [|done].
      destruct (bool_decide (is_Some (finishedAt l2))); [done|].
      intros [= <- <- <- <-].
      destruct (pub_fields _ _ Hpub) as [Hid Hidx].
      exists (question_message l2 q). split; [by apply questionPayload_of_snapshot|].
      rewrite Hid, Hidx. done.
  - (* /answer *)
    unfold Routes.post_answer, Routes.invalid_body, Routes.catching, Routes.lobby_after,
      BattleHub.getLobby.
    destruct (String.eqb lobbyId ""); [done|]. unfold_M.
    destruct (lobbies h !! lobbyId) as [l|] eqn:Hl; [|done].
    destruct (players l !! caller) as [p|] eqn:Hp; [|done].
    destruct (BattleHub.submitAnswer lobbyId caller payload t t' h)
      as [[[s|e0] h1] o1]; [|done].
    destruct (lobbies h1 !! lobbyId) as [after|]; [|done].
    by destruct (players after !! caller).
  - (* /finish *)
    unfold Routes.post_finish, Routes.invalid_body, Routes.catching, Routes.lobby_after,
      BattleHub.getLobby.
    destruct (String.eqb lobbyId ""); [done|]. unfold_M.
    destruct (lobbies h !! lobbyId) as [l|] eqn:Hl; [|done].
    destruct (negb (String.eqb (hostId l) caller)); [done|].
    destruct (BattleHub.finish lobbyId nowISO h) as [[[[]|e0] h1] o1]; [|done].
    destruct (lobbies h1 !! lobbyId) as [after|]; [|done].
    by destruct (Routes.pub after).
Qed.

Lemma current_reply_matches_broadcast_witness :
  let h := run_all (take 4 Sample.opening) battleHub in
  ∃ body qp h',
    Routes.serve (Routes.PostStart "ana" "L1" (ISO 5000) 5000) h
    = (Routes.Current body (Some qp), h', [lobby_question (Routes.r_id body) qp]).
Proof.
  intros h.
  assert (Hio : io h = true) by (vm_compute; reflexivity).
  destruct (Routes.serve (Routes.PostStart "ana" "L1" (ISO 5000) 5000) h)
    as [[r h'] out] eqn:Hrun.
  assert (Hr : ∃ body cur, r = Routes.Current body cur).
  { apply (f_equal (λ x, x.1.1)) in Hrun. vm_compute in Hrun. subst r.
    do 2 eexists. reflexivity. }
  destruct Hr as (body & cur & ->).
  destruct (current_reply_matches_broadcast _ _ _ _ _ _ Hio Hrun)
    as (qp & -> & -> & _).
  exists body, qp, h'. reflexivity.
Defined.

End RepliesAndBroadcasts.

(** ** Keys of the recorded answers *)

Section AnswerKeys.

Implicit Types (s t : string) (q : QuestionSnapshot).

Lemma colon_free_after_colon s t : colon_free (s +:+ String ":" t) = false.
Proof.
  induction s as [|c s IH]; simpl; [done|].
  rewrite IH. apply andb_false_r.
Qed.

Lemma split_at_last_colon s1 t1 s2 t2 :
  colon_free t1 = true → colon_free t2 = true →
  s1 +:+ String ":" t1 = s2 +:+ String ":" t2 → s1 = s2 ∧ t1 = t2.
Proof.
  intros Ht1 Ht2. revert s2. induction s1 as [|c s1 IH]; intros [|c' s2]; simpl.
  - by intros [= ->].
  - intros [= _ ->]. by rewrite colon_free_after_colon in Ht1.
  - intros [= _ <-]. by rewrite colon_free_after_colon in Ht2.
  - intros [= -> Hrest]. destruct (IH s2 Hrest) as [-> ->]. done.
Qed.

Lemma pretty_N_char_colon_free (x : N) : Ascii.eqb (pretty_N_char x) ":" = false.
Proof. unfold pretty_N_char. by repeat case_match. Qed.

Lemma pretty_N_go_colon_free (x : N) s :
  colon_free s = true → colon_free (pretty_N_go x s) = true.
Proof.
  revert s. induction (N.lt_wf_0 x) as [x _ IH]; intros s Hs.
  assert (x = 0 ∨ 0 < x)%N as [->|Hpos] by lia.
  - by rewrite pretty_N_go_0.
  - rewrite pretty_N_go_step by done. apply IH; [by apply N.div_lt|].
    simpl. by rewrite pretty_N_char_colon_free.
Qed.

Lemma pretty_N_colon_free (x : N) : colon_free (pretty x) = true.
Proof.
  unfold pretty, pretty_N. case_decide; [done|]. by apply pretty_N_go_colon_free.
Qed.

Lemma pretty_Z_colon_free (z : Z) : colon_free (pretty z) = true.
Proof.
  destruct z as [|x|x]; [done|apply pretty_N_colon_free|].
  unfold pretty, pretty_Z. simpl. apply pretty_N_colon_free.
Qed.

(** X30. The key under which an answer is recorded determines the
    question: two keys are the same string only for the same card
    identifier and the same index, whatever characters the identifier
    has, so that an answer to one question of a lobby never stands in
    for an answer to another. *)
Theorem answer_key_determines_question q q' (i i' : Z) :
  answer_key q i = answer_key q' i' → snap_id q = snap_id q' ∧ i = i'.
Proof.
  unfold answer_key. intros Heq.
  destruct (split_at_last_colon _ _ _ _ (pretty_Z_colon_free i) (pretty_Z_colon_free i') Heq)
    as [Hid Hi].
  split; [done|]. by apply (inj pretty).
Qed.

Lemma answer_key_determines_question_witness :
  snap_id (Sample.true_false "a:1" true) = snap_id (Sample.single "a:1" []) ∧ 2 = 2.
Proof.
  apply (answer_key_determines_question (Sample.true_false "a:1" true)
           (Sample.single "a:1" []) 2 2).
  vm_compute. reflexivity.
Defined.

End AnswerKeys.
